(** * Callify: the malpractice monitor (src/hooks/useMalpracticeMonitor.ts)

    A shallow embedding of the hook [useMalpracticeMonitor]: the detector
    resolution ([resolveDetector], [ensureTfModules]), the flag state
    ([updateFlags], [resetFlags]) and the polling loop ([runDetection]),
    followed by the properties of the monitoring engine.

    Conventions of the embedding.
    - Timestamps ([Date.now()]) and the intrinsic video dimensions are
      integers ([Z]).  Bounding-box coordinates are JavaScript numbers; they
      are idealised as exact rationals ([Q]), so rounding of doubles and NaN
      are outside the model.
    - React state and refs are fields of one record [State]; a state setter
      is a field update, an updater function passed to [setFlags] is applied
      to the current value.
    - Object identity is modelled by allocation numbers: every array and
      flag object that the hook keeps carries the number it was allocated
      with, and [Object.is] is equality of these records.
    - One run of the first effect is modelled (one [call]): the session
      starts when [resolveDetector] settles and proceeds by events, which
      are timeouts firing, the stream feed emitting, and the cleanups.
      What the browser and the adapter answer is an input of each event.
      A tick is given twice: as one event of [step], from the firing of
      its timeout to the end of its continuation, and split at the [await]
      of [detect] in [Loop], where any event can arrive in between.
    - The adapter, the timers and the console are seen through the calls
      made to them, recorded in [effects] and [pendingTimeouts]. *)

From Stdlib Require Import ZArith QArith List Bool String Lia Lqa.
From Stdlib Require Import Permutation Sorted.
From Stdlib Require Import DecimalString.
Import ListNotations.

Open Scope Z_scope.

(** ** Data model *)

Inductive MalpracticeFlagType : Type :=
| multiple_faces_detected
| no_face_detected
| face_near_frame_edge.

Definition type_eqb (a b : MalpracticeFlagType) : bool :=
  match a, b with
  | multiple_faces_detected, multiple_faces_detected => true
  | no_face_detected, no_face_detected => true
  | face_near_frame_edge, face_near_frame_edge => true
  | _, _ => false
  end.

(** [flag_id] is the identity of the object, the other three fields are
    the fields of the interface [MalpracticeFlag]. *)
Record MalpracticeFlag : Type := mkFlag {
  flag_id : nat;
  type : MalpracticeFlagType;
  message : string;
  since : Z
}.

(** A JavaScript array of flags with its identity. *)
Record FlagArray : Type := mkArr {
  arr_id : nat;
  items : list MalpracticeFlag
}.

Inductive DetectorSource : Type := native | fallback.

(** [DOMRectReadOnly], restricted to the four fields the hook reads. *)
Record DOMRect : Type := mkRect {
  x : Q;
  y : Q;
  width : Q;
  height : Q
}.

Record DetectionResult : Type := mkFace {
  boundingBox : DOMRect
}.

(** The adapter as far as the loop is concerned: where it came from and
    whether it has a [dispose] method.  What [detect] answers is an input of
    each tick. *)
Record DetectionAdapter : Type := mkAdapter {
  source : DetectorSource;
  has_dispose : bool
}.

Definition DETECTION_INTERVAL_MS : Z := 750.
Definition NO_FACE_THRESHOLD_MS : Z := 3000.
Definition EDGE_THRESHOLD_MS : Z := 1500.
Definition EDGE_MARGIN_RATIO : Q := 8 # 100.

Definition FLAG_MESSAGES (t : MalpracticeFlagType) : string :=
  match t with
  | multiple_faces_detected =>
      "Multiple faces detected in frame. Possible impersonation."
  | no_face_detected =>
      "No face detected for several seconds. Head may be out of frame."
  | face_near_frame_edge =>
      "Face detected at the edge of the frame. Adjust position."
  end%string.

Definition FLAG_PRIORITY : list MalpracticeFlagType :=
  [multiple_faces_detected; no_face_detected; face_near_frame_edge].

(** ** Small pieces of the JavaScript library *)

(** [Array.prototype.includes] on flag types. *)
Definition includes (l : list MalpracticeFlagType) (t : MalpracticeFlagType)
  : bool := existsb (type_eqb t) l.

(** [Array.prototype.every] with the index passed to the callback. *)
Fixpoint every_from {A : Type} (p : A -> nat -> bool) (i : nat) (l : list A)
  : bool :=
  match l with
  | [] => true
  | a :: r => p a i && every_from p (S i) r
  end.

Definition every {A : Type} (p : A -> nat -> bool) (l : list A) : bool :=
  every_from p 0%nat l.

(** A [Map] keyed by flag type; [new Map(entries)] inserts the entries in
    order, so a later entry replaces an earlier one with the same key. *)
Definition TypeMap : Type := MalpracticeFlagType -> option MalpracticeFlag.

Definition map_empty : TypeMap := fun _ => None.

Definition map_set (m : TypeMap) (k : MalpracticeFlagType)
  (v : MalpracticeFlag) : TypeMap :=
  fun k' => if type_eqb k' k then Some v else m k'.

Definition map_of_flags (prev : list MalpracticeFlag) : TypeMap :=
  fold_left (fun m flag => map_set m (type flag) flag) prev map_empty.

(** The video element the hook creates, as far as the loop reads it: the
    bound [MediaStream], by identity.  Its [readyState] and intrinsic
    dimensions are set by the browser and are inputs of each tick. *)
Record VideoElement : Type := mkVideo {
  srcObject : option nat
}.

(** What a caught exception is: an [Error] with its message, or any other
    thrown value. *)
Inductive Thrown : Type :=
| ErrorObject (msg : string)
| OtherValue.

Inductive Effect : Type :=
| EffDetect            (* adapter.detect(video) was called *)
| EffDispose           (* adapter.dispose() was called *)
| EffPlay              (* video.play() was called *)
| EffPause             (* video.pause() was called *)
| EffLogError          (* logDetectionError *)
| EffUnsubscribe.      (* mediaStreamSubRef.current.unsubscribe() *)

(** ** The state of one mounted hook *)

Record State : Type := mkState {
  (* useState *)
  flags : FlagArray;
  error : option string;
  isMonitoring : bool;
  detectorAvailable : bool;
  detectorSource : option DetectorSource;
  (* useRef *)
  detectorRef : option DetectionAdapter;
  videoRef : option VideoElement;
  detectionTimerRef : option nat;
  mediaStreamSubRef : bool;    (* true: holds a live subscription *)
  noFaceSinceRef : option Z;
  edgeSinceRef : option Z;
  (* the variable of the effect's closure *)
  isCancelled : bool;
  (* the runtime around the hook *)
  pendingTimeouts : list nat;  (* handles of the timeouts not yet fired *)
  nextHandle : nat;            (* next handle window.setTimeout returns *)
  nextObject : nat;            (* next allocation number *)
  effects : list Effect        (* calls made so far, latest first *)
}.

Definition with_flags (v : FlagArray) (s : State) : State :=
  mkState v (error s) (isMonitoring s) (detectorAvailable s)
    (detectorSource s) (detectorRef s) (videoRef s) (detectionTimerRef s)
    (mediaStreamSubRef s) (noFaceSinceRef s) (edgeSinceRef s) (isCancelled s)
    (pendingTimeouts s) (nextHandle s) (nextObject s) (effects s).

Definition with_error (v : option string) (s : State) : State :=
  mkState (flags s) v (isMonitoring s) (detectorAvailable s)
    (detectorSource s) (detectorRef s) (videoRef s) (detectionTimerRef s)
    (mediaStreamSubRef s) (noFaceSinceRef s) (edgeSinceRef s) (isCancelled s)
    (pendingTimeouts s) (nextHandle s) (nextObject s) (effects s).

Definition with_isMonitoring (v : bool) (s : State) : State :=
  mkState (flags s) (error s) v (detectorAvailable s)
    (detectorSource s) (detectorRef s) (videoRef s) (detectionTimerRef s)
    (mediaStreamSubRef s) (noFaceSinceRef s) (edgeSinceRef s) (isCancelled s)
    (pendingTimeouts s) (nextHandle s) (nextObject s) (effects s).

Definition with_detectorAvailable (v : bool) (s : State) : State :=
  mkState (flags s) (error s) (isMonitoring s) v
    (detectorSource s) (detectorRef s) (videoRef s) (detectionTimerRef s)
    (mediaStreamSubRef s) (noFaceSinceRef s) (edgeSinceRef s) (isCancelled s)
    (pendingTimeouts s) (nextHandle s) (nextObject s) (effects s).

Definition with_detectorSource (v : option DetectorSource) (s : State)
  : State :=
  mkState (flags s) (error s) (isMonitoring s) (detectorAvailable s)
    v (detectorRef s) (videoRef s) (detectionTimerRef s)
    (mediaStreamSubRef s) (noFaceSinceRef s) (edgeSinceRef s) (isCancelled s)
    (pendingTimeouts s) (nextHandle s) (nextObject s) (effects s).

Definition with_detectorRef (v : option DetectionAdapter) (s : State)
  : State :=
  mkState (flags s) (error s) (isMonitoring s) (detectorAvailable s)
    (detectorSource s) v (videoRef s) (detectionTimerRef s)
    (mediaStreamSubRef s) (noFaceSinceRef s) (edgeSinceRef s) (isCancelled s)
    (pendingTimeouts s) (nextHandle s) (nextObject s) (effects s).

Definition with_videoRef (v : option VideoElement) (s : State) : State :=
  mkState (flags s) (error s) (isMonitoring s) (detectorAvailable s)
    (detectorSource s) (detectorRef s) v (detectionTimerRef s)
    (mediaStreamSubRef s) (noFaceSinceRef s) (edgeSinceRef s) (isCancelled s)
    (pendingTimeouts s) (nextHandle s) (nextObject s) (effects s).

Definition with_detectionTimerRef (v : option nat) (s : State) : State :=
  mkState (flags s) (error s) (isMonitoring s) (detectorAvailable s)
    (detectorSource s) (detectorRef s) (videoRef s) v
    (mediaStreamSubRef s) (noFaceSinceRef s) (edgeSinceRef s) (isCancelled s)
    (pendingTimeouts s) (nextHandle s) (nextObject s) (effects s).

Definition with_mediaStreamSubRef (v : bool) (s : State) : State :=
  mkState (flags s) (error s) (isMonitoring s) (detectorAvailable s)
    (detectorSource s) (detectorRef s) (videoRef s) (detectionTimerRef s)
    v (noFaceSinceRef s) (edgeSinceRef s) (isCancelled s)
    (pendingTimeouts s) (nextHandle s) (nextObject s) (effects s).

Definition with_noFaceSinceRef (v : option Z) (s : State) : State :=
  mkState (flags s) (error s) (isMonitoring s) (detectorAvailable s)
    (detectorSource s) (detectorRef s) (videoRef s) (detectionTimerRef s)
    (mediaStreamSubRef s) v (edgeSinceRef s) (isCancelled s)
    (pendingTimeouts s) (nextHandle s) (nextObject s) (effects s).

Definition with_edgeSinceRef (v : option Z) (s : State) : State :=
  mkState (flags s) (error s) (isMonitoring s) (detectorAvailable s)
    (detectorSource s) (detectorRef s) (videoRef s) (detectionTimerRef s)
    (mediaStreamSubRef s) (noFaceSinceRef s) v (isCancelled s)
    (pendingTimeouts s) (nextHandle s) (nextObject s) (effects s).

Definition with_isCancelled (v : bool) (s : State) : State :=
  mkState (flags s) (error s) (isMonitoring s) (detectorAvailable s)
    (detectorSource s) (detectorRef s) (videoRef s) (detectionTimerRef s)
    (mediaStreamSubRef s) (noFaceSinceRef s) (edgeSinceRef s) v
    (pendingTimeouts s) (nextHandle s) (nextObject s) (effects s).

Definition with_pendingTimeouts (v : list nat) (s : State) : State :=
  mkState (flags s) (error s) (isMonitoring s) (detectorAvailable s)
    (detectorSource s) (detectorRef s) (videoRef s) (detectionTimerRef s)
    (mediaStreamSubRef s) (noFaceSinceRef s) (edgeSinceRef s) (isCancelled s)
    v (nextHandle s) (nextObject s) (effects s).

Definition with_nextHandle (v : nat) (s : State) : State :=
  mkState (flags s) (error s) (isMonitoring s) (detectorAvailable s)
    (detectorSource s) (detectorRef s) (videoRef s) (detectionTimerRef s)
    (mediaStreamSubRef s) (noFaceSinceRef s) (edgeSinceRef s) (isCancelled s)
    (pendingTimeouts s) v (nextObject s) (effects s).

Definition with_nextObject (v : nat) (s : State) : State :=
  mkState (flags s) (error s) (isMonitoring s) (detectorAvailable s)
    (detectorSource s) (detectorRef s) (videoRef s) (detectionTimerRef s)
    (mediaStreamSubRef s) (noFaceSinceRef s) (edgeSinceRef s) (isCancelled s)
    (pendingTimeouts s) (nextHandle s) v (effects s).

Definition emit (e : Effect) (s : State) : State :=
  mkState (flags s) (error s) (isMonitoring s) (detectorAvailable s)
    (detectorSource s) (detectorRef s) (videoRef s) (detectionTimerRef s)
    (mediaStreamSubRef s) (noFaceSinceRef s) (edgeSinceRef s) (isCancelled s)
    (pendingTimeouts s) (nextHandle s) (nextObject s) (e :: effects s).

(** ** The flag state: [updateFlags] and [resetFlags] *)

Definition prioritize (types : list MalpracticeFlagType)
  : list MalpracticeFlagType :=
  filter (fun t => includes types t) FLAG_PRIORITY.

(** [prev[index]?.type === type] *)
Definition type_at (prev : list MalpracticeFlag) (t : MalpracticeFlagType)
  (index : nat) : bool :=
  match nth_error prev index with
  | Some flag => type_eqb (type flag) t
  | None => false
  end.

Definition same_types (prioritizedTypes : list MalpracticeFlagType)
  (prev : list MalpracticeFlag) : bool :=
  Nat.eqb (List.length prioritizedTypes) (List.length prev)
  && every (type_at prev) prioritizedTypes.

(** The callback of [prioritizedTypes.map]: an existing flag object is
    returned as it is, a missing one is allocated at number [n]. *)
Fixpoint rebuild (previousByType : TypeMap) (timestamp : Z)
  (tys : list MalpracticeFlagType) (n : nat) : list MalpracticeFlag * nat :=
  match tys with
  | [] => ([], n)
  | t :: r =>
      match previousByType t with
      | Some existing =>
          let (fs, n') := rebuild previousByType timestamp r n in
          (existing :: fs, n')
      | None =>
          let (fs, n') := rebuild previousByType timestamp r (S n) in
          (mkFlag n t (FLAG_MESSAGES t) timestamp :: fs, n')
      end
  end.

(** The updater passed to [setFlags] in [updateFlags]: from the previous
    array and the allocation counter to the next array and counter. *)
Definition updateFlags_updater (types : list MalpracticeFlagType)
  (timestamp : Z) (prev : FlagArray) (n : nat) : FlagArray * nat :=
  let previousByType := map_of_flags (items prev) in
  let prioritizedTypes := prioritize types in
  if same_types prioritizedTypes (items prev) then (prev, n)
  else
    let (fs, n') := rebuild previousByType timestamp prioritizedTypes (S n) in
    (mkArr n fs, n').

Definition updateFlags (types : list MalpracticeFlagType) (timestamp : Z)
  (s : State) : State :=
  let (a, n) := updateFlags_updater types timestamp (flags s) (nextObject s) in
  with_nextObject n (with_flags a s).

(** [setFlags((prev) => (prev.length ? [] : prev))] *)
Definition resetFlags_updater (prev : FlagArray) (n : nat) : FlagArray * nat :=
  if Nat.eqb (List.length (items prev)) 0 then (prev, n) else (mkArr n [], S n).

Definition resetFlags (s : State) : State :=
  let (a, n) := resetFlags_updater (flags s) (nextObject s) in
  with_edgeSinceRef None
    (with_noFaceSinceRef None (with_nextObject n (with_flags a s))).

(** React re-renders the consumers of [flags] when the stored array is not
    the one stored before. *)
Definition flags_notified (before after : State) : Prop :=
  flags after <> flags before.

Definition flag_types (s : State) : list MalpracticeFlagType :=
  map type (items (flags s)).

(** ** Timers, the video element and teardown *)

(** [window.setTimeout(runDetection, DETECTION_INTERVAL_MS)], stored in
    [detectionTimerRef].  Handles start at 1, as in a browser. *)
Definition scheduleNext (s : State) : State :=
  let h := nextHandle s in
  with_detectionTimerRef (Some h)
    (with_nextHandle (S h)
       (with_pendingTimeouts (pendingTimeouts s ++ [h]) s)).

Definition clearTimeout (h : nat) (s : State) : State :=
  with_pendingTimeouts
    (filter (fun h' => negb (Nat.eqb h' h)) (pendingTimeouts s)) s.

(** The four blocks of [stopLoop], in the order of the source. *)
Definition clearDetectionTimer (s : State) : State :=
  match detectionTimerRef s with
  | Some h =>
      if Nat.eqb h 0 then s
      else with_detectionTimerRef None (clearTimeout h s)
  | None => s
  end.

Definition disposeAdapter (s : State) : State :=
  let adapter := detectorRef s in
  let s' := with_detectorRef None s in
  match adapter with
  | Some a => if has_dispose a then emit EffDispose s' else s'
  | None => s'
  end.

Definition releaseVideo (s : State) : State :=
  match videoRef s with
  | Some _ => with_videoRef None (emit EffPause s)
  | None => s
  end.

Definition unsubscribeFeed (s : State) : State :=
  if mediaStreamSubRef s
  then with_mediaStreamSubRef false (emit EffUnsubscribe s)
  else s.

Definition stopLoop (s : State) : State :=
  with_edgeSinceRef None
    (with_noFaceSinceRef None
       (unsubscribeFeed
          (releaseVideo (disposeAdapter (clearDetectionTimer s))))).

Definition stream_eqb (a : option nat) (b : nat) : bool :=
  match a with
  | Some a' => Nat.eqb a' b
  | None => false
  end.

Definition attachStream (stream : option nat) (s : State) : State :=
  match videoRef s with
  | None => s
  | Some v =>
      match stream with
      | Some m =>
          if stream_eqb (srcObject v) m then s
          else emit EffPlay (with_videoRef (Some (mkVideo (Some m))) s)
      | None => with_videoRef (Some (mkVideo None)) (emit EffPause s)
      end
  end.

(** The cleanup returned by the first effect.  Its [video.remove()] finds
    the element already removed by [stopLoop]. *)
Definition sessionCleanup (s : State) : State :=
  with_detectorSource None
    (with_isMonitoring false
       (resetFlags (stopLoop (with_isCancelled true s)))).

(** The cleanup returned by the second effect (unmount). *)
Definition unmountCleanup (s : State) : State :=
  with_detectorSource None
    (resetFlags (with_isMonitoring false (stopLoop s))).

(** ** Ordering the detections *)

Definition area (f : DetectionResult) : Q :=
  (width (boundingBox f) * height (boundingBox f))%Q.

(** The comparator given to [sort]. *)
Definition compareFaces (a b : DetectionResult) : Q :=
  let areaA := area a in
  let areaB := area b in
  (areaB - areaA)%Q.

(** [Array.prototype.sort] is stable and, for a consistent comparator,
    returns the elements in non-decreasing comparator order, so its result
    is determined.  It is modelled by insertion from the right: an element
    goes in front of the first element it does not have to follow. *)
Section Sort.
Context {A : Type} (cmp : A -> A -> Q).

Fixpoint insert_sorted (a : A) (l : list A) : list A :=
  match l with
  | [] => [a]
  | b :: r =>
      if Qle_bool (cmp a b) 0 then a :: b :: r
      else b :: insert_sorted a r
  end.

Fixpoint sort (l : list A) : list A :=
  match l with
  | [] => []
  | a :: r => insert_sorted a (sort r)
  end.
End Sort.

Definition orderedFaces (faces : list DetectionResult)
  : list DetectionResult :=
  if Nat.ltb 1 (List.length faces) then sort compareFaces faces else faces.

(** ** One evaluation of the flag rules *)

(** [now - (ref ?? now) >= threshold] *)
Definition elapsed_at_least (now : Z) (ref : option Z) (threshold : Z)
  : bool :=
  threshold <=? now - match ref with Some t => t | None => now end.

Definition touchesEdge (box : DOMRect) (videoWidth videoHeight : Z) : bool :=
  let left := (x box / inject_Z videoWidth)%Q in
  let top := (y box / inject_Z videoHeight)%Q in
  let right := ((x box + width box) / inject_Z videoWidth)%Q in
  let bottom := ((y box + height box) / inject_Z videoHeight)%Q in
  Qle_bool left EDGE_MARGIN_RATIO
  || Qle_bool top EDGE_MARGIN_RATIO
  || Qle_bool (1 - EDGE_MARGIN_RATIO) right
  || Qle_bool (1 - EDGE_MARGIN_RATIO) bottom.

(** Destructuring [videoRef.current] when it is undefined throws a
    TypeError; the text of its message depends on the engine. *)
Definition destructure_error : Thrown :=
  ErrorObject "Cannot destructure property 'videoWidth' of undefined.".

(** The result of the rules: the state with its timers updated, the
    candidate list [nextFlags], and the exception if one was thrown. *)
Record Evaluation : Type := mkEval {
  ev_state : State;
  nextFlags : list MalpracticeFlagType;
  ev_thrown : option Thrown
}.

Definition evaluateFaces (orderedFaces : list DetectionResult) (now : Z)
  (videoWidth videoHeight : Z) (s : State) : Evaluation :=
  match orderedFaces with
  | [] =>
      let s1 :=
        match noFaceSinceRef s with
        | None => with_noFaceSinceRef (Some now) s
        | Some _ => s
        end in
      let next :=
        if elapsed_at_least now (noFaceSinceRef s1) NO_FACE_THRESHOLD_MS
        then [no_face_detected] else [] in
      mkEval (with_edgeSinceRef None s1) next None
  | primaryFace :: _ =>
      let s1 := with_noFaceSinceRef None s in
      let next :=
        if Nat.ltb 1 (List.length orderedFaces)
        then [multiple_faces_detected] else [] in
      match videoRef s1 with
      | None => mkEval s1 next (Some destructure_error)
      | Some _ =>
          if negb (videoWidth =? 0) && negb (videoHeight =? 0) then
            if touchesEdge (boundingBox primaryFace) videoWidth videoHeight
            then
              let s2 :=
                match edgeSinceRef s1 with
                | None => with_edgeSinceRef (Some now) s1
                | Some _ => s1
                end in
              if elapsed_at_least now (edgeSinceRef s2) EDGE_THRESHOLD_MS
                 && negb (includes next multiple_faces_detected)
              then mkEval s2 (next ++ [face_near_frame_edge]) None
              else mkEval s2 next None
            else mkEval (with_edgeSinceRef None s1) next None
          else mkEval s1 next None
      end
  end.

(** [if (nextFlags.length) updateFlags(nextFlags, now) else resetFlags()] *)
Definition publish (next : list MalpracticeFlagType) (now : Z) (s : State)
  : State :=
  match next with
  | [] => resetFlags s
  | _ :: _ => updateFlags next now s
  end.

(** ** One tick of the loop: [runDetection] *)

(** What the awaited [detect] settles with: both adapters declare it
    [async], so a failure arrives as a rejection at the [await]. *)
Inductive DetectOutcome : Type :=
| DetectOk (faces : list DetectionResult)
| DetectThrows (err : Thrown).

(** What the environment contributes to one tick.  The video element is
    sampled once per tick; its two intrinsic dimensions are those of one
    element and are zero together ([natural_size] below).
    [teardownInFlight] says that the cleanup of the effect ran while
    [detect] was awaited. *)
Record TickInput : Type := mkTick {
  readyState : Z;
  videoWidth : Z;
  videoHeight : Z;
  detectOutcome : DetectOutcome;
  teardownInFlight : bool;
  now : Z
}.

Definition error_message (err : Thrown) : string :=
  match err with
  | ErrorObject msg => msg
  | OtherValue => "Face detection failed unexpectedly."
  end.

(** The [catch] block; when cancellation has been observed it does nothing
    and control reaches the [setTimeout] after the [try]. *)
Definition catchBlock (err : Thrown) (s : State) : State :=
  if isCancelled s then scheduleNext s
  else
    resetFlags
      (with_detectorSource None
         (with_detectorAvailable false
            (stopLoop
               (with_isMonitoring false
                  (with_error (Some (error_message err))
                     (emit EffLogError s)))))).

(** [await detectorRef.current.detect(videoRef.current)]: the call is made,
    and the state the continuation finds is the one left by whatever ran
    while the call was pending. *)
Definition afterAwait (i : TickInput) (s : State) : State :=
  let s0 := emit EffDetect s in
  if teardownInFlight i then sessionCleanup s0 else s0.

(** The [try] block, from the call of [detect] on. *)
Definition tryDetect (i : TickInput) (s : State) : State :=
  let s1 := afterAwait i s in
  match detectOutcome i with
  | DetectThrows err => catchBlock err s1
  | DetectOk faces =>
      let e := evaluateFaces (orderedFaces faces) (now i)
                 (videoWidth i) (videoHeight i) s1 in
      match ev_thrown e with
      | Some err => catchBlock err (ev_state e)
      | None => scheduleNext (publish (nextFlags e) (now i) (ev_state e))
      end
  end.

Definition isSome {A : Type} (o : option A) : bool :=
  match o with Some _ => true | None => false end.

Definition runDetection (i : TickInput) (s : State) : State :=
  if isCancelled s || negb (isSome (detectorRef s)) then s
  else
    match videoRef s with
    | None => s
    | Some video =>
        if negb (isSome (srcObject video)) then scheduleNext (resetFlags s)
        else if (readyState i <? 2) || (videoWidth i =? 0)
        then scheduleNext s
        else tryDetect i s
    end.

(** ** The session *)

(** The state of a freshly mounted hook: the [useState] and [useRef]
    initial values.  The initial empty array is allocation 0. *)
Definition mounted : State :=
  mkState (mkArr 0 []) None false true None
    None None None false None None
    false [] 1 1 [].

(** The synchronous part of the first effect. *)
Definition startEffect (s : State) : State :=
  with_error None
    (with_detectorAvailable true
       (with_videoRef (Some (mkVideo None))
          (with_isCancelled false s))).

Inductive ResolveOutcome : Type :=
| Resolved (adapter : DetectionAdapter)
| ResolveFailed (err : Thrown).

(** [initialize], from the point where [resolveDetector()] has settled.
    [stream] is [call.camera.state.mediaStream] and [hasFeed] says whether
    [call.camera.state.mediaStream$] exists. *)
Definition initialize (r : ResolveOutcome) (stream : option nat)
  (hasFeed : bool) (s : State) : State :=
  match r with
  | Resolved adapter =>
      if isCancelled s
      then (if has_dispose adapter then emit EffDispose s else s)
      else
        let s1 :=
          with_isMonitoring true
            (with_detectorAvailable true
               (with_detectorSource (Some (source adapter))
                  (with_detectorRef (Some adapter) s))) in
        let s2 := attachStream stream s1 in
        let s3 := if hasFeed then with_mediaStreamSubRef true s2 else s2 in
        scheduleNext s3
  | ResolveFailed err =>
      if isCancelled s then s
      else
        resetFlags
          (with_isMonitoring false
             (with_error
                (Some "Face detection libraries failed to load. Malpractice monitoring is unavailable."%string)
                (with_detectorSource None
                   (with_detectorAvailable false (emit EffLogError s)))))
  end.

(** What can happen to a running session.  A tick is taken here from the
    firing of its timeout to the end of its continuation, the [await] of
    [detect] included; the states in between are those of [Loop], further
    down. *)
Inductive Event : Type :=
| EvTick (i : TickInput)        (* the oldest pending timeout fires *)
| EvStream (stream : option nat) (* the stream feed emits *)
| EvCleanup                     (* the first effect is cleaned up *)
| EvUnmount.                    (* the component unmounts *)

Definition step (e : Event) (s : State) : State :=
  match e with
  | EvTick i =>
      match pendingTimeouts s with
      | [] => s
      | _ :: rest => runDetection i (with_pendingTimeouts rest s)
      end
  | EvStream stream =>
      if mediaStreamSubRef s then attachStream stream s else s
  | EvCleanup => sessionCleanup s
  | EvUnmount => unmountCleanup (sessionCleanup s)
  end.

Definition run (evs : list Event) (s : State) : State :=
  fold_left (fun st e => step e st) evs s.

(** A session that resolved its detector. *)
Definition startSession (adapter : DetectionAdapter) (stream : option nat)
  (hasFeed : bool) : State :=
  initialize (Resolved adapter) stream hasFeed (startEffect mounted).

(** ** Resolving a detector *)

(** A value found in a property of [window]. *)
Inductive JSValue : Type :=
| VUndefined
| VFunction
| VOther.

(** [window]: [None] for the property [FaceDetector] says that the
    property is absent. *)
Record Window : Type := mkWindow {
  FaceDetector : option JSValue
}.

(** [typeof window !== 'undefined' && 'FaceDetector' in window &&
    typeof window.FaceDetector === 'function'] *)
Definition nativeDetectorSupported (window : option Window) : bool :=
  match window with
  | None => false
  | Some w =>
      match FaceDetector w with
      | None => false
      | Some VFunction => true
      | Some _ => false
      end
  end.

Inductive Backend : Type := webgl | cpu.

(** What a run of the initialisation meets: which dynamic imports load and
    on which backends [setBackend] and [ready] go through. *)
Record TfEnv : Type := mkTfEnv {
  import_core_ok : bool;
  import_backends_ok : bool;
  setBackend_ok : Backend -> bool;
  ready_ok : Backend -> bool;
  import_faceDetection_ok : bool
}.

Inductive InitEvent : Type :=
| ImportCore
| ImportBackends
| SetBackend (b : Backend)
| Ready (b : Backend)
| WarnBackend (b : Backend)
| ImportFaceDetection.

(** The [for] loop over [candidateBackends]: the events in order and the
    value of [backendInitialized] after the loop. *)
Fixpoint tryBackends (env : TfEnv) (candidates : list Backend)
  : list InitEvent * option Backend :=
  match candidates with
  | [] => ([], None)
  | candidate :: r =>
      if setBackend_ok env candidate then
        if ready_ok env candidate
        then ([SetBackend candidate; Ready candidate], Some candidate)
        else
          let (evs, b) := tryBackends env r in
          (SetBackend candidate :: Ready candidate :: WarnBackend candidate
             :: evs, b)
      else
        let (evs, b) := tryBackends env r in
        (SetBackend candidate :: WarnBackend candidate :: evs, b)
  end.

Definition candidateBackends : list Backend := [webgl; cpu].

(** The body of the memoised promise: the events and the backend of the
    modules it resolves with, or [None] when it throws. *)
Definition loadTfModules (env : TfEnv) : list InitEvent * option Backend :=
  if negb (import_core_ok env) then ([ImportCore], None)
  else if negb (import_backends_ok env)
  then ([ImportCore; ImportBackends], None)
  else
    let (evs, backendInitialized) := tryBackends env candidateBackends in
    match backendInitialized with
    | None => (ImportCore :: ImportBackends :: evs, None)
    | Some b =>
        if import_faceDetection_ok env
        then (ImportCore :: ImportBackends :: evs ++ [ImportFaceDetection],
              Some b)
        else (ImportCore :: ImportBackends :: evs ++ [ImportFaceDetection],
              None)
    end.

Inductive PromiseState : Type :=
| Pending
| Fulfilled (b : Backend)
| Rejected.

(** The module-level state: the memo [tfModulesPromise] (a promise, by
    number), the promises created so far, and what the initialisations did. *)
Record TfRuntime : Type := mkRuntime {
  tfModulesPromise : option nat;
  promises : list (nat * PromiseState);
  initsStarted : nat;
  initEvents : list InitEvent
}.

Definition runtime0 : TfRuntime := mkRuntime None [] 0 [].

Fixpoint promise_state (ps : list (nat * PromiseState)) (p : nat)
  : option PromiseState :=
  match ps with
  | [] => None
  | (q, st) :: r => if Nat.eqb q p then Some st else promise_state r p
  end.

Fixpoint set_promise (ps : list (nat * PromiseState)) (p : nat)
  (v : PromiseState) : list (nat * PromiseState) :=
  match ps with
  | [] => []
  | (q, st) :: r =>
      if Nat.eqb q p then (q, v) :: r else (q, st) :: set_promise r p v
  end.

(** [ensureTfModules()] up to its [return]: the promise handed to the
    caller.  A new promise is created, and its body started, only when the
    memo is empty. *)
Definition ensureTfModules (rt : TfRuntime) : nat * TfRuntime :=
  match tfModulesPromise rt with
  | Some p => (p, rt)
  | None =>
      let p := List.length (promises rt) in
      (p, mkRuntime (Some p) (promises rt ++ [(p, Pending)])
            (S (initsStarted rt)) (initEvents rt))
  end.

(** The body of promise [p] runs to its end in environment [env].  Between
    its start and its end other callers only read the memo, so the body is
    taken as one step. *)
Definition settle (env : TfEnv) (p : nat) (rt : TfRuntime) : TfRuntime :=
  match promise_state (promises rt) p with
  | Some Pending =>
      let (evs, r) := loadTfModules env in
      match r with
      | Some b =>
          mkRuntime (tfModulesPromise rt)
            (set_promise (promises rt) p (Fulfilled b))
            (initsStarted rt) (initEvents rt ++ evs)
      | None =>
          mkRuntime None
            (set_promise (promises rt) p Rejected)
            (initsStarted rt) (initEvents rt ++ evs)
      end
  | _ => rt
  end.

(** [createNativeAdapter]: the constructor is called with
    [{ fastMode: true, maxDetectedFaces: 5 }] and, as declared, returns a
    detector; the adapter has no [dispose].  [resolveDetector] calls it
    only when [window.FaceDetector] is a function. *)
Definition createNativeAdapter (window : option Window)
  : ResolveOutcome :=
  match window with
  | Some (mkWindow (Some VFunction)) => Resolved (mkAdapter native false)
  | _ =>
      ResolveFailed
        (ErrorObject "FaceDetector API unavailable on this browser")
  end.

(** [resolveDetector] up to its first suspension: either the native
    adapter, or [createFallbackAdapter] waiting for the promise of
    [ensureTfModules]. *)
Inductive Resolution : Type :=
| Settled (r : ResolveOutcome)
| AwaitingModules (p : nat).

Definition resolveDetector (window : option Window) (rt : TfRuntime)
  : Resolution * TfRuntime :=
  if nativeDetectorSupported window
  then (Settled (createNativeAdapter window), rt)
  else
    let (p, rt') := ensureTfModules rt in
    (AwaitingModules p, rt').

(** [createFallbackAdapter] once the modules promise has settled:
    [createDetector] with the tfjs runtime, then with the mediapipe
    runtime. *)
Definition createFallbackAdapter_resume (modules : PromiseState)
  (tfjs_ok mediapipe_ok : bool) (err : Thrown) : option ResolveOutcome :=
  match modules with
  | Pending => None
  | Rejected => Some (ResolveFailed err)
  | Fulfilled _ =>
      if tfjs_ok || mediapipe_ok
      then Some (Resolved (mkAdapter fallback true))
      else Some (ResolveFailed err)
  end.

(** ** The module runtime as a transition system *)

(** Callers of [ensureTfModules] and the completion of a promise body
    interleave in any order. *)
Inductive RtEvent : Type :=
| Call
| Settle (env : TfEnv) (p : nat).

Definition rt_step (e : RtEvent) (rt : TfRuntime) : TfRuntime :=
  match e with
  | Call => snd (ensureTfModules rt)
  | Settle env p => settle env p rt
  end.

Definition rt_run (evs : list RtEvent) (rt : TfRuntime) : TfRuntime :=
  fold_left (fun r e => rt_step e r) evs rt.

(** [n] calls of [ensureTfModules] with nothing settling in between: the
    promises handed out, in order, and the runtime afterwards. *)
Fixpoint concurrentCalls (n : nat) (rt : TfRuntime) : list nat * TfRuntime :=
  match n with
  | O => ([], rt)
  | S k =>
      let (p, rt1) := ensureTfModules rt in
      let (ps, rt2) := concurrentCalls k rt1 in
      (p :: ps, rt2)
  end.

Definition is_rejected (e : nat * PromiseState) : bool :=
  match snd e with Rejected => true | _ => false end.

Definition backend_ok (env : TfEnv) (b : Backend) : bool :=
  setBackend_ok env b && ready_ok env b.

(** ** Vocabulary of the statements *)

(** The tick gets as far as calling the adapter: the session is live, a
    stream is bound, and the frame passes the readiness test. *)
Definition bound (s : State) : Prop :=
  exists video stream, videoRef s = Some video /\ srcObject video = Some stream.

Definition live (s : State) : Prop :=
  isCancelled s = false /\ detectorRef s <> None.

Definition unbound (s : State) : Prop :=
  exists video, videoRef s = Some video /\ srcObject video = None.

Definition frame_ready (i : TickInput) : Prop :=
  2 <= readyState i /\ videoWidth i <> 0.

(** The number of calls of [detect] made so far. *)
Definition detectCalls (s : State) : nat :=
  List.length
    (filter (fun e => match e with EffDetect => true | _ => false end)
       (effects s)).

(** The candidates of a tick whose [detect] answered [faces]. *)
Definition tickEvaluation (i : TickInput) (faces : list DetectionResult)
  (s : State) : Evaluation :=
  evaluateFaces (orderedFaces faces) (now i) (videoWidth i) (videoHeight i)
    (afterAwait i s).

Definition tick_event (e : Event) : Prop :=
  match e with EvTick _ => True | _ => False end.

(** ** Sample data *)

Definition face (x0 y0 w h : Z) : DetectionResult :=
  mkFace (mkRect (inject_Z x0) (inject_Z y0) (inject_Z w) (inject_Z h)).

Definition sampleAdapter : DetectionAdapter := mkAdapter native false.

Definition sampleSession : State := startSession sampleAdapter (Some 7%nat) true.

(** A tick on a playing 640x480 frame answering [faces] at time [t]. *)
Definition tickAt (t : Z) (faces : list DetectionResult) : TickInput :=
  mkTick 4 640 480 (DetectOk faces) false t.

(** A state that publishes one flag, multiple faces since time 100. *)
Definition publishedMultiple : State :=
  updateFlags [multiple_faces_detected] 100 mounted.

(** The boxes of the ordering scenario: areas 500 and 900. *)
Definition boxA : DetectionResult := face 100 100 20 25.
Definition boxB : DetectionResult := face 200 100 30 30.

(** The detections of area [v]. *)
Definition of_area (v : Q) (f : DetectionResult) : bool :=
  Qeq_bool (area f) v.

(** [a] is at least as large as [b]. *)
Definition area_ge (a b : DetectionResult) : Prop := (area b <= area a)%Q.

(** The number of initialisations that have failed. *)
Definition failedInits (rt : TfRuntime) : nat :=
  List.length (filter is_rejected (promises rt)).

(** One for a memo that holds a promise, zero for an empty memo. *)
Definition memoHeld (rt : TfRuntime) : nat :=
  match tfModulesPromise rt with Some _ => 1%nat | None => 0%nat end.

(** The bookkeeping that every reachable runtime satisfies: promises are
    numbered in order of creation, every initialisation that was started
    has failed or is the one in the memo, and only the promise in the memo
    can be pending or fulfilled. *)
Definition rt_inv (rt : TfRuntime) : Prop :=
  map fst (promises rt) = seq 0 (List.length (promises rt))
  /\ initsStarted rt = (failedInits rt + memoHeld rt)%nat
  /\ (forall q st, promise_state (promises rt) q = Some st ->
                   st <> Rejected -> tfModulesPromise rt = Some q)
  /\ (forall p, tfModulesPromise rt = Some p ->
                exists st, promise_state (promises rt) p = Some st
                           /\ st <> Rejected).

(** Environments for the examples: everything loads; nothing loads. *)
Definition envAllOk : TfEnv :=
  mkTfEnv true true (fun _ => true) (fun _ => true) true.

Definition envNoBackend : TfEnv :=
  mkTfEnv true true (fun _ => false) (fun _ => true) true.

(** Two states that differ at most in the two condition timers. *)
Definition same_but_timers (s s' : State) : Prop :=
  flags s' = flags s
  /\ error s' = error s
  /\ isMonitoring s' = isMonitoring s
  /\ detectorAvailable s' = detectorAvailable s
  /\ detectorSource s' = detectorSource s
  /\ detectorRef s' = detectorRef s
  /\ videoRef s' = videoRef s
  /\ detectionTimerRef s' = detectionTimerRef s
  /\ mediaStreamSubRef s' = mediaStreamSubRef s
  /\ isCancelled s' = isCancelled s
  /\ pendingTimeouts s' = pendingTimeouts s
  /\ nextHandle s' = nextHandle s
  /\ nextObject s' = nextObject s
  /\ effects s' = effects s.

(** Between two events of a session the no-face timer is unset and no
    no-face flag is published. *)
Definition no_face_idle (s : State) : Prop :=
  noFaceSinceRef s = None /\ ~ In no_face_detected (flag_types s).

(** Five ticks, 750 ms apart, with no face in any of them. *)
Definition absentTicks : list Event :=
  [EvTick (tickAt 0 []); EvTick (tickAt 750 []); EvTick (tickAt 1500 []);
   EvTick (tickAt 2250 []); EvTick (tickAt 3000 [])].

(** The published list is empty and both condition timers are unset. *)
Definition cleared (s : State) : Prop :=
  items (flags s) = []
  /\ noFaceSinceRef s = None
  /\ edgeSinceRef s = None.

(** The intrinsic dimensions of a tick are read from one video element:
    [videoWidth] and [videoHeight] are both zero until the dimensions of
    the video are known, and both positive from then on. *)
Definition natural_size (i : TickInput) : Prop :=
  videoWidth i = 0 <-> videoHeight i = 0.

(** A frame that reports data but no intrinsic dimensions yet. *)
Definition emptyFrameTick : TickInput :=
  mkTick 4 0 0 (DetectOk [boxA; boxB]) false 1000.

(** A tick whose [detect] throws. *)
Definition failingTick : TickInput :=
  mkTick 4 640 480 (DetectThrows (ErrorObject "detector crashed")) false 1000.

(** At most the timeout stored in [detectionTimerRef] is pending, and
    handles are never zero. *)
Definition timer_inv (s : State) : Prop :=
  (1 <= nextHandle s)%nat
  /\ (pendingTimeouts s = []
      \/ exists h, pendingTimeouts s = [h]
                   /\ detectionTimerRef s = Some h /\ h <> 0%nat).

(** The state of a tick that has just fired: nothing else is pending. *)
Definition firing (s : State) : Prop :=
  (1 <= nextHandle s)%nat
  /\ pendingTimeouts s = []
  /\ exists h, detectionTimerRef s = Some h /\ h <> 0%nat.

(** A session whose loop has stopped for good, compared with the state
    [s0] it stopped in. *)
Definition halted (s0 s : State) : Prop :=
  pendingTimeouts s = []
  /\ detectorRef s = None
  /\ mediaStreamSubRef s = false
  /\ detectorAvailable s = false
  /\ error s = error s0
  /\ detectCalls s = detectCalls s0.

(** The state of a session that resolved its detector, after the events
    [evs]. *)
Definition reached (adapter : DetectionAdapter) (stream : option nat)
  (hasFeed : bool) (evs : list Event) : State :=
  run evs (startSession adapter stream hasFeed).

(** The box violates the 8% margin on some side of a frame of the given
    size. *)
Definition within_margin (box : DOMRect) (w h : Z) : Prop :=
  (x box / inject_Z w <= 8 # 100
   \/ y box / inject_Z h <= 8 # 100
   \/ 92 # 100 <= (x box + width box) / inject_Z w
   \/ 92 # 100 <= (y box + height box) / inject_Z h)%Q.

(** What a tick observes of the edge condition: [Some true] when it finds
    the primary face within the margin, [Some false] when it finds no face
    or finds the primary face away from the edges, and [None] when it does
    not look (the tick does not get to the rules, [detect] throws, the
    session is torn down meanwhile, or a dimension of the frame is
    zero). *)
Definition edgeSample (i : TickInput) (s : State) : option bool :=
  if isCancelled s || negb (isSome (detectorRef s)) then None
  else
    match videoRef s with
    | None => None
    | Some video =>
        if negb (isSome (srcObject video)) then None
        else if (readyState i <? 2) || (videoWidth i =? 0) then None
        else if teardownInFlight i then None
        else
          match detectOutcome i with
          | DetectThrows _ => None
          | DetectOk faces =>
              match orderedFaces faces with
              | [] => Some false
              | primaryFace :: _ =>
                  if negb (videoWidth i =? 0) && negb (videoHeight i =? 0)
                  then Some (touchesEdge (boundingBox primaryFace)
                               (videoWidth i) (videoHeight i))
                  else None
              end
          end
    end.

Definition eventSample (e : Event) (s : State) : option bool :=
  match e with
  | EvTick i =>
      match pendingTimeouts s with
      | [] => None
      | _ :: rest => edgeSample i (with_pendingTimeouts rest s)
      end
  | _ => None
  end.

(** No event of the list, run from [s], observes the edge condition to be
    false. *)
Fixpoint steady (s : State) (evs : list Event) : Prop :=
  match evs with
  | [] => True
  | e :: r => eventSample e s <> Some false /\ steady (step e s) r
  end.

(** The edge condition has been observed true since time [t]: the events
    split at a tick of timestamp [t] that observed it true, and nothing
    after that tick observed it false. *)
Definition edge_true_since (s0 : State) (evs : list Event) (t : Z) : Prop :=
  exists pre i0 post,
    evs = pre ++ EvTick i0 :: post
    /\ now i0 = t
    /\ eventSample (EvTick i0) (run pre s0) = Some true
    /\ steady (run (pre ++ [EvTick i0]) s0) post.

(** A face at the left edge of a 640x480 frame, and a smaller one in the
    middle. *)
Definition edgeFace : DetectionResult := face 10 100 200 200.
Definition middleFace : DetectionResult := face 300 200 50 50.

(** Two cycles with both faces, 750 ms apart. *)
Definition crowdedTicks : list Event :=
  [EvTick (tickAt 0 [edgeFace; middleFace]);
   EvTick (tickAt 750 [edgeFace; middleFace])].

(** * The rest of the hook and the sensor component *)

(** ** [createFallbackAdapter], from the modules promise on *)

Inductive Runtime : Type := tfjs | mediapipe.

(** What [createDetector] does: resolves with a detector, resolves with
    nothing, or rejects. *)
Inductive CreateOutcome : Type :=
| CreateOk
| CreateNothing
| CreateThrows (err : Thrown).

Inductive FallbackEvent : Type :=
| CreateDetector (runtime : Runtime)
| WarnTfjsFailed.

Definition unable_error : Thrown :=
  ErrorObject "Unable to initialize fallback face detector".

(** [modules] is the settled modules promise: [None] when it rejected
    with [modulesErr]. *)
Definition createFallbackAdapter (modules : option Backend)
  (modulesErr : Thrown) (withTfjs withMediapipe : CreateOutcome)
  : list FallbackEvent * ResolveOutcome :=
  match modules with
  | None => ([], ResolveFailed modulesErr)
  | Some _ =>
      match withTfjs with
      | CreateOk => ([CreateDetector tfjs], Resolved (mkAdapter fallback true))
      | CreateNothing => ([CreateDetector tfjs], ResolveFailed unable_error)
      | CreateThrows _ =>
          match withMediapipe with
          | CreateOk =>
              ([CreateDetector tfjs; WarnTfjsFailed; CreateDetector mediapipe],
               Resolved (mkAdapter fallback true))
          | CreateNothing =>
              ([CreateDetector tfjs; WarnTfjsFailed; CreateDetector mediapipe],
               ResolveFailed unable_error)
          | CreateThrows err =>
              ([CreateDetector tfjs; WarnTfjsFailed; CreateDetector mediapipe],
               ResolveFailed err)
          end
      end
  end.

(** A session whose resolution settled with [r]. *)
Definition session (r : ResolveOutcome) (stream : option nat)
  (hasFeed : bool) : State :=
  initialize r stream hasFeed (startEffect mounted).

(** ** The sensor component (src/components/MalpracticeSensor.tsx) *)

(** [Math.round(a / b)] for integers [a] and [b > 0]: the nearest integer,
    a half going up. *)
Definition Math_round_ratio (a b : Z) : Z := (2 * a + b) / (2 * b).

(** A non-negative integer in a template literal, in decimal digits (as
    JavaScript prints integers below 10^21). *)
Definition decimal (n : Z) : string := NilZero.string_of_int (Z.to_int n).

(** [formatDuration(since)] evaluated at time [now]. *)
Definition formatDuration (now since : Z) : string :=
  let elapsedMs := now - since in
  if elapsedMs <? 1000 then "just now"%string
  else if elapsedMs <? 60000 then
    let seconds := Math_round_ratio elapsedMs 1000 in
    (decimal seconds ++ "s ago")%string
  else
    let minutes := Math_round_ratio elapsedMs 60000 in
    (decimal minutes ++ "m ago")%string.

Record Toast : Type := mkToast {
  title : string;
  description : string
}.

(** The first effect of the sensor: [previous] is
    [previousFlagsRef.current]; the result is the toasts shown, in order,
    and the set stored for the next run. *)
Definition toastEffect (previous : list MalpracticeFlagType)
  (fl : list MalpracticeFlag)
  : list Toast * list MalpracticeFlagType :=
  (map (fun flag => mkToast "Malpractice warning" (message flag))
     (filter (fun flag => negb (includes previous (type flag))) fl),
   map type fl).

(** JavaScript truthiness of an optional string. *)
Definition truthy (o : option string) : bool :=
  match o with
  | None => false
  | Some EmptyString => false
  | Some _ => true
  end.

(** The second effect of the sensor. *)
Definition errorToastEffect (err : option string) : list Toast :=
  match err with
  | Some e =>
      if truthy err then [mkToast "Malpractice sensor disabled" e] else []
  | None => []
  end.

(** What the component returns. *)
Inductive View : Type :=
| UnavailablePanel (text : string)
| NoPanel
| WarningPanel (warnings : list (string * string))
    (compatibilityNote : bool) (errorLine : option string)
    (pausedNote : bool).

Definition isFallback (src : option DetectorSource) : bool :=
  match src with Some fallback => true | _ => false end.

Definition renderSensor (now : Z) (s : State) : View :=
  let hasWarnings := negb (Nat.eqb (List.length (items (flags s))) 0) in
  if negb (detectorAvailable s) then
    UnavailablePanel
      match error s with
      | Some e => e
      | None =>
          "Update your browser or refresh the page to enable proctoring safeguards."%string
      end
  else if negb hasWarnings && negb (truthy (error s)) then NoPanel
  else
    WarningPanel
      (map (fun flag =>
              (message flag,
               ("Flagged " ++ formatDuration now (since flag))%string))
         (items (flags s)))
      (isFallback (detectorSource s) && negb (truthy (error s)))
      (if Nat.eqb (List.length (items (flags s))) 0 && truthy (error s)
       then error s else None)
      (negb (isMonitoring s) && negb (truthy (error s))).

(** ** Vocabulary of the further statements *)

(** The place of a flag type in [FLAG_PRIORITY]. *)
Definition rank (t : MalpracticeFlagType) : nat :=
  match t with
  | multiple_faces_detected => 0
  | no_face_detected => 1
  | face_near_frame_edge => 2
  end.

(** The published status agrees with the refs. *)
Definition status_inv (s : State) : Prop :=
  (live s <-> isMonitoring s = true)
  /\ (live s ->
      detectorAvailable s = true
      /\ exists a, detectorRef s = Some a
                   /\ detectorSource s = Some (source a))
  /\ (items (flags s) <> [] -> live s)
  /\ (error s <> None -> detectorAvailable s = false).

(** At most one flag, with the message of its type. *)
Definition flags_wf (s : State) : Prop :=
  (List.length (items (flags s)) <= 1)%nat
  /\ forall f, In f (items (flags s)) -> message f = FLAG_MESSAGES (type f).

(** A tick that reports at most one face, or any other event. *)
Definition lone (e : Event) : Prop :=
  match e with
  | EvTick i =>
      match detectOutcome i with
      | DetectOk faces => (List.length faces <= 1)%nat
      | DetectThrows _ => True
      end
  | _ => True
  end.

(** The number of [dispose] calls made so far. *)
Definition disposeCalls (s : State) : nat :=
  List.length
    (filter (fun e => match e with EffDispose => true | _ => false end)
       (effects s)).


(** The published array is kept, or a non-empty one is replaced by an
    empty one. *)
Definition kept_or_emptied (s s' : State) : Prop :=
  flags s' = flags s
  \/ (items (flags s') = [] /\ items (flags s) <> []).

(** A session with one published flag and a bound stream. *)
Definition flaggedSession : State :=
  run [EvTick (tickAt 0 [edgeFace; middleFace])] sampleSession.


(** A session at rest, compared with the state [s0] it came to rest in:
    nothing pending, nothing held, nothing published, and no further call
    of [detect] or [dispose]. *)
Definition at_rest (s0 s : State) : Prop :=
  pendingTimeouts s = []
  /\ detectorRef s = None
  /\ mediaStreamSubRef s = false
  /\ isMonitoring s = false
  /\ items (flags s) = []
  /\ detectCalls s = detectCalls s0
  /\ disposeCalls s = disposeCalls s0.

(** The edge timer is unset and no edge flag is published. *)
Definition edge_idle (s : State) : Prop :=
  edgeSinceRef s = None /\ ~ In face_near_frame_edge (flag_types s).

(** A lone face at the left edge, seen for three seconds. *)
Definition loneEdgeTicks : list Event :=
  [EvTick (tickAt 0 [edgeFace]); EvTick (tickAt 750 [edgeFace]);
   EvTick (tickAt 1500 [edgeFace]); EvTick (tickAt 2250 [edgeFace]);
   EvTick (tickAt 3000 [edgeFace])].

(** * The loop at its suspension points *)

(** [runDetection] is an async function with one [await], on the call of
    [detect] (line 405).  [step] takes a tick as a whole, with
    [teardownInFlight] for a cleanup that runs meanwhile.  Here the tick
    is split at the [await]: the states in which [detect] is pending are
    states of their own, any event can arrive in them, and a [detect]
    that never settles is a run without the settling event. *)

(** [runDetection] from the firing of its timeout to the [await] or to
    its first [return]: the state it leaves, and whether [detect] was
    called and is now awaited.  Of the tick input it reads [readyState]
    and [videoWidth], the properties tested at line 396. *)
Definition fire (i : TickInput) (s : State) : State * bool :=
  if isCancelled s || negb (isSome (detectorRef s)) then (s, false)
  else
    match videoRef s with
    | None => (s, false)
    | Some video =>
        if negb (isSome (srcObject video))
        then (scheduleNext (resetFlags s), false)
        else if (readyState i <? 2) || (videoWidth i =? 0)
        then (scheduleNext s, false)
        else (emit EffDetect s, true)
    end.

(** [runDetection] from the settlement of [detect] to its end: the rest
    of the [try] block, the [catch] block and the [setTimeout] after it,
    run on the state found at that moment.  Of the input it reads what
    [detect] settled with ([detectOutcome]), [Date.now()] of line 416
    ([now]) and the dimensions read at line 436. *)
Definition resume (i : TickInput) (s : State) : State :=
  match detectOutcome i with
  | DetectThrows err => catchBlock err s
  | DetectOk faces =>
      let e := evaluateFaces (orderedFaces faces) (now i)
                 (videoWidth i) (videoHeight i) s in
      match ev_thrown e with
      | Some err => catchBlock err (ev_state e)
      | None => scheduleNext (publish (nextFlags e) (now i) (ev_state e))
      end
  end.

(** The session between two of its steps: the state of the hook and the
    number of calls of [detect] that have not settled yet. *)
Record Loop : Type := mkLoop {
  hook : State;
  awaited : nat
}.

Inductive LoopEvent : Type :=
| LFire (i : TickInput)          (* the oldest pending timeout fires *)
| LSettle (i : TickInput)        (* an awaited [detect] settles *)
| LStream (stream : option nat)  (* the stream feed emits *)
| LCleanup                       (* the first effect is cleaned up *)
| LUnmount.                      (* the component unmounts *)

Definition loop_step (e : LoopEvent) (l : Loop) : Loop :=
  match e with
  | LFire i =>
      match pendingTimeouts (hook l) with
      | [] => l
      | _ :: rest =>
          let (s, called) := fire i (with_pendingTimeouts rest (hook l)) in
          mkLoop s (if called then S (awaited l) else awaited l)
      end
  | LSettle i =>
      match awaited l with
      | O => l
      | S n => mkLoop (resume i (hook l)) n
      end
  | LStream stream => mkLoop (step (EvStream stream) (hook l)) (awaited l)
  | LCleanup => mkLoop (step EvCleanup (hook l)) (awaited l)
  | LUnmount => mkLoop (step EvUnmount (hook l)) (awaited l)
  end.

Definition loop_run (evs : list LoopEvent) (l : Loop) : Loop :=
  fold_left (fun st e => loop_step e st) evs l.







(** * Properties *)

(** Simplification stops at the operations of the hook. *)
Arguments stopLoop : simpl never.
Arguments sessionCleanup : simpl never.
Arguments resetFlags : simpl never.
Arguments updateFlags : simpl never.
Arguments touchesEdge : simpl never.
Arguments orderedFaces : simpl never.
Arguments elapsed_at_least : simpl never.

Ltac break_match :=
  match goal with
  | |- context [match ?c with _ => _ end] => destruct c eqn:?
  end.

(** A field of an updated state, by rewriting: the equation is proved for
    a variable in place of the state, so the state itself, however large,
    is never unfolded. *)
Ltac field_of_update :=
  match goal with
  | |- context [?P (?U ?v ?X)] =>
      lazymatch type of X with State => idtac end;
      lazymatch type of (U v X) with State => idtac end;
      let body :=
        eval cbn [flags error isMonitoring detectorAvailable detectorSource
                  detectorRef videoRef detectionTimerRef mediaStreamSubRef
                  noFaceSinceRef edgeSinceRef isCancelled pendingTimeouts
                  nextHandle nextObject effects
                  with_flags with_error with_isMonitoring
                  with_detectorAvailable with_detectorSource with_detectorRef
                  with_videoRef with_detectionTimerRef with_mediaStreamSubRef
                  with_noFaceSinceRef with_edgeSinceRef with_isCancelled
                  with_pendingTimeouts with_nextHandle with_nextObject emit]
        in (fun s : State => P (U v s)) in
      lazymatch body with
      | (fun s => P (U v s)) => fail
      | _ => idtac
      end;
      let E := fresh "E" in
      assert (E : forall s : State, P (U v s) = body s)
        by (intro; reflexivity);
      rewrite (E X); clear E; cbv beta
  end.

Ltac fields := repeat field_of_update.

(** ** Flag types and the previous-flags map *)

Lemma type_eqb_eq (a b : MalpracticeFlagType) :
  type_eqb a b = true <-> a = b.
Proof. destruct a, b; simpl; split; intro H; congruence. Qed.

Lemma type_eq_dec (a b : MalpracticeFlagType) : {a = b} + {a <> b}.
Proof. decide equality. Qed.

Lemma type_eqb_refl (a : MalpracticeFlagType) : type_eqb a a = true.
Proof. destruct a; reflexivity. Qed.

Lemma type_eqb_neq (a b : MalpracticeFlagType) :
  type_eqb a b = false <-> a <> b.
Proof. destruct a, b; simpl; split; intro H; congruence. Qed.

Lemma includes_In (l : list MalpracticeFlagType) (t : MalpracticeFlagType) :
  includes l t = true <-> In t l.
Proof.
  unfold includes. rewrite existsb_exists. split.
  - intros [u [Hu E]]. apply type_eqb_eq in E. now subst.
  - intro H. exists t. split; [assumption | apply type_eqb_refl].
Qed.

Lemma every_from_shift (a : MalpracticeFlag) (prev : list MalpracticeFlag)
  (p : list MalpracticeFlagType) (i : nat) :
  every_from (type_at (a :: prev)) (S i) p = every_from (type_at prev) i p.
Proof.
  revert i. induction p as [|t p IH]; intro i; simpl.
  - reflexivity.
  - rewrite IH. reflexivity.
Qed.

Lemma same_types_spec (p : list MalpracticeFlagType)
  (prev : list MalpracticeFlag) :
  same_types p prev = true <-> p = map type prev.
Proof.
  unfold same_types, every. revert prev.
  induction p as [|t p IH]; intros [|f prev]; simpl.
  - tauto.
  - split; discriminate.
  - split; discriminate.
  - rewrite every_from_shift. unfold type_at at 1. simpl.
    specialize (IH prev). rewrite andb_true_iff in IH.
    rewrite !andb_true_iff, type_eqb_eq. split.
    + intros [Hl [Ht He]]. f_equal; [congruence | apply IH; tauto].
    + intro E. injection E as E1 E2.
      destruct IH as [_ IH]. specialize (IH E2). subst t. tauto.
Qed.

Lemma fold_map_set_Some (prev : list MalpracticeFlag) (m : TypeMap)
  (t : MalpracticeFlagType) (f : MalpracticeFlag) :
  fold_left (fun m flag => map_set m (type flag) flag) prev m t = Some f ->
  (In f prev /\ type f = t) \/ m t = Some f.
Proof.
  revert m. induction prev as [|a prev IH]; intros m H; simpl in *.
  - now right.
  - destruct (IH _ H) as [[Hin Ht] | Hm].
    + left. tauto.
    + unfold map_set in Hm. destruct (type_eqb t (type a)) eqn:E.
      * apply type_eqb_eq in E. injection Hm as ->. left. split; auto.
      * now right.
Qed.

Lemma fold_map_set_None (prev : list MalpracticeFlag) (m : TypeMap)
  (t : MalpracticeFlagType) :
  fold_left (fun m flag => map_set m (type flag) flag) prev m t = None <->
  (~ In t (map type prev) /\ m t = None).
Proof.
  revert m. induction prev as [|a prev IH]; intro m; simpl.
  - tauto.
  - rewrite IH. unfold map_set.
    destruct (type_eqb t (type a)) eqn:E.
    + apply type_eqb_eq in E. split; [intros [_ H]; discriminate | ].
      intros [H _]. exfalso. apply H. now left.
    + apply type_eqb_neq in E. split.
      * intros [H1 H2]. split; [ | assumption].
        intros [H | H]; [congruence | contradiction].
      * intros [H1 H2]. split; [ | assumption]. intro H. apply H1. now right.
Qed.

Lemma map_of_flags_Some (prev : list MalpracticeFlag)
  (t : MalpracticeFlagType) (f : MalpracticeFlag) :
  map_of_flags prev t = Some f -> In f prev /\ type f = t.
Proof.
  intro H. apply fold_map_set_Some in H.
  destruct H as [H | H]; [assumption | discriminate].
Qed.

Lemma map_of_flags_None (prev : list MalpracticeFlag)
  (t : MalpracticeFlagType) :
  map_of_flags prev t = None <-> ~ In t (map type prev).
Proof.
  unfold map_of_flags. rewrite fold_map_set_None. unfold map_empty. tauto.
Qed.

(** ** What [rebuild] returns *)

Lemma rebuild_types (m : TypeMap) (ts : Z) (tys : list MalpracticeFlagType)
  (n : nat) :
  (forall t f, m t = Some f -> type f = t) ->
  map type (fst (rebuild m ts tys n)) = tys.
Proof.
  intro Hm. revert n. induction tys as [|t tys IH]; intro n; simpl.
  - reflexivity.
  - destruct (m t) as [f|] eqn:E.
    + specialize (IH n). destruct (rebuild m ts tys n) as [fs n'].
      simpl in *. rewrite IH. f_equal. eauto.
    + specialize (IH (S n)). destruct (rebuild m ts tys (S n)) as [fs n'].
      simpl in *. now rewrite IH.
Qed.

Lemma rebuild_counter (m : TypeMap) (ts : Z) (tys : list MalpracticeFlagType)
  (n : nat) : (n <= snd (rebuild m ts tys n))%nat.
Proof.
  revert n. induction tys as [|t tys IH]; intro n; simpl.
  - lia.
  - destruct (m t) as [f|].
    + specialize (IH n). destruct (rebuild m ts tys n). simpl in *. lia.
    + specialize (IH (S n)). destruct (rebuild m ts tys (S n)).
      simpl in *. lia.
Qed.

Lemma rebuild_elements (m : TypeMap) (ts : Z)
  (tys : list MalpracticeFlagType) (n : nat) (f : MalpracticeFlag) :
  In f (fst (rebuild m ts tys n)) ->
  m (type f) = Some f \/
  (m (type f) = None /\ since f = ts /\ message f = FLAG_MESSAGES (type f)
   /\ (n <= flag_id f < snd (rebuild m ts tys n))%nat)
  \/ (exists t, m t = Some f).
Proof.
  revert n. induction tys as [|t tys IH]; intro n; simpl.
  - contradiction.
  - destruct (m t) as [g|] eqn:E.
    + specialize (IH n). destruct (rebuild m ts tys n) as [fs n'].
      simpl in *. intros [<- | H].
      * right. right. now exists t.
      * auto.
    + specialize (IH (S n)).
      pose proof (rebuild_counter m ts tys (S n)) as Hc.
      destruct (rebuild m ts tys (S n)) as [fs n'].
      simpl in *. intros [<- | H].
      * right. left. simpl. repeat split; auto; lia.
      * destruct (IH H) as [H1 | [H1 | H1]]; auto.
        right. left. intuition lia.
Qed.

(** ** The publish step *)

Lemma updateFlags_flags (types : list MalpracticeFlagType) (timestamp : Z)
  (s : State) :
  flags (updateFlags types timestamp s) =
  fst (updateFlags_updater types timestamp (flags s) (nextObject s)).
Proof.
  unfold updateFlags.
  destruct (updateFlags_updater types timestamp (flags s) (nextObject s)).
  reflexivity.
Qed.

Lemma updateFlags_types (types : list MalpracticeFlagType) (timestamp : Z)
  (s : State) :
  flag_types (updateFlags types timestamp s) = prioritize types.
Proof.
  unfold flag_types. rewrite updateFlags_flags. unfold updateFlags_updater.
  destruct (same_types (prioritize types) (items (flags s))) eqn:E.
  - apply same_types_spec in E. simpl. now rewrite E.
  - pose proof (rebuild_types (map_of_flags (items (flags s))) timestamp
                  (prioritize types) (S (nextObject s))) as H.
    destruct (rebuild (map_of_flags (items (flags s))) timestamp
                (prioritize types) (S (nextObject s))) as [fs n'].
    simpl in *. apply H. intros t f Hf.
    now apply map_of_flags_Some in Hf.
Qed.

(** Equal type lists: the updater returns the previous array. *)
Lemma updateFlags_same (types : list MalpracticeFlagType) (timestamp : Z)
  (s : State) :
  map type (items (flags s)) = prioritize types ->
  flags (updateFlags types timestamp s) = flags s.
Proof.
  intro E. rewrite updateFlags_flags. unfold updateFlags_updater.
  symmetry in E. apply same_types_spec in E. now rewrite E.
Qed.

(** Different type lists: where each flag of the new array comes from. *)
Lemma updateFlags_rebuilt (types : list MalpracticeFlagType) (timestamp : Z)
  (s : State) (f : MalpracticeFlag) :
  map type (items (flags s)) <> prioritize types ->
  In f (items (flags (updateFlags types timestamp s))) ->
  (In (type f) (map type (items (flags s))) -> In f (items (flags s)))
  /\ (~ In (type f) (map type (items (flags s))) ->
      since f = timestamp
      /\ message f = FLAG_MESSAGES (type f)
      /\ (nextObject s < flag_id f
          < nextObject (updateFlags types timestamp s))%nat).
Proof.
  intros NE Hf.
  assert (Hs : same_types (prioritize types) (items (flags s)) = false).
  { destruct (same_types (prioritize types) (items (flags s))) eqn:E;
      [ | reflexivity].
    apply same_types_spec in E. congruence. }
  unfold updateFlags in *. unfold updateFlags_updater in *.
  rewrite Hs in *.
  pose proof (rebuild_elements (map_of_flags (items (flags s))) timestamp
                (prioritize types) (S (nextObject s)) f) as H.
  destruct (rebuild (map_of_flags (items (flags s))) timestamp
              (prioritize types) (S (nextObject s))) as [fs n'].
  simpl in *. specialize (H Hf). split.
  - intro Hact. destruct H as [H | [H | [t H]]].
    + now apply map_of_flags_Some in H.
    + destruct H as [H _]. apply map_of_flags_None in H. contradiction.
    + now apply map_of_flags_Some in H.
  - intro Hnew. destruct H as [H | [H | [t H]]].
    + apply map_of_flags_Some in H. destruct H as [H _].
      exfalso. apply Hnew. now apply in_map.
    + destruct H as [_ [H1 [H2 H3]]]. repeat split; auto; lia.
    + apply map_of_flags_Some in H. destruct H as [H _].
      exfalso. apply Hnew. now apply in_map.
Qed.

(** C3.  The publish step of [updateFlags].  When the prioritised type
    list is the list of types already published (same members, same
    order), the stored array is the previous array itself, so every flag
    object and its [since] is retained.  Otherwise the stored array holds
    the prioritised types in order, and each of its flags is either a flag
    object of the previous array (when its type was active) or an object
    allocated in this step, with the cycle's timestamp as [since] and the
    message of its type (when its type was not active). *)
Theorem updateFlags_publish (types : list MalpracticeFlagType)
  (timestamp : Z) (s : State) :
  (map type (items (flags s)) = prioritize types ->
   flags (updateFlags types timestamp s) = flags s)
  /\
  (map type (items (flags s)) <> prioritize types ->
   map type (items (flags (updateFlags types timestamp s))) = prioritize types
   /\ forall f, In f (items (flags (updateFlags types timestamp s))) ->
        (In (type f) (map type (items (flags s))) -> In f (items (flags s)))
        /\ (~ In (type f) (map type (items (flags s))) ->
            since f = timestamp
            /\ message f = FLAG_MESSAGES (type f)
            /\ (nextObject s < flag_id f
                < nextObject (updateFlags types timestamp s))%nat)).
Proof.
  split.
  - apply updateFlags_same.
  - intro NE. split.
    + apply (updateFlags_types types timestamp s).
    + intros f Hf. now apply updateFlags_rebuilt.
Qed.

(** The published types are always the prioritised candidates. *)
Lemma publish_types (next : list MalpracticeFlagType) (t : Z) (s : State) :
  flag_types (publish next t s) = prioritize next.
Proof.
  destruct next as [|a next]; simpl.
  - unfold flag_types, resetFlags, resetFlags_updater.
    destruct (Nat.eqb (List.length (items (flags s))) 0) eqn:E; simpl.
    + apply Nat.eqb_eq in E. apply length_zero_iff_nil in E. now rewrite E.
    + reflexivity.
  - apply updateFlags_types.
Qed.

(** ** Reset *)

Lemma resetFlags_items (s : State) : items (flags (resetFlags s)) = [].
Proof.
  unfold resetFlags, resetFlags_updater.
  destruct (Nat.eqb (List.length (items (flags s))) 0) eqn:E; simpl.
  - apply Nat.eqb_eq in E. now apply length_zero_iff_nil in E.
  - reflexivity.
Qed.

Lemma resetFlags_timers (s : State) :
  noFaceSinceRef (resetFlags s) = None /\ edgeSinceRef (resetFlags s) = None.
Proof.
  unfold resetFlags. destruct (resetFlags_updater (flags s) (nextObject s)).
  split; reflexivity.
Qed.

(** C10.  Resetting is idempotent on the published state.  On an already
    empty list the stored array stays the same array (no notification to
    the consumers of [flags]); both timers are cleared in every case; and a
    second reset changes nothing at all. *)
Theorem resetFlags_idempotent (s : State) :
  (items (flags s) = [] ->
   flags (resetFlags s) = flags s /\ ~ flags_notified s (resetFlags s))
  /\ noFaceSinceRef (resetFlags s) = None
  /\ edgeSinceRef (resetFlags s) = None
  /\ resetFlags (resetFlags s) = resetFlags s.
Proof.
  split; [ | split; [ | split]].
  - intro E. unfold flags_notified, resetFlags, resetFlags_updater.
    rewrite E. simpl. split; [reflexivity | intro H; now apply H].
  - apply resetFlags_timers.
  - apply resetFlags_timers.
  - unfold resetFlags at 1. unfold resetFlags_updater.
    rewrite resetFlags_items. simpl.
    unfold resetFlags, resetFlags_updater.
    destruct (Nat.eqb (List.length (items (flags s))) 0); reflexivity.
Qed.

Lemma updateFlags_publish_witness :
  flags (updateFlags [multiple_faces_detected] 500 publishedMultiple)
  = flags publishedMultiple
  /\ map type
       (items (flags (updateFlags
                        [face_near_frame_edge; multiple_faces_detected] 500
                        publishedMultiple)))
     = [multiple_faces_detected; face_near_frame_edge].
Proof.
  split.
  - apply (proj1 (updateFlags_publish [multiple_faces_detected] 500
                    publishedMultiple)).
    reflexivity.
  - apply (proj2 (updateFlags_publish
                    [face_near_frame_edge; multiple_faces_detected] 500
                    publishedMultiple)).
    vm_compute. discriminate.
Defined.

Lemma resetFlags_idempotent_witness :
  flags (resetFlags mounted) = flags mounted
  /\ ~ flags_notified mounted (resetFlags mounted).
Proof.
  apply (proj1 (resetFlags_idempotent mounted)). reflexivity.
Defined.

(** ** The guards of [runDetection] *)

Lemma runDetection_unbound (i : TickInput) (s : State) :
  live s -> unbound s -> runDetection i s = scheduleNext (resetFlags s).
Proof.
  intros [Hc Hd] [video [Hv Hsrc]]. unfold runDetection.
  rewrite Hc, Hv, Hsrc. destruct (detectorRef s); [reflexivity | congruence].
Qed.

Lemma runDetection_not_ready (i : TickInput) (s : State) :
  live s -> bound s -> readyState i < 2 \/ videoWidth i = 0 ->
  runDetection i s = scheduleNext s.
Proof.
  intros [Hc Hd] [video [stream [Hv Hsrc]]] Hr. unfold runDetection.
  rewrite Hc, Hv, Hsrc. destruct (detectorRef s); [ | congruence]. simpl.
  assert (E : (readyState i <? 2) || (videoWidth i =? 0) = true).
  { apply orb_true_iff. destruct Hr as [H | H].
    - left. now apply Z.ltb_lt.
    - right. now apply Z.eqb_eq. }
  now rewrite E.
Qed.

Lemma runDetection_detects (i : TickInput) (s : State) :
  live s -> bound s -> frame_ready i -> runDetection i s = tryDetect i s.
Proof.
  intros [Hc Hd] [video [stream [Hv Hsrc]]] [Hr Hw]. unfold runDetection.
  rewrite Hc, Hv, Hsrc. destruct (detectorRef s); [ | congruence]. simpl.
  assert (E : (readyState i <? 2) || (videoWidth i =? 0) = false).
  { apply orb_false_iff. split.
    - apply Z.ltb_ge. lia.
    - now apply Z.eqb_neq. }
  now rewrite E.
Qed.

(** ** Teardown *)

Lemma stopLoop_fields (s : State) :
  flags (stopLoop s) = flags s
  /\ error (stopLoop s) = error s
  /\ isMonitoring (stopLoop s) = isMonitoring s
  /\ detectorAvailable (stopLoop s) = detectorAvailable s
  /\ detectorSource (stopLoop s) = detectorSource s
  /\ isCancelled (stopLoop s) = isCancelled s
  /\ nextObject (stopLoop s) = nextObject s
  /\ nextHandle (stopLoop s) = nextHandle s.
Proof.
  destruct s.
  unfold stopLoop, unsubscribeFeed, releaseVideo, disposeAdapter,
    clearDetectionTimer.
  simpl. repeat break_match; simpl; repeat split; reflexivity.
Qed.

Lemma stopLoop_released (s : State) :
  detectorRef (stopLoop s) = None
  /\ videoRef (stopLoop s) = None
  /\ mediaStreamSubRef (stopLoop s) = false
  /\ noFaceSinceRef (stopLoop s) = None
  /\ edgeSinceRef (stopLoop s) = None.
Proof.
  destruct s.
  unfold stopLoop, unsubscribeFeed, releaseVideo, disposeAdapter,
    clearDetectionTimer.
  simpl. repeat break_match; simpl in *; repeat split; congruence.
Qed.

(** What the cleanup of the effect leaves behind. *)
Lemma sessionCleanup_cleared (s : State) :
  items (flags (sessionCleanup s)) = []
  /\ noFaceSinceRef (sessionCleanup s) = None
  /\ edgeSinceRef (sessionCleanup s) = None
  /\ isCancelled (sessionCleanup s) = true
  /\ videoRef (sessionCleanup s) = None
  /\ detectorRef (sessionCleanup s) = None.
Proof.
  unfold sessionCleanup.
  set (t := stopLoop (with_isCancelled true s)).
  pose proof (stopLoop_fields (with_isCancelled true s)) as Hf.
  pose proof (stopLoop_released (with_isCancelled true s)) as Hr.
  fold t in Hf, Hr.
  pose proof (resetFlags_items t) as Hi.
  unfold resetFlags in *.
  destruct (resetFlags_updater (flags t) (nextObject t)) as [a n].
  simpl in *. intuition.
Qed.

(** ** The evaluation of one snapshot *)

Lemma evaluateFaces_thrown (o : list DetectionResult) (t w h : Z) (s : State)
  (err : Thrown) :
  ev_thrown (evaluateFaces o t w h s) = Some err ->
  videoRef s = None /\ o <> []
  /\ ev_state (evaluateFaces o t w h s) = with_noFaceSinceRef None s.
Proof.
  unfold evaluateFaces. destruct o as [|primary rest].
  - simpl. discriminate.
  - change (videoRef (with_noFaceSinceRef None s)) with (videoRef s).
    destruct (videoRef s) as [v|].
    + repeat break_match; simpl; discriminate.
    + simpl. intros _. repeat split. discriminate.
Qed.

Lemma afterAwait_cases (i : TickInput) (s : State) :
  (teardownInFlight i = false /\ afterAwait i s = emit EffDetect s)
  \/ (teardownInFlight i = true
      /\ afterAwait i s = sessionCleanup (emit EffDetect s)).
Proof.
  unfold afterAwait. destruct (teardownInFlight i); auto.
Qed.

Lemma catchBlock_live (err : Thrown) (s : State) :
  isCancelled s = false ->
  let s' := catchBlock err s in
  items (flags s') = []
  /\ noFaceSinceRef s' = None /\ edgeSinceRef s' = None
  /\ error s' = Some (error_message err)
  /\ isMonitoring s' = false
  /\ detectorAvailable s' = false
  /\ detectorSource s' = None
  /\ detectorRef s' = None
  /\ videoRef s' = None
  /\ mediaStreamSubRef s' = false
  /\ nextHandle s' = nextHandle s
  /\ isCancelled s' = false.
Proof.
  intro Hc. unfold catchBlock. rewrite Hc.
  set (t := with_isMonitoring false
              (with_error (Some (error_message err)) (emit EffLogError s))).
  pose proof (stopLoop_fields t) as Hf.
  pose proof (stopLoop_released t) as Hr.
  set (u := with_detectorSource None
              (with_detectorAvailable false (stopLoop t))).
  pose proof (resetFlags_items u) as Hi.
  pose proof (resetFlags_timers u) as Ht.
  cbv zeta. unfold resetFlags in *.
  destruct (resetFlags_updater (flags u) (nextObject u)) as [a n].
  simpl in *. intuition congruence.
Qed.

Lemma cleared_reset (s : State) : cleared (resetFlags s).
Proof.
  unfold cleared. pose proof (resetFlags_items s) as H.
  pose proof (resetFlags_timers s) as [H1 H2]. auto.
Qed.

Lemma cleared_scheduleNext (s : State) :
  cleared s -> cleared (scheduleNext s).
Proof. intro H. exact H. Qed.

Lemma cleared_catch_live (err : Thrown) (s : State) :
  isCancelled s = false -> cleared (catchBlock err s).
Proof.
  intro Hc. pose proof (catchBlock_live err s Hc) as H. cbv zeta in H.
  destruct H as (H1 & H2 & H3 & _). unfold cleared. auto.
Qed.

Lemma tryDetect_ok (i : TickInput) (faces : list DetectionResult)
  (s : State) :
  detectOutcome i = DetectOk faces ->
  tryDetect i s
  = match ev_thrown (tickEvaluation i faces s) with
    | Some err => catchBlock err (ev_state (tickEvaluation i faces s))
    | None =>
        scheduleNext
          (publish (nextFlags (tickEvaluation i faces s)) (now i)
             (ev_state (tickEvaluation i faces s)))
    end.
Proof. intro H. unfold tryDetect. rewrite H. reflexivity. Qed.

Lemma tryDetect_throws (i : TickInput) (err : Thrown) (s : State) :
  detectOutcome i = DetectThrows err ->
  tryDetect i s = catchBlock err (afterAwait i s).
Proof. intro H. unfold tryDetect. rewrite H. reflexivity. Qed.

Lemma catchBlock_cancelled (err : Thrown) (s : State) :
  isCancelled s = true -> catchBlock err s = scheduleNext s.
Proof. intro H. unfold catchBlock. now rewrite H. Qed.

(** An exception inside the rules means that the video element was
    released while [detect] was pending, which only the cleanup does. *)
Lemma tickEvaluation_thrown (i : TickInput) (faces : list DetectionResult)
  (s : State) (err : Thrown) :
  bound s ->
  ev_thrown (tickEvaluation i faces s) = Some err ->
  cleared (ev_state (tickEvaluation i faces s))
  /\ isCancelled (ev_state (tickEvaluation i faces s)) = true.
Proof.
  intros (v & m & Hv & _) Et. unfold tickEvaluation in Et |- *.
  apply evaluateFaces_thrown in Et. destruct Et as (Hnone & _ & Hs).
  rewrite Hs.
  destruct (afterAwait_cases i s) as [[_ E] | [_ E]]; rewrite E in Hnone |- *.
  - change (videoRef s = None) in Hnone. congruence.
  - pose proof (sessionCleanup_cleared (emit EffDetect s))
      as (H1 & H2 & H3 & H4 & _).
    unfold cleared. fields. repeat split; assumption.
Qed.

(** C4.  A tick that finds no stream bound to the video element, and a
    detection cycle whose rules yield no candidate, both end with an empty
    published list and with both condition timers unset. *)
Theorem reset_when_nothing_to_report (i : TickInput) (s : State) :
  (live s -> unbound s -> cleared (runDetection i s))
  /\
  (forall faces,
     live s -> bound s -> frame_ready i ->
     detectOutcome i = DetectOk faces ->
     nextFlags (tickEvaluation i faces s) = [] ->
     cleared (runDetection i s)).
Proof.
  split.
  - intros Hl Hu. rewrite (runDetection_unbound i s Hl Hu).
    apply cleared_scheduleNext, cleared_reset.
  - intros faces Hl Hb Hr Hout Hnext.
    rewrite (runDetection_detects i s Hl Hb Hr).
    rewrite (tryDetect_ok i faces s Hout).
    destruct (ev_thrown (tickEvaluation i faces s)) as [err|] eqn:Et.
    + destruct (tickEvaluation_thrown i faces s err Hb Et) as [Hcl Hc].
      rewrite (catchBlock_cancelled err _ Hc).
      now apply cleared_scheduleNext.
    + rewrite Hnext. apply cleared_scheduleNext.
      apply (cleared_reset (ev_state (tickEvaluation i faces s))).
Qed.

(** ** Ordering by area *)

Lemma compareFaces_le (a b : DetectionResult) :
  Qle_bool (compareFaces a b) 0 = true <-> area_ge a b.
Proof.
  rewrite Qle_bool_iff. unfold compareFaces, area_ge. split; intro H; lra.
Qed.

Lemma compareFaces_gt (a b : DetectionResult) :
  Qle_bool (compareFaces a b) 0 = false -> (area a < area b)%Q.
Proof.
  intro H. destruct (Qlt_le_dec (area a) (area b)) as [L | L];
    [assumption | ].
  apply compareFaces_le in L. congruence.
Qed.

Lemma insert_sorted_perm (a : DetectionResult) (l : list DetectionResult) :
  Permutation (insert_sorted compareFaces a l) (a :: l).
Proof.
  induction l as [|b r IH]; simpl.
  - apply Permutation_refl.
  - destruct (Qle_bool (compareFaces a b) 0).
    + apply Permutation_refl.
    + apply Permutation_trans with (b :: a :: r).
      * now apply perm_skip.
      * apply perm_swap.
Qed.

Lemma sort_perm (l : list DetectionResult) :
  Permutation (sort compareFaces l) l.
Proof.
  induction l as [|a r IH]; simpl.
  - apply perm_nil.
  - apply Permutation_trans with (a :: sort compareFaces r).
    + apply insert_sorted_perm.
    + now apply perm_skip.
Qed.

Lemma insert_sorted_sorted (a : DetectionResult)
  (l : list DetectionResult) :
  StronglySorted area_ge l ->
  StronglySorted area_ge (insert_sorted compareFaces a l).
Proof.
  induction l as [|b r IH]; intro Hs; simpl.
  - constructor; constructor.
  - inversion Hs as [|b' r' Hr Hb]; subst.
    destruct (Qle_bool (compareFaces a b) 0) eqn:E.
    + apply compareFaces_le in E. constructor; [assumption | ].
      constructor; [assumption | ].
      rewrite Forall_forall in *. intros c Hc. specialize (Hb c Hc).
      unfold area_ge in *. lra.
    + apply compareFaces_gt in E. constructor; [now apply IH | ].
      rewrite Forall_forall in *. intros c Hc.
      apply (Permutation_in c (insert_sorted_perm a r)) in Hc.
      destruct Hc as [<- | Hc].
      * unfold area_ge. lra.
      * now apply Hb.
Qed.

Lemma sort_sorted (l : list DetectionResult) :
  StronglySorted area_ge (sort compareFaces l).
Proof.
  induction l as [|a r IH]; simpl.
  - constructor.
  - now apply insert_sorted_sorted.
Qed.

Lemma insert_sorted_stable (v : Q) (a : DetectionResult)
  (l : list DetectionResult) :
  filter (of_area v) (insert_sorted compareFaces a l)
  = filter (of_area v) (a :: l).
Proof.
  induction l as [|b r IH]; simpl.
  - reflexivity.
  - destruct (Qle_bool (compareFaces a b) 0) eqn:E.
    + reflexivity.
    + apply compareFaces_gt in E. simpl. rewrite IH. simpl.
      destruct (of_area v a) eqn:Ea; destruct (of_area v b) eqn:Eb;
        try reflexivity.
      unfold of_area in *. apply Qeq_bool_iff in Ea, Eb. lra.
Qed.

Lemma sort_stable (v : Q) (l : list DetectionResult) :
  filter (of_area v) (sort compareFaces l) = filter (of_area v) l.
Proof.
  induction l as [|a r IH]; simpl.
  - reflexivity.
  - rewrite insert_sorted_stable. simpl. now rewrite IH.
Qed.

Lemma snapshot_ordered_by_area_aux (faces : list DetectionResult) :
  Permutation (orderedFaces faces) faces
  /\ StronglySorted area_ge (orderedFaces faces).
Proof.
  unfold orderedFaces. destruct (Nat.ltb 1 (List.length faces)) eqn:E.
  - split; [apply sort_perm | apply sort_sorted].
  - split; [apply Permutation_refl | ].
    destruct faces as [|a [|b r]].
    + constructor.
    + constructor; constructor.
    + simpl in E. discriminate.
Qed.

(** C5.  The snapshot the flag rules are evaluated on is the adapter's
    answer ordered by decreasing area of the bounding box: it has the same
    detections, no detection is followed by a larger one, and detections of
    equal area stay in the adapter's order.  For the boxes of area 500 and
    900 the snapshot is the second followed by the first. *)
Theorem snapshot_ordered_by_area (faces : list DetectionResult) :
  Permutation (orderedFaces faces) faces
  /\ StronglySorted area_ge (orderedFaces faces)
  /\ (forall v, filter (of_area v) (orderedFaces faces)
                = filter (of_area v) faces)
  /\ (forall r w h td t s,
        tryDetect (mkTick r w h (DetectOk faces) td t) s
        = let i := mkTick r w h (DetectOk faces) td t in
          let e := evaluateFaces (orderedFaces faces) t w h (afterAwait i s) in
          match ev_thrown e with
          | Some err => catchBlock err (ev_state e)
          | None => scheduleNext (publish (nextFlags e) t (ev_state e))
          end)
  /\ orderedFaces [boxA; boxB] = [boxB; boxA].
Proof.
  split; [ | split; [ | split; [ | split]]].
  - apply snapshot_ordered_by_area_aux.
  - apply snapshot_ordered_by_area_aux.
  - intro v. unfold orderedFaces.
    destruct (Nat.ltb 1 (List.length faces)).
    + apply sort_stable.
    + reflexivity.
  - reflexivity.
  - reflexivity.
Qed.

(** ** Resolving with a native detector *)

(** C7.  When the native face detector is present, [resolveDetector]
    answers at once with an adapter of source [native] and leaves the
    module runtime as it was: the memo is not touched, no initialisation is
    started and no module is imported. *)
Theorem resolveDetector_native (window : option Window) (rt : TfRuntime) :
  nativeDetectorSupported window = true ->
  exists adapter,
    resolveDetector window rt = (Settled (Resolved adapter), rt)
    /\ source adapter = native
    /\ initsStarted (snd (resolveDetector window rt)) = initsStarted rt
    /\ initEvents (snd (resolveDetector window rt)) = initEvents rt
    /\ tfModulesPromise (snd (resolveDetector window rt))
       = tfModulesPromise rt.
Proof.
  intro H. unfold resolveDetector. rewrite H.
  destruct window as [[[[ | | ]|]]|]; simpl in H; try discriminate.
  exists (mkAdapter native false). simpl. repeat split.
Qed.

Lemma resolveDetector_native_witness :
  exists adapter,
    resolveDetector (Some (mkWindow (Some VFunction))) runtime0
    = (Settled (Resolved adapter), runtime0)
    /\ source adapter = native
    /\ initsStarted
         (snd (resolveDetector (Some (mkWindow (Some VFunction))) runtime0))
       = initsStarted runtime0
    /\ initEvents
         (snd (resolveDetector (Some (mkWindow (Some VFunction))) runtime0))
       = initEvents runtime0
    /\ tfModulesPromise
         (snd (resolveDetector (Some (mkWindow (Some VFunction))) runtime0))
       = tfModulesPromise runtime0.
Proof.
  apply (resolveDetector_native (Some (mkWindow (Some VFunction))) runtime0).
  reflexivity.
Defined.

(** ** The memoised modules promise *)

Lemma promise_state_app_fresh (ps : list (nat * PromiseState)) (p : nat)
  (st : PromiseState) :
  ~ In p (map fst ps) ->
  promise_state (ps ++ [(p, st)]) p = Some st.
Proof.
  induction ps as [|[q s] r IH]; simpl; intro H.
  - now rewrite Nat.eqb_refl.
  - destruct (Nat.eqb q p) eqn:E.
    + apply Nat.eqb_eq in E. exfalso. apply H. now left.
    + apply IH. intro Hin. apply H. now right.
Qed.

Lemma promise_state_app_old (ps : list (nat * PromiseState)) (p q : nat)
  (st : PromiseState) :
  q <> p -> promise_state (ps ++ [(p, st)]) q = promise_state ps q.
Proof.
  intro H. induction ps as [|[q' s] r IH]; simpl.
  - destruct (Nat.eqb p q) eqn:E; [ | reflexivity].
    apply Nat.eqb_eq in E. congruence.
  - now rewrite IH.
Qed.

Lemma promise_state_key (ps : list (nat * PromiseState)) (p : nat)
  (st : PromiseState) :
  promise_state ps p = Some st -> In p (map fst ps).
Proof.
  induction ps as [|[q s] r IH]; simpl; [discriminate | ].
  destruct (Nat.eqb q p) eqn:E.
  - apply Nat.eqb_eq in E. now left.
  - intro H. right. now apply IH.
Qed.

Lemma set_promise_keys (ps : list (nat * PromiseState)) (p : nat)
  (v : PromiseState) :
  map fst (set_promise ps p v) = map fst ps.
Proof.
  induction ps as [|[q s] r IH]; simpl; [reflexivity | ].
  destruct (Nat.eqb q p); simpl; [reflexivity | now rewrite IH].
Qed.

Lemma set_promise_length (ps : list (nat * PromiseState)) (p : nat)
  (v : PromiseState) :
  List.length (set_promise ps p v) = List.length ps.
Proof.
  rewrite <- (length_map fst (set_promise ps p v)), set_promise_keys.
  apply length_map.
Qed.

Lemma promise_state_set (ps : list (nat * PromiseState)) (p q : nat)
  (v : PromiseState) :
  promise_state (set_promise ps p v) q
  = if Nat.eqb q p
    then match promise_state ps p with Some _ => Some v | None => None end
    else promise_state ps q.
Proof.
  induction ps as [|[q' s] r IH]; simpl.
  - now destruct (Nat.eqb q p).
  - destruct (Nat.eqb q' p) eqn:E; simpl.
    + apply Nat.eqb_eq in E. subst q'.
      destruct (Nat.eqb q p) eqn:E2.
      * apply Nat.eqb_eq in E2. subst q. now rewrite Nat.eqb_refl.
      * rewrite Nat.eqb_sym, E2. reflexivity.
    + destruct (Nat.eqb q' q) eqn:E2.
      * apply Nat.eqb_eq in E2. subst q'. now rewrite E.
      * apply IH.
Qed.

Lemma set_promise_failed (ps : list (nat * PromiseState)) (p : nat)
  (old v : PromiseState) :
  promise_state ps p = Some old -> is_rejected (p, old) = false ->
  List.length (filter is_rejected (set_promise ps p v))
  = (List.length (filter is_rejected ps)
     + if is_rejected (p, v) then 1 else 0)%nat.
Proof.
  induction ps as [|[q s] r IH]; simpl; [discriminate | ].
  destruct (Nat.eqb q p) eqn:E; intros H Hr.
  - injection H as ->. unfold is_rejected in *. simpl in *. rewrite Hr.
    destruct v; simpl; lia.
  - simpl. specialize (IH H Hr).
    destruct (is_rejected (q, s)); simpl; lia.
Qed.

Lemma rt_inv_runtime0 : rt_inv runtime0.
Proof.
  unfold rt_inv, runtime0, failedInits, memoHeld. simpl.
  repeat split; try discriminate.
Qed.

Lemma ensureTfModules_held (rt : TfRuntime) (p : nat) :
  tfModulesPromise rt = Some p -> ensureTfModules rt = (p, rt).
Proof. intro H. unfold ensureTfModules. now rewrite H. Qed.

Lemma ensureTfModules_empty (rt : TfRuntime) :
  tfModulesPromise rt = None ->
  ensureTfModules rt
  = (List.length (promises rt),
     mkRuntime (Some (List.length (promises rt)))
       (promises rt ++ [(List.length (promises rt), Pending)])
       (S (initsStarted rt)) (initEvents rt)).
Proof. intro H. unfold ensureTfModules. now rewrite H. Qed.

Lemma rt_inv_call (rt : TfRuntime) :
  rt_inv rt -> rt_inv (snd (ensureTfModules rt)).
Proof.
  intros (Hk & Hc & Hlive & Hmemo).
  destruct (tfModulesPromise rt) as [p|] eqn:Em.
  - rewrite (ensureTfModules_held rt p Em). simpl.
    unfold rt_inv. rewrite Em. auto.
  - rewrite (ensureTfModules_empty rt Em). simpl.
    assert (Hfresh : ~ In (List.length (promises rt))
                         (map fst (promises rt))).
    { rewrite Hk, in_seq. lia. }
    unfold rt_inv, failedInits, memoHeld in *. rewrite Em in *. simpl.
    repeat split.
    + rewrite map_app, length_app, Hk. simpl.
      rewrite Nat.add_1_r, seq_S. reflexivity.
    + rewrite filter_app, length_app. simpl. lia.
    + intros q st Hq Hst.
      destruct (Nat.eq_dec q (List.length (promises rt))) as [-> | Hne];
        [reflexivity | ].
      rewrite promise_state_app_old in Hq by assumption.
      specialize (Hlive q st Hq Hst). discriminate.
    + intros p Hp. injection Hp as <-. exists Pending. split.
      * now apply promise_state_app_fresh.
      * discriminate.
Qed.

Lemma rt_inv_settle (env : TfEnv) (p : nat) (rt : TfRuntime) :
  rt_inv rt -> rt_inv (settle env p rt).
Proof.
  intros (Hk & Hc & Hlive & Hmemo). unfold settle.
  destruct (promise_state (promises rt) p) as [[ | b | ]|] eqn:Ep;
    try (unfold rt_inv; auto; fail).
  assert (Em : tfModulesPromise rt = Some p).
  { apply (Hlive p Pending Ep). discriminate. }
  destruct (loadTfModules env) as [evs [b|]].
  - unfold rt_inv, failedInits, memoHeld in *. simpl. rewrite Em in *.
    repeat split.
    + now rewrite set_promise_keys, set_promise_length.
    + rewrite (set_promise_failed _ _ Pending) by (assumption || reflexivity).
      simpl. lia.
    + intros q st Hq Hst. rewrite promise_state_set in Hq.
      destruct (Nat.eqb q p) eqn:E.
      * apply Nat.eqb_eq in E. now subst.
      * now apply (Hlive q st).
    + intros p' Hp'. injection Hp' as <-. exists (Fulfilled b).
      rewrite promise_state_set, Nat.eqb_refl, Ep. split; [reflexivity | ].
      discriminate.
  - unfold rt_inv, failedInits, memoHeld in *. simpl. rewrite Em in *.
    repeat split.
    + now rewrite set_promise_keys, set_promise_length.
    + rewrite (set_promise_failed _ _ Pending) by (assumption || reflexivity).
      simpl. lia.
    + intros q st Hq Hst. rewrite promise_state_set in Hq.
      destruct (Nat.eqb q p) eqn:E.
      * rewrite Ep in Hq. injection Hq as <-. congruence.
      * specialize (Hlive q st Hq Hst). injection Hlive as <-.
        now rewrite Nat.eqb_refl in E.
    + discriminate.
Qed.

Lemma rt_inv_run (evs : list RtEvent) (rt : TfRuntime) :
  rt_inv rt -> rt_inv (rt_run evs rt).
Proof.
  revert rt. induction evs as [|e evs IH]; intros rt H; simpl.
  - assumption.
  - apply IH. destruct e; simpl.
    + now apply rt_inv_call.
    + now apply rt_inv_settle.
Qed.

Lemma concurrentCalls_same (n : nat) (rt : TfRuntime) (p : nat) :
  tfModulesPromise rt = Some p ->
  concurrentCalls n rt = (repeat p n, rt).
Proof.
  intro H. induction n as [|n IH]; simpl.
  - reflexivity.
  - now rewrite (ensureTfModules_held rt p H), IH.
Qed.

(** The backend chosen by the loop is the first candidate that goes
    through. *)
Lemma tryBackends_first (env : TfEnv) (candidates : list Backend) :
  snd (tryBackends env candidates) = find (backend_ok env) candidates.
Proof.
  induction candidates as [|c r IH]; simpl.
  - reflexivity.
  - unfold backend_ok at 1.
    destruct (setBackend_ok env c); simpl.
    + destruct (ready_ok env c); simpl; [reflexivity | ].
      destruct (tryBackends env r). simpl in *. assumption.
    + destruct (tryBackends env r). simpl in *. assumption.
Qed.

(** A later candidate is touched only after every earlier one failed. *)
Lemma tryBackends_cpu_after_webgl (env : TfEnv) :
  In (SetBackend cpu) (fst (tryBackends env candidateBackends)) <->
  backend_ok env webgl = false.
Proof.
  unfold candidateBackends, backend_ok. simpl.
  destruct (setBackend_ok env webgl), (ready_ok env webgl),
    (setBackend_ok env cpu), (ready_ok env cpu); simpl;
    split; intro H; try reflexivity; try discriminate;
    try (repeat destruct H as [H | H]; try discriminate; contradiction);
    tauto.
Qed.

(** C8.  The memo of [ensureTfModules], in every state the runtime can
    reach through calls and completions in any order.
    (1) Every initialisation ever started has failed, except the one whose
    promise the memo holds: initialisation is not started twice unless the
    earlier one failed.
    (2) Any number of calls with nothing settling in between hand out one
    and the same promise, and leave exactly one initialisation that has not
    failed.
    (3) When the pending initialisation fails, the memo is emptied and the
    next call starts a new initialisation with a new pending promise.
    (4) When it succeeds, the memo keeps the fulfilled promise and a later
    call returns it without starting anything.
    (5) The backend is the first of webgl, cpu on which [setBackend] and
    [ready] go through; cpu is tried only after webgl failed; when neither
    goes through the initialisation fails. *)
Theorem tfModules_memo (evs : list RtEvent) :
  initsStarted (rt_run evs runtime0)
  = (failedInits (rt_run evs runtime0) + memoHeld (rt_run evs runtime0))%nat
  /\
  (forall n, exists p,
     fst (concurrentCalls (S n) (rt_run evs runtime0)) = repeat p (S n)
     /\ tfModulesPromise (snd (concurrentCalls (S n) (rt_run evs runtime0)))
        = Some p
     /\ initsStarted (snd (concurrentCalls (S n) (rt_run evs runtime0)))
        = (failedInits (rt_run evs runtime0) + 1)%nat)
  /\
  (forall env p,
     tfModulesPromise (rt_run evs runtime0) = Some p ->
     promise_state (promises (rt_run evs runtime0)) p = Some Pending ->
     snd (loadTfModules env) = None ->
     tfModulesPromise (settle env p (rt_run evs runtime0)) = None
     /\ fst (ensureTfModules (settle env p (rt_run evs runtime0))) <> p
     /\ initsStarted
          (snd (ensureTfModules (settle env p (rt_run evs runtime0))))
        = S (initsStarted (rt_run evs runtime0))
     /\ promise_state
          (promises
             (snd (ensureTfModules (settle env p (rt_run evs runtime0)))))
          (fst (ensureTfModules (settle env p (rt_run evs runtime0))))
        = Some Pending)
  /\
  (forall env p b,
     tfModulesPromise (rt_run evs runtime0) = Some p ->
     promise_state (promises (rt_run evs runtime0)) p = Some Pending ->
     snd (loadTfModules env) = Some b ->
     ensureTfModules (settle env p (rt_run evs runtime0))
     = (p, settle env p (rt_run evs runtime0))
     /\ promise_state (promises (settle env p (rt_run evs runtime0))) p
        = Some (Fulfilled b)
     /\ initsStarted (settle env p (rt_run evs runtime0))
        = initsStarted (rt_run evs runtime0))
  /\
  (forall env,
     snd (tryBackends env candidateBackends)
     = (if backend_ok env webgl then Some webgl
        else if backend_ok env cpu then Some cpu else None)
     /\ (In (SetBackend cpu) (fst (tryBackends env candidateBackends)) <->
         backend_ok env webgl = false)
     /\ (backend_ok env webgl = false -> backend_ok env cpu = false ->
         snd (loadTfModules env) = None)
     /\ (forall b, snd (loadTfModules env) = Some b ->
                   snd (tryBackends env candidateBackends) = Some b)).
Proof.
  pose proof (rt_inv_run evs runtime0 rt_inv_runtime0) as Hinv.
  set (rt := rt_run evs runtime0) in *.
  destruct Hinv as (Hk & Hc & Hlive & Hmemo).
  split; [assumption | ].
  split; [ | split; [ | split]].
  - intro n. destruct (tfModulesPromise rt) as [p|] eqn:Em.
    + exists p. rewrite (concurrentCalls_same (S n) rt p Em). simpl.
      unfold memoHeld in Hc. rewrite Em in Hc. auto.
    + exists (List.length (promises rt)). simpl.
      rewrite (ensureTfModules_empty rt Em).
      rewrite (concurrentCalls_same n _ (List.length (promises rt)))
        by reflexivity.
      simpl. unfold memoHeld in Hc. rewrite Em in Hc.
      repeat split. lia.
  - intros env p Em Ep Hfail. unfold settle. rewrite Ep.
    destruct (loadTfModules env) as [ievs r]. simpl in Hfail. subst r.
    split; [reflexivity | ].
    rewrite ensureTfModules_empty by reflexivity. simpl.
    rewrite set_promise_length.
    assert (Hp : (p < List.length (promises rt))%nat).
    { apply promise_state_key in Ep. rewrite Hk, in_seq in Ep. lia. }
    repeat split.
    + lia.
    + apply promise_state_app_fresh.
      rewrite set_promise_keys, Hk, in_seq. lia.
  - intros env p b Em Ep Hok. unfold settle. rewrite Ep.
    destruct (loadTfModules env) as [ievs r]. simpl in Hok. subst r.
    repeat split.
    + apply ensureTfModules_held. assumption.
    + simpl. now rewrite promise_state_set, Nat.eqb_refl, Ep.
  - intro env. split; [ | split; [ | split]].
    + rewrite tryBackends_first. unfold candidateBackends. simpl.
      destruct (backend_ok env webgl); [reflexivity | ].
      destruct (backend_ok env cpu); reflexivity.
    + apply tryBackends_cpu_after_webgl.
    + intros Hw Hcpu. unfold loadTfModules.
      assert (Hf : snd (tryBackends env candidateBackends) = None).
      { rewrite tryBackends_first. unfold candidateBackends. simpl.
        now rewrite Hw, Hcpu. }
      destruct (tryBackends env candidateBackends) as [ievs r].
      simpl in Hf. subst r.
      destruct (import_core_ok env); [ | reflexivity].
      destruct (import_backends_ok env); reflexivity.
    + intros b Hb. unfold loadTfModules in Hb.
      destruct (tryBackends env candidateBackends) as [ievs [c|]].
      * destruct (import_core_ok env); [ | discriminate].
        destruct (import_backends_ok env); [ | discriminate].
        destruct (import_faceDetection_ok env); simpl in *;
          [assumption | discriminate].
      * destruct (import_core_ok env); [ | discriminate].
        destruct (import_backends_ok env); discriminate.
Qed.

Lemma tfModules_memo_witness :
  (tfModulesPromise (settle envNoBackend 0 (rt_run [Call; Call] runtime0))
   = None
   /\ fst (ensureTfModules
             (settle envNoBackend 0 (rt_run [Call; Call] runtime0)))
      <> 0%nat
   /\ initsStarted
        (snd (ensureTfModules
                (settle envNoBackend 0 (rt_run [Call; Call] runtime0))))
      = S (initsStarted (rt_run [Call; Call] runtime0))
   /\ promise_state
        (promises
           (snd (ensureTfModules
                   (settle envNoBackend 0 (rt_run [Call; Call] runtime0)))))
        (fst (ensureTfModules
                (settle envNoBackend 0 (rt_run [Call; Call] runtime0))))
      = Some Pending)
  /\
  (ensureTfModules (settle envAllOk 0 (rt_run [Call; Call] runtime0))
   = (0%nat, settle envAllOk 0 (rt_run [Call; Call] runtime0))
   /\ promise_state
        (promises (settle envAllOk 0 (rt_run [Call; Call] runtime0))) 0
      = Some (Fulfilled webgl)
   /\ initsStarted (settle envAllOk 0 (rt_run [Call; Call] runtime0))
      = initsStarted (rt_run [Call; Call] runtime0))
  /\ snd (loadTfModules envNoBackend) = None.
Proof.
  pose proof (tfModules_memo [Call; Call]) as (_ & _ & Hfail & Hok & Hsel).
  split; [ | split].
  - apply (Hfail envNoBackend 0%nat); reflexivity.
  - apply (Hok envAllOk 0%nat webgl); reflexivity.
  - apply (proj1 (proj2 (proj2 (Hsel envNoBackend)))); reflexivity.
Defined.

(** ** The rules leave everything but the timers alone *)

Lemma evaluateFaces_frame (o : list DetectionResult) (t w h : Z) (s : State) :
  same_but_timers s (ev_state (evaluateFaces o t w h s)).
Proof.
  unfold same_but_timers, evaluateFaces.
  destruct o as [|primary rest].
  - destruct (noFaceSinceRef s); repeat split; reflexivity.
  - change (videoRef (with_noFaceSinceRef None s)) with (videoRef s).
    change (edgeSinceRef (with_noFaceSinceRef None s))
      with (edgeSinceRef s).
    destruct (videoRef s) eqn:Ev;
      [ | repeat split; (reflexivity || exact Ev)].
    destruct (negb (w =? 0) && negb (h =? 0));
      [ | repeat split; (reflexivity || exact Ev)].
    destruct (touchesEdge (boundingBox primary) w h);
      [ | repeat split; (reflexivity || exact Ev)].
    destruct (edgeSinceRef s);
      match goal with
      | |- context [if ?c then _ else _] => destruct c
      end; repeat split; (reflexivity || exact Ev).
Qed.

Lemma elapsed_self (t k : Z) :
  0 < k -> elapsed_at_least t (Some t) k = false.
Proof.
  intro H. unfold elapsed_at_least. apply Z.leb_gt. lia.
Qed.

Lemma elapsed_spec (t k : Z) (r : option Z) :
  elapsed_at_least t r k = true <->
  k <= t - match r with Some u => u | None => t end.
Proof. unfold elapsed_at_least. apply Z.leb_le. Qed.

(** From an unset no-face timer the rules never propose the no-face flag,
    and whenever they propose anything the timer is unset again. *)
Lemma evaluateFaces_no_face_idle (o : list DetectionResult) (t w h : Z)
  (s : State) :
  noFaceSinceRef s = None ->
  ~ In no_face_detected (nextFlags (evaluateFaces o t w h s))
  /\ (nextFlags (evaluateFaces o t w h s) <> [] ->
      noFaceSinceRef (ev_state (evaluateFaces o t w h s)) = None)
  /\ (ev_thrown (evaluateFaces o t w h s) <> None ->
      noFaceSinceRef (ev_state (evaluateFaces o t w h s)) = None).
Proof.
  intro Hn. unfold evaluateFaces. destruct o as [|primary rest].
  - rewrite Hn.
    change (noFaceSinceRef (with_noFaceSinceRef (Some t) s))
      with (Some t).
    rewrite elapsed_self by reflexivity.
    cbn [nextFlags ev_thrown ev_state].
    repeat split; try tauto; intro H; now elim H.
  - change (videoRef (with_noFaceSinceRef None s)) with (videoRef s).
    change (edgeSinceRef (with_noFaceSinceRef None s))
      with (edgeSinceRef s).
    assert (Hmulti : forall b : bool,
              ~ In no_face_detected
                  (if b then [multiple_faces_detected] else [])).
    { intros [|] H; simpl in H; [ | contradiction].
      destruct H as [H | H]; [discriminate | contradiction]. }
    assert (Hedge : forall b : bool,
              ~ In no_face_detected
                  ((if b then [multiple_faces_detected] else [])
                   ++ [face_near_frame_edge])).
    { intros b H. apply in_app_or in H. destruct H as [H | [H | H]].
      - now apply (Hmulti b).
      - discriminate.
      - contradiction. }
    destruct (videoRef s);
      [ | cbn [nextFlags ev_thrown ev_state]; repeat split; auto].
    destruct (negb (w =? 0) && negb (h =? 0));
      [ | cbn [nextFlags ev_thrown ev_state]; repeat split; auto].
    destruct (touchesEdge (boundingBox primary) w h);
      [ | cbn [nextFlags ev_thrown ev_state]; repeat split; auto].
    destruct (edgeSinceRef s);
      match goal with
      | |- context [if ?c then _ else _] => destruct c
      end; cbn [nextFlags ev_thrown ev_state]; repeat split; auto.
Qed.

Lemma prioritize_In (types : list MalpracticeFlagType)
  (t : MalpracticeFlagType) :
  In t (prioritize types) <-> In t types.
Proof.
  unfold prioritize. rewrite filter_In, includes_In.
  split; [tauto | ]. intro H. split; [ | assumption].
  destruct t; simpl; tauto.
Qed.

Lemma updateFlags_frame (types : list MalpracticeFlagType) (t : Z)
  (s : State) :
  noFaceSinceRef (updateFlags types t s) = noFaceSinceRef s
  /\ edgeSinceRef (updateFlags types t s) = edgeSinceRef s
  /\ isCancelled (updateFlags types t s) = isCancelled s
  /\ pendingTimeouts (updateFlags types t s) = pendingTimeouts s
  /\ nextHandle (updateFlags types t s) = nextHandle s
  /\ detectionTimerRef (updateFlags types t s) = detectionTimerRef s
  /\ effects (updateFlags types t s) = effects s
  /\ detectorRef (updateFlags types t s) = detectorRef s
  /\ videoRef (updateFlags types t s) = videoRef s
  /\ mediaStreamSubRef (updateFlags types t s) = mediaStreamSubRef s.
Proof.
  unfold updateFlags.
  destruct (updateFlags_updater types t (flags s) (nextObject s)).
  repeat split.
Qed.

Lemma resetFlags_frame (s : State) :
  isCancelled (resetFlags s) = isCancelled s
  /\ pendingTimeouts (resetFlags s) = pendingTimeouts s
  /\ nextHandle (resetFlags s) = nextHandle s
  /\ detectionTimerRef (resetFlags s) = detectionTimerRef s
  /\ effects (resetFlags s) = effects s
  /\ detectorRef (resetFlags s) = detectorRef s
  /\ videoRef (resetFlags s) = videoRef s
  /\ mediaStreamSubRef (resetFlags s) = mediaStreamSubRef s
  /\ error (resetFlags s) = error s
  /\ isMonitoring (resetFlags s) = isMonitoring s
  /\ detectorAvailable (resetFlags s) = detectorAvailable s
  /\ detectorSource (resetFlags s) = detectorSource s.
Proof.
  unfold resetFlags.
  destruct (resetFlags_updater (flags s) (nextObject s)).
  repeat split.
Qed.

(** ** The no-face timer never survives a tick *)

Lemma no_face_idle_ext (s s' : State) :
  flags s' = flags s -> noFaceSinceRef s' = noFaceSinceRef s ->
  no_face_idle s -> no_face_idle s'.
Proof.
  unfold no_face_idle, flag_types. intros -> ->. tauto.
Qed.

Lemma no_face_idle_scheduleNext (s : State) :
  no_face_idle s -> no_face_idle (scheduleNext s).
Proof. apply no_face_idle_ext; reflexivity. Qed.

Lemma no_face_idle_reset (s : State) : no_face_idle (resetFlags s).
Proof.
  unfold no_face_idle, flag_types. rewrite resetFlags_items.
  split; [apply resetFlags_timers | simpl; tauto].
Qed.

Lemma no_face_idle_cleanup (s : State) : no_face_idle (sessionCleanup s).
Proof.
  pose proof (sessionCleanup_cleared s) as (Hi & Hn & _).
  unfold no_face_idle, flag_types. rewrite Hi. split; [assumption | ].
  simpl. tauto.
Qed.

Lemma no_face_idle_catch (err : Thrown) (s : State) :
  no_face_idle s -> no_face_idle (catchBlock err s).
Proof.
  intro H. unfold catchBlock. destruct (isCancelled s).
  - now apply no_face_idle_scheduleNext.
  - apply no_face_idle_reset.
Qed.

Lemma no_face_idle_afterAwait (i : TickInput) (s : State) :
  no_face_idle s -> no_face_idle (afterAwait i s).
Proof.
  intro H. unfold afterAwait. destruct (teardownInFlight i).
  - apply no_face_idle_cleanup.
  - revert H. apply no_face_idle_ext; reflexivity.
Qed.

Lemma no_face_idle_tryDetect (i : TickInput) (s : State) :
  no_face_idle s -> no_face_idle (tryDetect i s).
Proof.
  intro H. apply (no_face_idle_afterAwait i) in H.
  destruct (detectOutcome i) as [faces | err] eqn:Eo.
  - rewrite (tryDetect_ok i faces s Eo). unfold tickEvaluation.
    pose proof (evaluateFaces_no_face_idle (orderedFaces faces) (now i)
                  (videoWidth i) (videoHeight i) (afterAwait i s) (proj1 H))
      as (Hcand & Hnext & Hthrown).
    pose proof (evaluateFaces_frame (orderedFaces faces) (now i)
                  (videoWidth i) (videoHeight i) (afterAwait i s))
      as (Hflags & _).
    set (e := evaluateFaces (orderedFaces faces) (now i) (videoWidth i)
                (videoHeight i) (afterAwait i s)) in *.
    destruct (ev_thrown e) as [err|] eqn:Et.
    + apply no_face_idle_catch. split.
      * apply Hthrown. discriminate.
      * unfold flag_types. rewrite Hflags. apply H.
    + apply no_face_idle_scheduleNext.
      destruct (nextFlags e) as [|c cs] eqn:En.
      * apply (no_face_idle_reset (ev_state e)).
      * split.
        -- pose proof (updateFlags_frame (c :: cs) (now i) (ev_state e))
             as (Hnf & _).
           unfold publish. rewrite Hnf. apply Hnext. discriminate.
        -- rewrite (publish_types (c :: cs) (now i) (ev_state e)).
           rewrite prioritize_In. exact Hcand.
  - rewrite (tryDetect_throws i err s Eo). now apply no_face_idle_catch.
Qed.

Lemma no_face_idle_runDetection (i : TickInput) (s : State) :
  no_face_idle s -> no_face_idle (runDetection i s).
Proof.
  intro H. unfold runDetection.
  destruct (isCancelled s || negb (isSome (detectorRef s)));
    [exact H | ].
  destruct (videoRef s) as [video|]; [ | exact H].
  destruct (negb (isSome (srcObject video))).
  - apply no_face_idle_scheduleNext, no_face_idle_reset.
  - destruct ((readyState i <? 2) || (videoWidth i =? 0)).
    + now apply no_face_idle_scheduleNext.
    + now apply no_face_idle_tryDetect.
Qed.

Lemma no_face_idle_attach (stream : option nat) (s : State) :
  no_face_idle s -> no_face_idle (attachStream stream s).
Proof.
  intro H. unfold attachStream.
  destruct (videoRef s) as [v|]; [ | exact H].
  destruct stream as [m|].
  - destruct (stream_eqb (srcObject v) m); [exact H | ].
    revert H. apply no_face_idle_ext; reflexivity.
  - revert H. apply no_face_idle_ext; reflexivity.
Qed.

Lemma no_face_idle_unmount (s : State) : no_face_idle (unmountCleanup s).
Proof.
  unfold unmountCleanup.
  apply (no_face_idle_ext
           (resetFlags (with_isMonitoring false (stopLoop s)))).
  - fields. reflexivity.
  - fields. reflexivity.
  - apply no_face_idle_reset.
Qed.

Lemma no_face_idle_step (e : Event) (s : State) :
  no_face_idle s -> no_face_idle (step e s).
Proof.
  intro H. destruct e as [i | stream | | ]; unfold step.
  - destruct (pendingTimeouts s) as [|h rest]; [exact H | ].
    apply no_face_idle_runDetection.
    revert H. apply no_face_idle_ext; reflexivity.
  - destruct (mediaStreamSubRef s); [ | exact H].
    now apply no_face_idle_attach.
  - apply no_face_idle_cleanup.
  - apply no_face_idle_unmount.
Qed.

Lemma no_face_idle_run (evs : list Event) (s : State) :
  no_face_idle s -> no_face_idle (run evs s).
Proof.
  revert s. induction evs as [|e evs IH]; intros s H; simpl.
  - exact H.
  - apply IH. now apply no_face_idle_step.
Qed.

Lemma no_face_idle_initialize (r : ResolveOutcome) (stream : option nat)
  (hasFeed : bool) (s : State) :
  no_face_idle s -> no_face_idle (initialize r stream hasFeed s).
Proof.
  intro H. unfold initialize. destruct r as [adapter | err].
  - destruct (isCancelled s).
    + destruct (has_dispose adapter); [ | exact H].
      revert H. apply no_face_idle_ext; reflexivity.
    + apply no_face_idle_scheduleNext.
      assert (H1 : no_face_idle
                     (attachStream stream
                        (with_isMonitoring true
                           (with_detectorAvailable true
                              (with_detectorSource (Some (source adapter))
                                 (with_detectorRef (Some adapter) s)))))).
      { apply no_face_idle_attach.
        revert H. apply no_face_idle_ext; reflexivity. }
      destruct hasFeed; [ | exact H1].
      revert H1. apply no_face_idle_ext; reflexivity.
  - destruct (isCancelled s); [exact H | ]. apply no_face_idle_reset.
Qed.

Lemma no_face_idle_start (adapter : DetectionAdapter) (stream : option nat)
  (hasFeed : bool) :
  no_face_idle (startSession adapter stream hasFeed).
Proof.
  unfold startSession. apply no_face_idle_initialize.
  unfold no_face_idle, flag_types. simpl. tauto.
Qed.

(** The no-face flag is never published: in a session that resolved its
    detector, whatever ticks, stream changes and teardowns follow, the
    published list holds no flag of type [no_face_detected].  The timer
    [noFaceSinceRef] set by a cycle without faces is cleared by
    [resetFlags] at the end of that same cycle, so no cycle ever sees
    3000 ms elapsed. *)
Lemma noFace_never_published (adapter : DetectionAdapter)
  (stream : option nat) (hasFeed : bool) (evs : list Event) :
  ~ In no_face_detected
      (flag_types (run evs (startSession adapter stream hasFeed)))
  /\ noFaceSinceRef (run evs (startSession adapter stream hasFeed)) = None.
Proof.
  pose proof (no_face_idle_run evs _
                (no_face_idle_start adapter stream hasFeed)) as [H1 H2].
  split; assumption.
Qed.

(** The run of the defect: five cycles without a face, the last one
    3000 ms after the first, publish nothing. *)
Example absent_for_3000ms_publishes_nothing :
  flag_types (run absentTicks sampleSession) = []
  /\ detectCalls (run absentTicks sampleSession) = 5%nat
  /\ noFaceSinceRef (run absentTicks sampleSession) = None.
Proof. vm_compute. repeat split. Qed.

(** ** Frames that are not ready *)

Lemma detectCalls_scheduleNext (s : State) :
  detectCalls (scheduleNext s) = detectCalls s.
Proof. reflexivity. Qed.

(** C9.  On a tick of a live session with a bound stream whose frame has
    no data yet ([readyState] below 2) or reports zero intrinsic
    dimensions (zero width or zero height), the loop only reschedules:
    the adapter is not called, and neither the published flags nor the
    condition timers change.  The guard of line 396 tests the width; the
    height of the same element is zero exactly when the width is. *)
Theorem not_ready_tick_skips (i : TickInput) (s : State) :
  live s -> bound s -> natural_size i ->
  readyState i < 2 \/ videoWidth i = 0 \/ videoHeight i = 0 ->
  runDetection i s = scheduleNext s
  /\ detectCalls (runDetection i s) = detectCalls s
  /\ flags (runDetection i s) = flags s
  /\ noFaceSinceRef (runDetection i s) = noFaceSinceRef s
  /\ edgeSinceRef (runDetection i s) = edgeSinceRef s
  /\ pendingTimeouts (runDetection i s)
     = pendingTimeouts s ++ [nextHandle s].
Proof.
  intros Hl Hb Hn Hr.
  assert (Hr' : readyState i < 2 \/ videoWidth i = 0).
  { destruct Hr as [H | [H | H]];
      [now left | now right | right; now apply Hn]. }
  rewrite (runDetection_not_ready i s Hl Hb Hr').
  repeat split.
Qed.

Lemma not_ready_tick_skips_witness :
  live sampleSession /\ bound sampleSession
  /\ natural_size emptyFrameTick
  /\ detectCalls (runDetection emptyFrameTick sampleSession)
     = detectCalls sampleSession
  /\ flags (runDetection emptyFrameTick sampleSession)
     = flags sampleSession.
Proof.
  assert (Hl : live sampleSession)
    by (split; [reflexivity | discriminate]).
  assert (Hb : bound sampleSession)
    by (exists (mkVideo (Some 7%nat)), 7%nat;
        split; reflexivity).
  assert (Hn : natural_size emptyFrameTick)
    by (split; intros _; reflexivity).
  assert (Hr : readyState emptyFrameTick < 2
               \/ videoWidth emptyFrameTick = 0
               \/ videoHeight emptyFrameTick = 0)
    by (right; right; reflexivity).
  pose proof (not_ready_tick_skips emptyFrameTick sampleSession Hl Hb Hn Hr)
    as (_ & H2 & H3 & _).
  split; [exact Hl | ]. split; [exact Hb | ]. split; [exact Hn | ].
  split; assumption.
Defined.

(** ** Timers of the loop *)

Lemma stopLoop_pending (s : State) :
  pendingTimeouts (stopLoop s)
  = match detectionTimerRef s with
    | Some h =>
        if Nat.eqb h 0 then pendingTimeouts s
        else filter (fun h' => negb (Nat.eqb h' h)) (pendingTimeouts s)
    | None => pendingTimeouts s
    end.
Proof.
  destruct s.
  unfold stopLoop, unsubscribeFeed, releaseVideo, disposeAdapter,
    clearDetectionTimer, clearTimeout.
  simpl. repeat break_match; reflexivity.
Qed.

Lemma stopLoop_timerRef (s : State) (h : nat) :
  detectionTimerRef s = Some h -> h <> 0%nat ->
  detectionTimerRef (stopLoop s) = None.
Proof.
  destruct s. simpl. intros -> Hh. apply Nat.eqb_neq in Hh.
  unfold stopLoop, unsubscribeFeed, releaseVideo, disposeAdapter,
    clearDetectionTimer, clearTimeout.
  simpl. rewrite Hh. simpl. repeat break_match; reflexivity.
Qed.

Lemma stopLoop_detectCalls (s : State) :
  detectCalls (stopLoop s) = detectCalls s.
Proof.
  destruct s.
  unfold stopLoop, unsubscribeFeed, releaseVideo, disposeAdapter,
    clearDetectionTimer, clearTimeout, detectCalls.
  simpl. repeat break_match; reflexivity.
Qed.

Lemma stopLoop_stops (s : State) :
  timer_inv s -> pendingTimeouts (stopLoop s) = [].
Proof.
  intros [_ [Hp | (h & Hp & Hr & Hh)]]; rewrite stopLoop_pending, Hp.
  - destruct (detectionTimerRef s) as [h|]; [ | reflexivity].
    destruct (Nat.eqb h 0); reflexivity.
  - rewrite Hr. apply Nat.eqb_neq in Hh. rewrite Hh. simpl.
    now rewrite Nat.eqb_refl.
Qed.

Lemma stopLoop_idle (s : State) :
  pendingTimeouts s = [] -> pendingTimeouts (stopLoop s) = [].
Proof.
  intro Hp. rewrite stopLoop_pending, Hp.
  destruct (detectionTimerRef s) as [h|]; [ | reflexivity].
  destruct (Nat.eqb h 0); reflexivity.
Qed.

Lemma timer_inv_idle (s : State) :
  pendingTimeouts s = [] -> (1 <= nextHandle s)%nat -> timer_inv s.
Proof. intros Hp Hn. split; [assumption | now left]. Qed.

Lemma timer_inv_scheduleNext (s : State) :
  pendingTimeouts s = [] -> (1 <= nextHandle s)%nat ->
  timer_inv (scheduleNext s).
Proof.
  intros Hp Hn. unfold timer_inv, scheduleNext.
  cbn [nextHandle pendingTimeouts detectionTimerRef with_detectionTimerRef
       with_nextHandle with_pendingTimeouts].
  rewrite Hp. split; [lia | ]. right. exists (nextHandle s).
  repeat split. lia.
Qed.

Lemma sessionCleanup_pending (s : State) :
  pendingTimeouts (sessionCleanup s)
  = pendingTimeouts (stopLoop (with_isCancelled true s))
  /\ nextHandle (sessionCleanup s) = nextHandle s.
Proof.
  unfold sessionCleanup. fields.
  pose proof (resetFlags_frame (stopLoop (with_isCancelled true s)))
    as (_ & Hp & Hn & _).
  rewrite Hp, Hn.
  pose proof (stopLoop_fields (with_isCancelled true s))
    as (_ & _ & _ & _ & _ & _ & _ & Hh).
  rewrite Hh. split; reflexivity.
Qed.

Lemma sessionCleanup_stops (s : State) :
  timer_inv s -> pendingTimeouts (sessionCleanup s) = [].
Proof.
  intro H. rewrite (proj1 (sessionCleanup_pending s)).
  apply stopLoop_stops. exact H.
Qed.

Lemma sessionCleanup_idle (s : State) :
  pendingTimeouts s = [] -> pendingTimeouts (sessionCleanup s) = [].
Proof.
  intro H. rewrite (proj1 (sessionCleanup_pending s)).
  apply stopLoop_idle. exact H.
Qed.

Lemma publish_frame (next : list MalpracticeFlagType) (t : Z) (s : State) :
  pendingTimeouts (publish next t s) = pendingTimeouts s
  /\ nextHandle (publish next t s) = nextHandle s
  /\ isCancelled (publish next t s) = isCancelled s
  /\ detectionTimerRef (publish next t s) = detectionTimerRef s
  /\ effects (publish next t s) = effects s
  /\ detectorRef (publish next t s) = detectorRef s
  /\ videoRef (publish next t s) = videoRef s.
Proof.
  destruct next as [|c cs]; unfold publish.
  - pose proof (resetFlags_frame s) as H. intuition.
  - pose proof (updateFlags_frame (c :: cs) t s) as H. intuition.
Qed.

Lemma afterAwait_idle (i : TickInput) (s : State) :
  pendingTimeouts s = [] ->
  pendingTimeouts (afterAwait i s) = []
  /\ nextHandle (afterAwait i s) = nextHandle s.
Proof.
  intro Hp. unfold afterAwait. destruct (teardownInFlight i).
  - split.
    + apply sessionCleanup_idle. exact Hp.
    + apply (sessionCleanup_pending (emit EffDetect s)).
  - split; [exact Hp | reflexivity].
Qed.

Lemma catchBlock_timer (err : Thrown) (s : State) :
  pendingTimeouts s = [] -> (1 <= nextHandle s)%nat ->
  timer_inv (catchBlock err s).
Proof.
  intros Hp Hn. unfold catchBlock. destruct (isCancelled s).
  - now apply timer_inv_scheduleNext.
  - set (t := with_isMonitoring false
                (with_error (Some (error_message err))
                   (emit EffLogError s))).
    set (u := with_detectorSource None
                (with_detectorAvailable false (stopLoop t))).
    pose proof (resetFlags_frame u) as (_ & Hrp & Hrn & _).
    apply timer_inv_idle.
    + rewrite Hrp. unfold u. fields. apply stopLoop_idle. exact Hp.
    + rewrite Hrn. unfold u. fields.
      pose proof (stopLoop_fields t) as (_ & _ & _ & _ & _ & _ & _ & Hh).
      rewrite Hh. exact Hn.
Qed.

Lemma tryDetect_timer (i : TickInput) (s : State) :
  pendingTimeouts s = [] -> (1 <= nextHandle s)%nat ->
  timer_inv (tryDetect i s).
Proof.
  intros Hp Hn.
  destruct (afterAwait_idle i s Hp) as [Hap Han].
  destruct (detectOutcome i) as [faces | err] eqn:Eo.
  - rewrite (tryDetect_ok i faces s Eo). unfold tickEvaluation.
    pose proof (evaluateFaces_frame (orderedFaces faces) (now i)
                  (videoWidth i) (videoHeight i) (afterAwait i s)) as Hf.
    set (e := evaluateFaces (orderedFaces faces) (now i) (videoWidth i)
                (videoHeight i) (afterAwait i s)) in *.
    destruct Hf as (_ & _ & _ & _ & _ & _ & _ & _ & _ & _ & Hfp & Hfn & _).
    destruct (ev_thrown e) as [err|].
    + apply catchBlock_timer; [congruence | lia].
    + pose proof (publish_frame (nextFlags e) (now i) (ev_state e))
        as (Hpp & Hpn & _).
      apply timer_inv_scheduleNext; [congruence | lia].
  - rewrite (tryDetect_throws i err s Eo).
    apply catchBlock_timer; [assumption | lia].
Qed.

Lemma runDetection_timer (i : TickInput) (s : State) :
  pendingTimeouts s = [] -> (1 <= nextHandle s)%nat ->
  timer_inv (runDetection i s).
Proof.
  intros Hp Hn. unfold runDetection.
  destruct (isCancelled s || negb (isSome (detectorRef s)));
    [now apply timer_inv_idle | ].
  destruct (videoRef s) as [video|]; [ | now apply timer_inv_idle].
  destruct (negb (isSome (srcObject video))).
  - pose proof (resetFlags_frame s) as (_ & Hrp & Hrn & _).
    apply timer_inv_scheduleNext; [congruence | lia].
  - destruct ((readyState i <? 2) || (videoWidth i =? 0)).
    + now apply timer_inv_scheduleNext.
    + now apply tryDetect_timer.
Qed.

Lemma timer_inv_attach (stream : option nat) (s : State) :
  timer_inv s -> timer_inv (attachStream stream s).
Proof.
  intro H. unfold attachStream.
  destruct (videoRef s) as [v|]; [ | exact H].
  destruct stream as [m|]; [ | exact H].
  destruct (stream_eqb (srcObject v) m); exact H.
Qed.

Lemma unmountCleanup_idle (s : State) :
  pendingTimeouts s = [] ->
  pendingTimeouts (unmountCleanup s) = []
  /\ nextHandle (unmountCleanup s) = nextHandle s.
Proof.
  intro Hp. unfold unmountCleanup. fields.
  pose proof (resetFlags_frame (with_isMonitoring false (stopLoop s)))
    as (_ & Hrp & Hrn & _).
  rewrite Hrp, Hrn. fields.
  pose proof (stopLoop_fields s) as (_ & _ & _ & _ & _ & _ & _ & Hh).
  rewrite Hh. split; [ | reflexivity].
  now apply stopLoop_idle.
Qed.

Lemma timer_inv_step (e : Event) (s : State) :
  timer_inv s -> timer_inv (step e s).
Proof.
  intro H. destruct e as [i | stream | | ]; unfold step.
  - destruct H as [Hn [Hp | (h & Hp & Hr & Hh)]]; rewrite Hp.
    + apply timer_inv_idle; assumption.
    + apply runDetection_timer; [reflexivity | exact Hn].
  - destruct (mediaStreamSubRef s); [ | exact H].
    now apply timer_inv_attach.
  - apply timer_inv_idle.
    + now apply sessionCleanup_stops.
    + rewrite (proj2 (sessionCleanup_pending s)). apply H.
  - pose proof (sessionCleanup_stops s H) as Hp.
    destruct (unmountCleanup_idle (sessionCleanup s) Hp) as [Hup Hun].
    apply timer_inv_idle; [exact Hup | ].
    rewrite Hun, (proj2 (sessionCleanup_pending s)). apply H.
Qed.

Lemma timer_inv_run (evs : list Event) (s : State) :
  timer_inv s -> timer_inv (run evs s).
Proof.
  revert s. induction evs as [|e evs IH]; intros s H; simpl.
  - exact H.
  - apply IH. now apply timer_inv_step.
Qed.

Lemma timer_inv_start (adapter : DetectionAdapter) (stream : option nat)
  (hasFeed : bool) :
  timer_inv (startSession adapter stream hasFeed).
Proof.
  unfold startSession, initialize.
  change (isCancelled (startEffect mounted)) with false. cbv iota.
  apply timer_inv_scheduleNext.
  - destruct hasFeed; destruct stream; reflexivity.
  - destruct hasFeed; destruct stream; apply Nat.le_refl.
Qed.

(** ** A failing detector *)

Lemma detectCalls_ext (s s' : State) :
  effects s' = effects s -> detectCalls s' = detectCalls s.
Proof. unfold detectCalls. now intros ->. Qed.

Lemma catchBlock_live_timers (err : Thrown) (s : State) :
  isCancelled s = false -> pendingTimeouts s = [] ->
  pendingTimeouts (catchBlock err s) = []
  /\ (forall h, detectionTimerRef s = Some h -> h <> 0%nat ->
                detectionTimerRef (catchBlock err s) = None)
  /\ detectCalls (catchBlock err s) = detectCalls s.
Proof.
  intros Hc Hp. unfold catchBlock. rewrite Hc.
  set (t := with_isMonitoring false
              (with_error (Some (error_message err))
                 (emit EffLogError s))).
  set (u := with_detectorSource None
              (with_detectorAvailable false (stopLoop t))).
  pose proof (resetFlags_frame u) as (_ & Hrp & _ & Hrt & Hre & _).
  split; [ | split].
  - rewrite Hrp. unfold u. fields. now apply stopLoop_idle.
  - intros h Hh Hnz. rewrite Hrt. unfold u. fields.
    now apply (stopLoop_timerRef t h).
  - rewrite (detectCalls_ext u _ Hre).
    rewrite (detectCalls_ext (stopLoop t) u) by (unfold u; fields; reflexivity).
    rewrite stopLoop_detectCalls. reflexivity.
Qed.

Lemma sessionCleanup_keeps (s : State) :
  mediaStreamSubRef (sessionCleanup s) = false
  /\ detectorAvailable (sessionCleanup s) = detectorAvailable s
  /\ error (sessionCleanup s) = error s
  /\ detectCalls (sessionCleanup s) = detectCalls s.
Proof.
  unfold sessionCleanup.
  set (t := with_isCancelled true s).
  pose proof (resetFlags_frame (stopLoop t))
    as (_ & _ & _ & _ & Hre & _ & _ & Hrs & Hrr & _ & Hra & _).
  pose proof (stopLoop_fields t) as (_ & Hse & _ & Hsa & _).
  pose proof (stopLoop_released t) as (_ & _ & Hss & _).
  split; [ | split; [ | split]].
  - fields. rewrite Hrs. exact Hss.
  - fields. now rewrite Hra, Hsa.
  - fields. now rewrite Hrr, Hse.
  - rewrite (detectCalls_ext (resetFlags (stopLoop t)))
      by (fields; reflexivity).
    rewrite (detectCalls_ext (stopLoop t) _ Hre).
    now rewrite stopLoop_detectCalls.
Qed.

Lemma unmountCleanup_keeps (s : State) :
  mediaStreamSubRef (unmountCleanup s) = false
  /\ detectorRef (unmountCleanup s) = None
  /\ detectorAvailable (unmountCleanup s) = detectorAvailable s
  /\ error (unmountCleanup s) = error s
  /\ detectCalls (unmountCleanup s) = detectCalls s.
Proof.
  unfold unmountCleanup.
  set (t := with_isMonitoring false (stopLoop s)).
  pose proof (resetFlags_frame t)
    as (_ & _ & _ & _ & Hre & Hrd & _ & Hrs & Hrr & _ & Hra & _).
  pose proof (stopLoop_fields s) as (_ & Hse & _ & Hsa & _).
  pose proof (stopLoop_released s) as (Hsd & _ & Hss & _).
  split; [ | split; [ | split; [ | split]]].
  - fields. rewrite Hrs. unfold t. fields. exact Hss.
  - fields. rewrite Hrd. unfold t. fields. exact Hsd.
  - fields. rewrite Hra. unfold t. fields. exact Hsa.
  - fields. rewrite Hrr. unfold t. fields. exact Hse.
  - rewrite (detectCalls_ext (resetFlags t)) by (fields; reflexivity).
    rewrite (detectCalls_ext t _ Hre).
    rewrite (detectCalls_ext (stopLoop s) t) by (unfold t; fields; reflexivity).
    apply stopLoop_detectCalls.
Qed.

Lemma halted_step (s0 : State) (e : Event) (s : State) :
  halted s0 s -> halted s0 (step e s).
Proof.
  intros (Hp & Hd & Hs & Ha & He & Hc).
  destruct e as [i | stream | | ]; unfold step.
  - rewrite Hp. unfold halted. repeat split; assumption.
  - rewrite Hs. unfold halted. repeat split; assumption.
  - pose proof (sessionCleanup_keeps s) as (Ks & Ka & Ke & Kc).
    pose proof (sessionCleanup_cleared s) as (_ & _ & _ & _ & _ & Kd).
    unfold halted. rewrite Ks, Ka, Ke, Kc, Kd.
    repeat split; auto. now apply sessionCleanup_idle.
  - pose proof (sessionCleanup_keeps s) as (Ks & Ka & Ke & Kc).
    pose proof (unmountCleanup_keeps (sessionCleanup s))
      as (Us & Ud & Ua & Ue & Uc).
    pose proof (unmountCleanup_idle (sessionCleanup s)
                  (sessionCleanup_idle s Hp)) as [Up _].
    unfold halted. rewrite Up, Us, Ud, Ua, Ue, Uc, Ka, Ke, Kc.
    repeat split; auto.
Qed.

Lemma halted_run (s0 : State) (evs : list Event) (s : State) :
  halted s0 s -> halted s0 (run evs s).
Proof.
  revert s. induction evs as [|e evs IH]; intros s H; simpl.
  - exact H.
  - apply IH. now apply halted_step.
Qed.

Lemma reached_timer_inv (adapter : DetectionAdapter) (stream : option nat)
  (hasFeed : bool) (evs : list Event) :
  timer_inv (reached adapter stream hasFeed evs).
Proof. apply timer_inv_run, timer_inv_start. Qed.

(** The tick of a live, bound session on a ready frame whose [detect]
    throws, from the state of a timeout that has just fired. *)
Lemma failing_tick (i : TickInput) (err : Thrown) (s : State) :
  firing s -> live s -> bound s -> frame_ready i ->
  detectOutcome i = DetectThrows err -> teardownInFlight i = false ->
  pendingTimeouts (runDetection i s) = []
  /\ detectionTimerRef (runDetection i s) = None
  /\ detectorAvailable (runDetection i s) = false
  /\ detectorSource (runDetection i s) = None
  /\ error (runDetection i s) = Some (error_message err)
  /\ isMonitoring (runDetection i s) = false
  /\ cleared (runDetection i s)
  /\ detectorRef (runDetection i s) = None
  /\ mediaStreamSubRef (runDetection i s) = false
  /\ detectCalls (runDetection i s) = S (detectCalls s).
Proof.
  intros (Hn & Hp & h & Hr & Hh) Hl Hb Hf Ho Ht.
  rewrite (runDetection_detects i s Hl Hb Hf).
  rewrite (tryDetect_throws i err s Ho).
  unfold afterAwait. rewrite Ht.
  assert (Hc : isCancelled (emit EffDetect s) = false) by apply Hl.
  pose proof (catchBlock_live err (emit EffDetect s) Hc) as K.
  cbv zeta in K.
  destruct K as (K1 & K2 & K3 & K4 & K5 & K6 & K7 & K8 & K9 & K10 & _).
  pose proof (catchBlock_live_timers err (emit EffDetect s) Hc Hp)
    as (T1 & T2 & T3).
  repeat split; try assumption.
  now apply (T2 h).
Qed.

(** C6.  When [detect] throws in a tick of a running session and the
    session has not been cancelled, the loop stops: no timeout is pending
    and none is stored, [detectorAvailable] is false, [detectorSource] is
    unset, [error] holds the message, [isMonitoring] is false, the
    published list is empty and both timers are unset.  Whatever events
    follow, no tick runs again: nothing becomes pending, [detect] is not
    called again, and the detector stays unavailable with the same
    error. *)
Theorem detect_failure_stops_session (adapter : DetectionAdapter)
  (stream : option nat) (hasFeed : bool) (evs : list Event)
  (i : TickInput) (err : Thrown) :
  pendingTimeouts (reached adapter stream hasFeed evs) <> [] ->
  live (reached adapter stream hasFeed evs) ->
  bound (reached adapter stream hasFeed evs) ->
  frame_ready i ->
  detectOutcome i = DetectThrows err ->
  teardownInFlight i = false ->
  pendingTimeouts (reached adapter stream hasFeed (evs ++ [EvTick i])) = []
  /\ detectionTimerRef (reached adapter stream hasFeed (evs ++ [EvTick i]))
     = None
  /\ detectorAvailable (reached adapter stream hasFeed (evs ++ [EvTick i]))
     = false
  /\ detectorSource (reached adapter stream hasFeed (evs ++ [EvTick i]))
     = None
  /\ error (reached adapter stream hasFeed (evs ++ [EvTick i]))
     = Some (error_message err)
  /\ isMonitoring (reached adapter stream hasFeed (evs ++ [EvTick i]))
     = false
  /\ cleared (reached adapter stream hasFeed (evs ++ [EvTick i]))
  /\ detectCalls (reached adapter stream hasFeed (evs ++ [EvTick i]))
     = S (detectCalls (reached adapter stream hasFeed evs))
  /\ forall later,
       halted (reached adapter stream hasFeed (evs ++ [EvTick i]))
         (reached adapter stream hasFeed (evs ++ [EvTick i] ++ later)).
Proof.
  intros Hne Hl Hb Hf Ho Ht.
  pose proof (reached_timer_inv adapter stream hasFeed evs) as Hinv.
  assert (Hstep : forall later,
            reached adapter stream hasFeed (evs ++ [EvTick i] ++ later)
            = run later
                (step (EvTick i) (reached adapter stream hasFeed evs))).
  { intro later. unfold reached, run. rewrite !fold_left_app. reflexivity. }
  assert (Hone : reached adapter stream hasFeed (evs ++ [EvTick i])
                 = step (EvTick i) (reached adapter stream hasFeed evs)).
  { unfold reached, run. rewrite fold_left_app. reflexivity. }
  rewrite Hone.
  assert (Hall : forall later,
            halted (step (EvTick i) (reached adapter stream hasFeed evs))
              (reached adapter stream hasFeed (evs ++ [EvTick i] ++ later))
            <-> halted (step (EvTick i) (reached adapter stream hasFeed evs))
                  (run later
                     (step (EvTick i) (reached adapter stream hasFeed evs)))).
  { intro later. now rewrite Hstep. }
  revert Hall Hne Hl Hb Hinv.
  generalize (reached adapter stream hasFeed evs). clear Hstep Hone.
  intros s Hall. intros Hne Hl Hb [Hn [Hp | (h & Hp & Hr & Hh)]];
    [contradiction | ].
  assert (Hfire : firing (with_pendingTimeouts [] s)).
  { split; [exact Hn | ]. split; [reflexivity | ]. now exists h. }
  pose proof (failing_tick i err (with_pendingTimeouts [] s) Hfire Hl Hb
                Hf Ho Ht)
    as (F1 & F2 & F3 & F4 & F5 & F6 & F7 & F8 & F9 & F10).
  assert (Es : step (EvTick i) s
               = runDetection i (with_pendingTimeouts [] s)).
  { unfold step. rewrite Hp. reflexivity. }
  revert Hall. rewrite Es. intro Hall.
  refine (conj F1 (conj F2 (conj F3 (conj F4 (conj F5 (conj F6
            (conj F7 (conj F10 _)))))))).
  intro later. apply Hall. apply halted_run.
  unfold halted. repeat split; assumption.
Qed.

(** ** The edge rule *)

Lemma touchesEdge_spec (box : DOMRect) (w h : Z) :
  touchesEdge box w h = true <-> within_margin box w h.
Proof.
  unfold touchesEdge, within_margin, EDGE_MARGIN_RATIO.
  rewrite !orb_true_iff, !Qle_bool_iff.
  assert (E : (1 - (8 # 100) == 92 # 100)%Q) by reflexivity.
  rewrite !E. tauto.
Qed.

(** The head of the ordered snapshot has the largest area. *)
Lemma orderedFaces_primary (faces : list DetectionResult)
  (primary : DetectionResult) (rest : list DetectionResult) :
  orderedFaces faces = primary :: rest ->
  In primary faces /\ forall f, In f faces -> area_ge primary f.
Proof.
  intro E.
  destruct (snapshot_ordered_by_area_aux faces) as (Hperm & Hsorted).
  rewrite E in Hperm, Hsorted. split.
  - apply (Permutation_in primary Hperm). now left.
  - intros f Hf. apply (Permutation_in f (Permutation_sym Hperm)) in Hf.
    destruct Hf as [<- | Hf].
    + unfold area_ge. apply Qle_refl.
    + inversion Hsorted as [|p r Hr Hall]; subst.
      rewrite Forall_forall in Hall. now apply Hall.
Qed.

Lemma evaluateFaces_edgeSince (o : list DetectionResult) (t w h : Z)
  (s : State) :
  edgeSinceRef (ev_state (evaluateFaces o t w h s))
  = match o with
    | [] => None
    | primary :: _ =>
        match videoRef s with
        | None => edgeSinceRef s
        | Some _ =>
            if negb (w =? 0) && negb (h =? 0) then
              if touchesEdge (boundingBox primary) w h
              then match edgeSinceRef s with
                   | None => Some t
                   | Some u => Some u
                   end
              else None
            else edgeSinceRef s
        end
    end.
Proof.
  unfold evaluateFaces. destruct o as [|primary rest].
  - reflexivity.
  - change (videoRef (with_noFaceSinceRef None s)) with (videoRef s).
    change (edgeSinceRef (with_noFaceSinceRef None s))
      with (edgeSinceRef s).
    destruct (videoRef s); [ | reflexivity].
    destruct (negb (w =? 0) && negb (h =? 0)); [ | reflexivity].
    destruct (touchesEdge (boundingBox primary) w h); [ | reflexivity].
    destruct (edgeSinceRef s) eqn:Es;
      match goal with
      | |- context [if ?c then _ else _] => destruct c
      end;
      cbn [ev_state edgeSinceRef with_edgeSinceRef with_noFaceSinceRef];
      rewrite ?Es; reflexivity.
Qed.

Lemma evaluateFaces_not_thrown (o : list DetectionResult) (t w h : Z)
  (s : State) :
  videoRef s <> None -> ev_thrown (evaluateFaces o t w h s) = None.
Proof.
  intro Hv.
  destruct (ev_thrown (evaluateFaces o t w h s)) as [err|] eqn:E;
    [ | reflexivity].
  apply evaluateFaces_thrown in E. destruct E as [E _]. contradiction.
Qed.

(** The candidates of a snapshot with two or more faces. *)
Lemma evaluateFaces_multiple (o : list DetectionResult) (t w h : Z)
  (s : State) :
  (2 <= List.length o)%nat -> videoRef s <> None ->
  nextFlags (evaluateFaces o t w h s) = [multiple_faces_detected].
Proof.
  intros Hlen Hv. unfold evaluateFaces.
  destruct o as [|primary [|second rest]]; simpl in Hlen; try lia.
  change (videoRef (with_noFaceSinceRef None s)) with (videoRef s).
  change (edgeSinceRef (with_noFaceSinceRef None s)) with (edgeSinceRef s).
  change (Nat.ltb 1 (List.length (primary :: second :: rest))) with true.
  cbv iota.
  change (includes [multiple_faces_detected] multiple_faces_detected)
    with true.
  destruct (videoRef s); [ | contradiction].
  destruct (negb (w =? 0) && negb (h =? 0)); [ | reflexivity].
  destruct (touchesEdge (boundingBox primary) w h); [ | reflexivity].
  rewrite andb_false_r. reflexivity.
Qed.

(** What it takes for the edge flag to be a candidate. *)
Lemma evaluateFaces_edge_candidate (o : list DetectionResult) (t w h : Z)
  (s : State) :
  In face_near_frame_edge (nextFlags (evaluateFaces o t w h s)) ->
  exists primary since,
    o = [primary]
    /\ touchesEdge (boundingBox primary) w h = true
    /\ edgeSinceRef s = Some since
    /\ edgeSinceRef (ev_state (evaluateFaces o t w h s)) = Some since
    /\ EDGE_THRESHOLD_MS <= t - since
    /\ nextFlags (evaluateFaces o t w h s) = [face_near_frame_edge]
    /\ videoRef s <> None /\ w <> 0 /\ h <> 0.
Proof.
  rewrite evaluateFaces_edgeSince. unfold evaluateFaces.
  destruct o as [|primary rest].
  - destruct (noFaceSinceRef s);
      match goal with
      | |- context [if ?c then _ else _] => destruct c
      end; cbn [nextFlags]; intro H;
      repeat (destruct H as [H | H]; try discriminate); contradiction.
  - change (videoRef (with_noFaceSinceRef None s)) with (videoRef s).
    change (edgeSinceRef (with_noFaceSinceRef None s))
      with (edgeSinceRef s).
    assert (Hmulti : forall b : bool,
              ~ In face_near_frame_edge
                  (if b then [multiple_faces_detected] else [])).
    { intros [|] H; simpl in H; [ | contradiction].
      destruct H as [H | H]; [discriminate | contradiction]. }
    destruct (videoRef s) as [v|] eqn:Ev;
      [ | cbn [nextFlags]; intro H; now apply Hmulti in H].
    destruct (negb (w =? 0) && negb (h =? 0)) eqn:Ed;
      [ | cbn [nextFlags]; intro H; now apply Hmulti in H].
    destruct (touchesEdge (boundingBox primary) w h) eqn:Ee;
      [ | cbn [nextFlags]; intro H; now apply Hmulti in H].
    apply andb_true_iff in Ed. destruct Ed as [Ew Eh].
    apply negb_true_iff, Z.eqb_neq in Ew, Eh.
    destruct (edgeSinceRef s) as [since|] eqn:Es.
    + cbn [edgeSinceRef with_edgeSinceRef].
      destruct (elapsed_at_least t (edgeSinceRef (with_noFaceSinceRef None s))
                  EDGE_THRESHOLD_MS) eqn:El.
      * destruct rest as [|second rest].
        -- cbn [nextFlags]. intros _. exists primary, since.
           change (edgeSinceRef (with_noFaceSinceRef None s))
             with (edgeSinceRef s) in El.
           rewrite Es in El. apply elapsed_spec in El.
           repeat split; auto. discriminate.
        -- cbn [nextFlags]. intro H. now apply (Hmulti true) in H.
      * cbn [nextFlags]. intro H. now apply Hmulti in H.
    + change (edgeSinceRef (with_edgeSinceRef (Some t)
                              (with_noFaceSinceRef None s)))
        with (Some t).
      rewrite elapsed_self by reflexivity.
      cbn [nextFlags]. intro H. now apply Hmulti in H.
Qed.

(** ** The edge timer along a session *)

Lemma publish_edgeSince (next : list MalpracticeFlagType) (t : Z)
  (s : State) :
  edgeSinceRef (publish next t s)
  = match next with [] => None | _ :: _ => edgeSinceRef s end.
Proof.
  destruct next as [|c cs]; unfold publish.
  - apply resetFlags_timers.
  - apply (updateFlags_frame (c :: cs) t s).
Qed.

Lemma edgeSince_scheduleNext (s : State) :
  edgeSinceRef (scheduleNext s) = edgeSinceRef s.
Proof. reflexivity. Qed.

Lemma tryDetect_teardown (i : TickInput) (s : State) :
  teardownInFlight i = true -> edgeSinceRef (tryDetect i s) = None.
Proof.
  intro Ht.
  assert (Ea : afterAwait i s = sessionCleanup (emit EffDetect s)).
  { unfold afterAwait. now rewrite Ht. }
  pose proof (sessionCleanup_cleared (emit EffDetect s))
    as (_ & _ & Ce & Cc & Cv & _).
  rewrite <- Ea in Ce, Cc, Cv.
  destruct (detectOutcome i) as [faces | err] eqn:Eo.
  - rewrite (tryDetect_ok i faces s Eo). unfold tickEvaluation.
    pose proof (evaluateFaces_edgeSince (orderedFaces faces) (now i)
                  (videoWidth i) (videoHeight i) (afterAwait i s)) as He.
    pose proof (evaluateFaces_frame (orderedFaces faces) (now i)
                  (videoWidth i) (videoHeight i) (afterAwait i s)) as Hf.
    set (e := evaluateFaces (orderedFaces faces) (now i) (videoWidth i)
                (videoHeight i) (afterAwait i s)) in *.
    destruct Hf as (_ & _ & _ & _ & _ & _ & _ & _ & _ & Hc & _).
    rewrite Cv, Ce in He.
    assert (He' : edgeSinceRef (ev_state e) = None).
    { rewrite He. now destruct (orderedFaces faces). }
    destruct (ev_thrown e) as [err|].
    + rewrite catchBlock_cancelled by congruence.
      now rewrite edgeSince_scheduleNext.
    + rewrite edgeSince_scheduleNext, publish_edgeSince.
      now destruct (nextFlags e).
  - rewrite (tryDetect_throws i err s Eo).
    rewrite catchBlock_cancelled by assumption.
    now rewrite edgeSince_scheduleNext.
Qed.

Lemma tryDetect_edge (i : TickInput) (s : State) (video : VideoElement)
  (t0 : Z) :
  isCancelled s = false -> videoRef s = Some video ->
  teardownInFlight i = false ->
  edgeSinceRef (tryDetect i s) = Some t0 ->
  exists faces primary rest,
    detectOutcome i = DetectOk faces
    /\ orderedFaces faces = primary :: rest
    /\ ((negb (videoWidth i =? 0) && negb (videoHeight i =? 0) = true
         /\ touchesEdge (boundingBox primary) (videoWidth i) (videoHeight i)
            = true
         /\ (edgeSinceRef s = Some t0
             \/ (edgeSinceRef s = None /\ now i = t0)))
        \/ (negb (videoWidth i =? 0) && negb (videoHeight i =? 0) = false
            /\ edgeSinceRef s = Some t0)).
Proof.
  intros Hc Hv Ht.
  assert (Ea : afterAwait i s = emit EffDetect s).
  { unfold afterAwait. now rewrite Ht. }
  destruct (detectOutcome i) as [faces | err] eqn:Eo.
  - rewrite (tryDetect_ok i faces s Eo). unfold tickEvaluation.
    rewrite Ea.
    pose proof (evaluateFaces_edgeSince (orderedFaces faces) (now i)
                  (videoWidth i) (videoHeight i) (emit EffDetect s)) as He.
    pose proof (evaluateFaces_not_thrown (orderedFaces faces) (now i)
                  (videoWidth i) (videoHeight i) (emit EffDetect s)) as Hn.
    set (e := evaluateFaces (orderedFaces faces) (now i) (videoWidth i)
                (videoHeight i) (emit EffDetect s)) in *.
    change (videoRef (emit EffDetect s)) with (videoRef s) in He, Hn.
    change (edgeSinceRef (emit EffDetect s)) with (edgeSinceRef s) in He.
    rewrite Hv in He, Hn. rewrite Hn by discriminate.
    rewrite edgeSince_scheduleNext, publish_edgeSince.
    destruct (nextFlags e); [discriminate | ].
    rewrite He. clear He.
    destruct (orderedFaces faces) as [|primary rest] eqn:Eord;
      [discriminate | ].
    intro H. exists faces, primary, rest.
    split; [reflexivity | ]. split; [exact Eord | ].
    destruct (negb (videoWidth i =? 0) && negb (videoHeight i =? 0)).
    + left.
      destruct (touchesEdge (boundingBox primary) (videoWidth i)
                  (videoHeight i)); [ | discriminate].
      split; [reflexivity | ]. split; [reflexivity | ].
      destruct (edgeSinceRef s) as [u|].
      * now left.
      * right. split; [reflexivity | congruence].
    + right. split; [reflexivity | assumption].
  - rewrite (tryDetect_throws i err s Eo), Ea.
    assert (Hc' : isCancelled (emit EffDetect s) = false) by exact Hc.
    pose proof (catchBlock_live err _ Hc') as K. cbv zeta in K.
    destruct K as (_ & _ & K & _). rewrite K. discriminate.
Qed.

Lemma runDetection_edge (i : TickInput) (s : State) (t0 : Z) :
  edgeSinceRef (runDetection i s) = Some t0 ->
  (edgeSinceRef s = Some t0 /\ edgeSample i s <> Some false)
  \/ (now i = t0 /\ edgeSample i s = Some true).
Proof.
  unfold runDetection, edgeSample.
  destruct (isCancelled s || negb (isSome (detectorRef s))) eqn:Eg.
  { intro H. left. split; [exact H | discriminate]. }
  apply orb_false_iff in Eg. destruct Eg as [Hc _].
  destruct (videoRef s) as [video|] eqn:Ev.
  2:{ intro H. left. split; [exact H | discriminate]. }
  destruct (negb (isSome (srcObject video))).
  { rewrite edgeSince_scheduleNext, (proj2 (resetFlags_timers s)).
    discriminate. }
  destruct ((readyState i <? 2) || (videoWidth i =? 0)).
  { rewrite edgeSince_scheduleNext.
    intro H. left. split; [exact H | discriminate]. }
  destruct (teardownInFlight i) eqn:Et.
  { rewrite (tryDetect_teardown i s Et). discriminate. }
  intro H.
  destruct (tryDetect_edge i s video t0 Hc Ev Et H)
    as (faces & primary & rest & Eo & Eord & Hcase).
  rewrite Eo, Eord.
  destruct Hcase as [(Ed & Ee & [Hs | [Hs Hn]]) | (Ed & Hs)]; rewrite Ed.
  - left. rewrite Ee. split; [exact Hs | discriminate].
  - right. rewrite Ee. split; [exact Hn | reflexivity].
  - left. split; [exact Hs | discriminate].
Qed.

Lemma step_edge (e : Event) (s : State) (t0 : Z) :
  edgeSinceRef (step e s) = Some t0 ->
  (edgeSinceRef s = Some t0 /\ eventSample e s <> Some false)
  \/ (exists i0, e = EvTick i0 /\ now i0 = t0
                 /\ eventSample e s = Some true).
Proof.
  destruct e as [i | stream | | ]; unfold step, eventSample.
  - destruct (pendingTimeouts s) as [|h rest].
    + intro H. left. split; [exact H | discriminate].
    + intro H. apply runDetection_edge in H.
      destruct H as [[H1 H2] | [H1 H2]].
      * left. split; [exact H1 | exact H2].
      * right. exists i. auto.
  - intro H. left. split; [ | discriminate].
    destruct (mediaStreamSubRef s); [ | exact H].
    unfold attachStream in H.
    destruct (videoRef s) as [v|]; [ | exact H].
    destruct stream as [m|]; [ | exact H].
    destruct (stream_eqb (srcObject v) m); exact H.
  - pose proof (sessionCleanup_cleared s) as (_ & _ & Ce & _).
    rewrite Ce. discriminate.
  - unfold unmountCleanup. fields.
    rewrite (proj2 (resetFlags_timers _)). discriminate.
Qed.

Lemma run_app (a b : list Event) (s : State) :
  run (a ++ b) s = run b (run a s).
Proof. unfold run. apply fold_left_app. Qed.

Lemma steady_app (a b : list Event) (s : State) :
  steady s (a ++ b) <-> steady s a /\ steady (run a s) b.
Proof.
  revert s. induction a as [|e a IH]; intro s; simpl.
  - tauto.
  - rewrite IH. tauto.
Qed.

(** A set edge timer holds the timestamp of a tick that observed the edge
    condition true, and no tick since has observed it false. *)
Lemma edge_timer_history (s0 : State) (evs : list Event) (t0 : Z) :
  edgeSinceRef s0 = None ->
  edgeSinceRef (run evs s0) = Some t0 ->
  edge_true_since s0 evs t0.
Proof.
  intro H0. induction evs as [|e evs IH] using rev_ind.
  - simpl. congruence.
  - rewrite run_app. simpl. intro H. apply step_edge in H.
    destruct H as [[Hs Hsample] | (i0 & -> & Hn & Hsample)].
    + destruct (IH Hs) as (pre & i0 & post & -> & Hn & Hi0 & Hst).
      exists pre, i0, (post ++ [e]). repeat split.
      * now rewrite <- app_assoc.
      * exact Hn.
      * exact Hi0.
      * apply steady_app. split; [exact Hst | ].
        simpl. split; [ | exact I].
        rewrite <- run_app, <- app_assoc. exact Hsample.
    + exists evs, i0, []. repeat split; assumption.
Qed.

Lemma startSession_edge (adapter : DetectionAdapter) (stream : option nat)
  (hasFeed : bool) :
  edgeSinceRef (startSession adapter stream hasFeed) = None.
Proof.
  unfold startSession, initialize.
  change (isCancelled (startEffect mounted)) with false. cbv iota.
  rewrite edgeSince_scheduleNext.
  destruct hasFeed; destruct stream; reflexivity.
Qed.

(** The published types of a cycle with at least two faces. *)
Lemma runDetection_multiple (i : TickInput) (faces : list DetectionResult)
  (s : State) :
  live s -> bound s -> frame_ready i ->
  detectOutcome i = DetectOk faces -> teardownInFlight i = false ->
  (2 <= List.length faces)%nat ->
  nextFlags (tickEvaluation i faces s) = [multiple_faces_detected]
  /\ flag_types (runDetection i s) = [multiple_faces_detected].
Proof.
  intros Hl Hb Hf Ho Ht Hlen.
  assert (Ea : afterAwait i s = emit EffDetect s).
  { unfold afterAwait. now rewrite Ht. }
  assert (Hv : videoRef (emit EffDetect s) <> None).
  { destruct Hb as (v & m & Hv & _).
    change (videoRef (emit EffDetect s)) with (videoRef s).
    congruence. }
  assert (Hlen' : (2 <= List.length (orderedFaces faces))%nat).
  { rewrite (Permutation_length (proj1 (snapshot_ordered_by_area_aux faces))).
    exact Hlen. }
  assert (Hnext : nextFlags (tickEvaluation i faces s)
                  = [multiple_faces_detected]).
  { unfold tickEvaluation. rewrite Ea.
    now apply evaluateFaces_multiple. }
  split; [exact Hnext | ].
  rewrite (runDetection_detects i s Hl Hb Hf).
  rewrite (tryDetect_ok i faces s Ho). rewrite Hnext.
  assert (Hthrown : ev_thrown (tickEvaluation i faces s) = None).
  { unfold tickEvaluation. rewrite Ea.
    now apply evaluateFaces_not_thrown. }
  rewrite Hthrown.
  unfold flag_types.
  change (flags (scheduleNext ?X)) with (flags X).
  apply (publish_types [multiple_faces_detected] (now i)
           (ev_state (tickEvaluation i faces s))).
Qed.

(** C2.  The edge flag is a candidate of a cycle only if the snapshot is
    not empty, its primary box (the head of the ordered snapshot, of the
    largest area) is within the 8% margin on some side, the edge timer
    shows at least 1500 ms and goes back to a tick that observed the edge
    condition true with no tick since observing it false, and the
    multiple-faces flag is not a candidate.  A cycle of a live session
    with two or more faces proposes exactly the multiple-faces flag and
    publishes exactly it, so the edge flag is not active in that cycle. *)
Theorem faceNearEdge_candidate (i : TickInput)
  (faces : list DetectionResult) :
  (forall adapter stream hasFeed evs rest,
     In face_near_frame_edge
       (nextFlags
          (tickEvaluation i faces
             (with_pendingTimeouts rest
                (reached adapter stream hasFeed evs)))) ->
     faces <> []
     /\ (exists primary,
           hd_error (orderedFaces faces) = Some primary
           /\ (forall f, In f faces -> area_ge primary f)
           /\ within_margin (boundingBox primary)
                (videoWidth i) (videoHeight i))
     /\ (exists since,
           EDGE_THRESHOLD_MS <= now i - since
           /\ edge_true_since (startSession adapter stream hasFeed) evs
                since)
     /\ ~ In multiple_faces_detected
           (nextFlags
              (tickEvaluation i faces
                 (with_pendingTimeouts rest
                    (reached adapter stream hasFeed evs)))))
  /\
  (forall s,
     live s -> bound s -> frame_ready i ->
     detectOutcome i = DetectOk faces -> teardownInFlight i = false ->
     (2 <= List.length faces)%nat ->
     nextFlags (tickEvaluation i faces s) = [multiple_faces_detected]
     /\ In multiple_faces_detected (flag_types (runDetection i s))
     /\ ~ In face_near_frame_edge (flag_types (runDetection i s))).
Proof.
  split.
  - intros adapter stream hasFeed evs rest.
    pose proof (edge_timer_history (startSession adapter stream hasFeed)
                  evs) as Hhist.
    specialize (fun t => Hhist t (startSession_edge adapter stream hasFeed)).
    fold (reached adapter stream hasFeed evs) in Hhist.
    revert Hhist. generalize (reached adapter stream hasFeed evs).
    intros s Hhist Hin. unfold tickEvaluation in Hin |- *.
    destruct (evaluateFaces_edge_candidate _ _ _ _ _ Hin)
      as (primary & since & Eo & Ee & Es & _ & Hth & Hnext & Hv & _).
    split; [ | split; [ | split]].
    + intros ->. discriminate.
    + exists primary. rewrite Eo. split; [reflexivity | ]. split.
      * apply (orderedFaces_primary faces primary [] Eo).
      * now apply touchesEdge_spec.
    + exists since. split; [exact Hth | ]. apply Hhist.
      destruct (afterAwait_cases i (with_pendingTimeouts rest s))
        as [[_ E] | [_ E]]; rewrite E in Es.
      * exact Es.
      * pose proof (sessionCleanup_cleared
                      (emit EffDetect (with_pendingTimeouts rest s)))
          as (_ & _ & Ce & _).
        congruence.
    + rewrite Hnext. intros [H | H]; [discriminate | contradiction].
  - intros s Hl Hb Hf Ho Ht Hlen.
    destruct (runDetection_multiple i faces s Hl Hb Hf Ho Ht Hlen)
      as [Hnext Hpub].
    split; [exact Hnext | ]. rewrite Hpub. split.
    + now left.
    + intros [H | H]; [discriminate | contradiction].
Qed.

Lemma faceNearEdge_candidate_witness :
  (exists since,
     EDGE_THRESHOLD_MS <= 1500 - since
     /\ edge_true_since sampleSession crowdedTicks since)
  /\ In multiple_faces_detected
       (flag_types
          (runDetection (tickAt 0 [edgeFace; middleFace]) sampleSession))
  /\ ~ In face_near_frame_edge
         (flag_types
            (runDetection (tickAt 0 [edgeFace; middleFace]) sampleSession)).
Proof.
  split.
  - assert (Hin : In face_near_frame_edge
                    (nextFlags
                       (tickEvaluation (tickAt 1500 [edgeFace]) [edgeFace]
                          (with_pendingTimeouts []
                             (reached sampleAdapter (Some 7%nat) true
                                crowdedTicks)))))
      by (vm_compute; left; reflexivity).
    exact (proj1 (proj2 (proj2
             (proj1 (faceNearEdge_candidate (tickAt 1500 [edgeFace])
                       [edgeFace])
                sampleAdapter (Some 7%nat) true crowdedTicks [] Hin)))).
  - assert (Hl : live sampleSession)
      by (split; [reflexivity | discriminate]).
    assert (Hb : bound sampleSession)
      by (exists (mkVideo (Some 7%nat)), 7%nat;
          split; reflexivity).
    assert (Hf : frame_ready (tickAt 0 [edgeFace; middleFace]))
      by (split; [vm_compute; discriminate | discriminate]).
    assert (Hlen : (2 <= List.length [edgeFace; middleFace])%nat)
      by (simpl; lia).
    exact (proj2
             (proj2 (faceNearEdge_candidate
                       (tickAt 0 [edgeFace; middleFace])
                       [edgeFace; middleFace])
                sampleSession Hl Hb Hf eq_refl eq_refl Hlen)).
Defined.

Lemma reset_when_nothing_to_report_witness :
  cleared (runDetection (tickAt 0 [])
             (startSession sampleAdapter None true))
  /\ cleared (runDetection (tickAt 0 []) sampleSession).
Proof.
  split.
  - apply (proj1 (reset_when_nothing_to_report (tickAt 0 [])
                    (startSession sampleAdapter None true))).
    + split; [reflexivity | discriminate].
    + exists (mkVideo None). split; reflexivity.
  - apply (proj2 (reset_when_nothing_to_report (tickAt 0 []) sampleSession)
             []).
    + split; [reflexivity | discriminate].
    + exists (mkVideo (Some 7%nat)), 7%nat. split; reflexivity.
    + split; [vm_compute; discriminate | discriminate].
    + reflexivity.
    + reflexivity.
Defined.

Lemma detect_failure_stops_session_witness :
  pendingTimeouts (reached sampleAdapter (Some 7%nat) true []) <> []
  /\ error (reached sampleAdapter (Some 7%nat) true ([] ++ [EvTick failingTick]))
     = Some "detector crashed"%string
  /\ pendingTimeouts
       (reached sampleAdapter (Some 7%nat) true ([] ++ [EvTick failingTick]))
     = []
  /\ detectorAvailable
       (reached sampleAdapter (Some 7%nat) true ([] ++ [EvTick failingTick]))
     = false.
Proof.
  assert (Hne : pendingTimeouts (reached sampleAdapter (Some 7%nat) true [])
                <> [])
    by (vm_compute; discriminate).
  assert (Hl : live (reached sampleAdapter (Some 7%nat) true []))
    by (split; [reflexivity | discriminate]).
  assert (Hb : bound (reached sampleAdapter (Some 7%nat) true []))
    by (exists (mkVideo (Some 7%nat)), 7%nat;
        split; reflexivity).
  assert (Hf : frame_ready failingTick)
    by (split; [vm_compute; discriminate | discriminate]).
  pose proof (detect_failure_stops_session sampleAdapter (Some 7%nat) true
                [] failingTick (ErrorObject "detector crashed")
                Hne Hl Hb Hf eq_refl eq_refl)
    as (H1 & _ & H3 & _ & H5 & _).
  split; [exact Hne | ]. split; [exact H5 | ]. split; [exact H1 | exact H3].
Defined.

(** ** The scenarios, run *)

(** The edge timer runs while two faces are in the frame, and the edge
    flag is published on the first cycle with a single face once 1500 ms
    have passed. *)
Example edge_after_crowd :
  flag_types (run crowdedTicks sampleSession) = [multiple_faces_detected]
  /\ edgeSinceRef (run crowdedTicks sampleSession) = Some 0
  /\ map (fun f => (type f, since f))
       (items (flags (run (crowdedTicks ++ [EvTick (tickAt 1500 [edgeFace])])
                        sampleSession)))
     = [(face_near_frame_edge, 1500)].
Proof. vm_compute. repeat split. Qed.

(** The published flag object is kept from one cycle to the next while
    the same types stay active. *)
Example since_is_kept :
  flags (run crowdedTicks sampleSession)
  = flags (run [EvTick (tickAt 0 [edgeFace; middleFace])] sampleSession)
  /\ map since (items (flags (run crowdedTicks sampleSession))) = [0].
Proof. vm_compute. repeat split. Qed.

(** ** The no-face rule *)

Lemma orderedFaces_nil (faces : list DetectionResult) :
  orderedFaces faces = [] <-> faces = [].
Proof.
  split.
  - intro E.
    pose proof (proj1 (snapshot_ordered_by_area_aux faces)) as Hp.
    rewrite E in Hp. now apply Permutation_nil in Hp.
  - intros ->. reflexivity.
Qed.

Lemma evaluateFaces_present (o : list DetectionResult) (t w h : Z)
  (s : State) :
  o <> [] -> ~ In no_face_detected (nextFlags (evaluateFaces o t w h s)).
Proof.
  intro Ho. unfold evaluateFaces.
  destruct o as [|primary rest]; [congruence | ].
  change (videoRef (with_noFaceSinceRef None s)) with (videoRef s).
  change (edgeSinceRef (with_noFaceSinceRef None s)) with (edgeSinceRef s).
  assert (Hmulti : forall b : bool,
            ~ In no_face_detected
                (if b then [multiple_faces_detected] else [])).
  { intros [|] H; simpl in H; [ | contradiction].
    destruct H as [H | H]; [discriminate | contradiction]. }
  assert (Hedge : forall b : bool,
            ~ In no_face_detected
                ((if b then [multiple_faces_detected] else [])
                 ++ [face_near_frame_edge])).
  { intros b H. apply in_app_or in H. destruct H as [H | [H | H]].
    - now apply (Hmulti b).
    - discriminate.
    - contradiction. }
  destruct (videoRef s); [ | cbn [nextFlags]; auto].
  destruct (negb (w =? 0) && negb (h =? 0)); [ | cbn [nextFlags]; auto].
  destruct (touchesEdge (boundingBox primary) w h);
    [ | cbn [nextFlags]; auto].
  destruct (edgeSinceRef s);
    match goal with
    | |- context [if ?c then _ else _] => destruct c
    end; cbn [nextFlags]; auto.
Qed.

Lemma evaluateFaces_absent (t w h : Z) (s : State) :
  evaluateFaces [] t w h s
  = mkEval
      (with_edgeSinceRef None
         match noFaceSinceRef s with
         | None => with_noFaceSinceRef (Some t) s
         | Some _ => s
         end)
      (match noFaceSinceRef s with
       | None => []
       | Some u =>
           if NO_FACE_THRESHOLD_MS <=? t - u then [no_face_detected] else []
       end)
      None.
Proof.
  unfold evaluateFaces. destruct (noFaceSinceRef s) as [u|] eqn:E.
  - rewrite E. reflexivity.
  - change (noFaceSinceRef (with_noFaceSinceRef (Some t) s)) with (Some t).
    now rewrite elapsed_self.
Qed.

Lemma evaluateFaces_noFace_candidate (o : list DetectionResult) (t w h : Z)
  (s : State) :
  In no_face_detected (nextFlags (evaluateFaces o t w h s)) <->
  o = [] /\ exists u, noFaceSinceRef s = Some u
                      /\ NO_FACE_THRESHOLD_MS <= t - u.
Proof.
  destruct o as [|primary rest].
  - rewrite evaluateFaces_absent. cbn [nextFlags].
    destruct (noFaceSinceRef s) as [u|].
    + destruct (NO_FACE_THRESHOLD_MS <=? t - u) eqn:E.
      * apply Z.leb_le in E. split.
        -- intros _. split; [reflexivity | ]. now exists u.
        -- intros _. now left.
      * apply Z.leb_gt in E. split.
        -- intros [].
        -- intros [_ (u' & Hu & Hle)]. injection Hu as <-. lia.
    + split.
      * intros [].
      * intros [_ (u & Hu & _)]. discriminate.
  - split.
    + intro H. exfalso. revert H. apply evaluateFaces_present. discriminate.
    + intros [H _]. discriminate.
Qed.

(** C1.  The run that shows the defect: five consecutive cycles without
    a face on a bound, playing 640x480 frame, 750 ms apart, the fifth
    3000 ms after the first.  The adapter is called in each of them, and
    the rule of lines 419-426 is applied: the evaluation of the first
    cycle sets the no-face timer to the timestamp of that cycle.  But a
    cycle that raises no candidate ends in [resetFlags] (line 469), which
    clears the timer again: after each of the five cycles the timer is
    unset, and the no-face flag, which the claim expects from the fifth
    cycle on, is published after none of them. *)
Theorem noFace_absent_run :
  detectCalls (run absentTicks sampleSession) = 5%nat
  /\ noFaceSinceRef
       (ev_state (tickEvaluation (tickAt 0 []) [] sampleSession)) = Some 0
  /\ map (fun k => noFaceSinceRef (run (firstn k absentTicks) sampleSession))
       [1; 2; 3; 4; 5]%nat
     = [None; None; None; None; None]
  /\ map (fun k => flag_types (run (firstn k absentTicks) sampleSession))
       [1; 2; 3; 4; 5]%nat
     = [[]; []; []; []; []].
Proof. vm_compute. repeat split. Qed.

(** * Further properties *)

(** ** The fallback adapter *)

(** X2.  [createFallbackAdapter] asks for the mediapipe runtime only after
    the tfjs runtime has thrown, and for no detector at all when the
    modules failed to load.  It resolves exactly when the modules loaded
    and the tfjs runtime, or after its throw the mediapipe runtime, gave a
    detector; the adapter is then a fallback adapter with [dispose]. *)
Theorem createFallbackAdapter_chain (modules : option Backend)
  (modulesErr : Thrown) (withTfjs withMediapipe : CreateOutcome) :
  (In (CreateDetector mediapipe)
      (fst (createFallbackAdapter modules modulesErr withTfjs withMediapipe))
   <-> modules <> None /\ exists err, withTfjs = CreateThrows err)
  /\ (modules = None ->
      createFallbackAdapter modules modulesErr withTfjs withMediapipe
      = ([], ResolveFailed modulesErr))
  /\ ((exists adapter,
         snd (createFallbackAdapter modules modulesErr withTfjs
                withMediapipe) = Resolved adapter)
      <-> modules <> None
          /\ (withTfjs = CreateOk
              \/ ((exists err, withTfjs = CreateThrows err)
                  /\ withMediapipe = CreateOk)))
  /\ (forall adapter,
        snd (createFallbackAdapter modules modulesErr withTfjs
               withMediapipe) = Resolved adapter ->
        source adapter = fallback /\ has_dispose adapter = true).
Proof.
  destruct modules as [b|];
    destruct withTfjs as [ | | e1];
    destruct withMediapipe as [ | | e2]; simpl;
    (split; [ | split; [ | split]]);
    try (intro; discriminate);
    try (intros adapter H; injection H as <-; split; reflexivity);
    try (intros adapter H; discriminate);
    try reflexivity;
    split;
    try (intros [H | [H | [H | H]]]; (discriminate || contradiction));
    try (intros [H | H]; (discriminate || contradiction));
    try (intros []; fail);
    try (intros [H _]; congruence);
    try (intros _; split; [discriminate | eauto]; fail);
    try (intros _; right; right; left; reflexivity);
    try (intros _; eexists; reflexivity);
    try (intros [adapter H]; discriminate);
    try (intros [_ [H | [[err H] H']]]; discriminate);
    try (intros [_ [err H]]; discriminate);
    try (intros _; split; [discriminate | ]; left; reflexivity);
    try (intros _; split; [discriminate | ]; right; split;
         [eexists; reflexivity | reflexivity]).
Qed.

Lemma createFallbackAdapter_chain_witness :
  createFallbackAdapter None OtherValue CreateOk CreateOk
  = ([], ResolveFailed OtherValue)
  /\ source (mkAdapter fallback true) = fallback.
Proof.
  pose proof (createFallbackAdapter_chain (Some cpu) OtherValue
                (CreateThrows OtherValue) CreateOk) as (_ & _ & _ & Had).
  split.
  - apply (proj1 (proj2 (createFallbackAdapter_chain None OtherValue
                           CreateOk CreateOk))).
    reflexivity.
  - apply (Had (mkAdapter fallback true)). reflexivity.
Defined.

(** ** Stopping the loop *)

(** X3.  [stopLoop] is idempotent: a second call changes nothing, so the
    adapter is disposed at most once and the feed unsubscribed at most
    once; after it no adapter, video element or subscription is held and
    both timers are unset. *)
Theorem stopLoop_idempotent (s : State) :
  stopLoop (stopLoop s) = stopLoop s
  /\ disposeCalls (stopLoop (stopLoop s)) = disposeCalls (stopLoop s)
  /\ (disposeCalls (stopLoop s) <= S (disposeCalls s))%nat
  /\ detectorRef (stopLoop s) = None
  /\ videoRef (stopLoop s) = None
  /\ mediaStreamSubRef (stopLoop s) = false.
Proof.
  assert (H : stopLoop (stopLoop s) = stopLoop s).
  { destruct s as [fl er mo av so de vi ti su nf ed ca pe nh no ef].
    destruct ti as [[|h]|]; destruct de as [[src [|]]|];
      destruct vi as [v|]; destruct su; vm_compute; reflexivity. }
  split; [exact H | ]. split; [now rewrite H | ].
  split.
  - destruct s as [fl er mo av so de vi ti su nf ed ca pe nh no ef].
    clear H.
    destruct ti as [[|h]|]; destruct de as [[src [|]]|];
      destruct vi as [v|]; destruct su;
      unfold disposeCalls, stopLoop, unsubscribeFeed, releaseVideo,
        disposeAdapter, clearDetectionTimer, clearTimeout;
      cbn; lia.
  - pose proof (stopLoop_released s) as (H1 & H2 & H3 & _). auto.
Qed.

(** ** Binding the stream *)

(** X4.  Binding the stream that is already bound does nothing, so
    [play] is not called again; after a stream is bound the element holds
    it, and after the stream is taken away the element holds none.  The
    tick that follows the removal of the stream clears the flags and both
    timers and reschedules without calling [detect], whatever the frame
    reports. *)
Theorem attachStream_binding (m : nat) (i : TickInput) (s : State) :
  attachStream (Some m) (attachStream (Some m) s) = attachStream (Some m) s
  /\ (videoRef s <> None ->
      videoRef (attachStream (Some m) s) = Some (mkVideo (Some m))
      /\ videoRef (attachStream None s) = Some (mkVideo None))
  /\ (live s -> videoRef s <> None ->
      runDetection i (attachStream None s)
      = scheduleNext (resetFlags (attachStream None s))
      /\ cleared (runDetection i (attachStream None s))
      /\ detectCalls (runDetection i (attachStream None s)) = detectCalls s).
Proof.
  split; [ | split].
  - destruct s. unfold attachStream. simpl.
    destruct videoRef0 as [[[m'|]]|]; simpl; try reflexivity.
    + destruct (Nat.eqb m' m) eqn:E; simpl.
      * now rewrite E.
      * now rewrite Nat.eqb_refl.
    + now rewrite Nat.eqb_refl.
  - intro Hv. unfold attachStream.
    destruct (videoRef s) as [[src]|] eqn:Ev; [ | congruence].
    cbn [srcObject]. split; [ | reflexivity].
    destruct (stream_eqb src m) eqn:E; [ | reflexivity].
    rewrite Ev. destruct src as [m'|]; simpl in E; [ | discriminate].
    apply Nat.eqb_eq in E. now subst.
  - intros [Hc Hd] Hv.
    assert (Hl : live (attachStream None s)).
    { unfold attachStream. destruct (videoRef s); [ | congruence].
      split; assumption. }
    assert (Hu : unbound (attachStream None s)).
    { unfold attachStream. destruct (videoRef s) as [v|]; [ | congruence].
      exists (mkVideo None). split; reflexivity. }
    rewrite (runDetection_unbound i _ Hl Hu).
    split; [reflexivity | ]. split.
    + apply cleared_scheduleNext, cleared_reset.
    + rewrite detectCalls_scheduleNext.
      rewrite (detectCalls_ext (attachStream None s))
        by apply (resetFlags_frame (attachStream None s)).
      unfold attachStream. destruct (videoRef s); reflexivity.
Qed.

Lemma attachStream_binding_witness :
  live sampleSession /\ videoRef sampleSession <> None
  /\ cleared (runDetection (tickAt 0 [edgeFace])
                (attachStream None sampleSession))
  /\ videoRef (attachStream (Some 9%nat) sampleSession)
     = Some (mkVideo (Some 9%nat)).
Proof.
  assert (Hl : live sampleSession)
    by (split; [reflexivity | discriminate]).
  assert (Hv : videoRef sampleSession <> None) by discriminate.
  pose proof (attachStream_binding 9%nat (tickAt 0 [edgeFace]) sampleSession)
    as (_ & Hb & Ht).
  split; [exact Hl | ]. split; [exact Hv | ]. split.
  - exact (proj1 (proj2 (Ht Hl Hv))).
  - exact (proj1 (Hb Hv)).
Defined.

(** ** The priority order of the published list *)

Lemma prioritize_ext (a b : list MalpracticeFlagType) :
  (forall t, In t a <-> In t b) -> prioritize a = prioritize b.
Proof.
  intro H. unfold prioritize. apply filter_ext. intro t.
  destruct (includes a t) eqn:Ea; destruct (includes b t) eqn:Eb;
    try reflexivity.
  - apply includes_In, H, includes_In in Ea. congruence.
  - apply includes_In, H, includes_In in Eb. congruence.
Qed.

Lemma prioritize_sorted (types : list MalpracticeFlagType) :
  StronglySorted (fun a b => (rank a < rank b)%nat) (prioritize types).
Proof.
  unfold prioritize, FLAG_PRIORITY. simpl.
  destruct (includes types multiple_faces_detected),
    (includes types no_face_detected),
    (includes types face_near_frame_edge);
    repeat constructor.
Qed.

(** X5.  Whatever the order and repetitions of the candidates given to
    [updateFlags], the published list holds exactly the candidate types,
    each once, in the order multiple faces, no face, face near edge; two
    candidate lists with the same members give the same state. *)
Theorem updateFlags_priority_order (types : list MalpracticeFlagType)
  (timestamp : Z) (s : State) :
  (forall t, In t (flag_types (updateFlags types timestamp s)) <->
             In t types)
  /\ NoDup (flag_types (updateFlags types timestamp s))
  /\ StronglySorted (fun a b => (rank a < rank b)%nat)
       (flag_types (updateFlags types timestamp s))
  /\ (forall types',
        (forall t, In t types <-> In t types') ->
        updateFlags types' timestamp s = updateFlags types timestamp s).
Proof.
  rewrite updateFlags_types. split; [ | split; [ | split]].
  - intro t. apply prioritize_In.
  - pose proof (prioritize_sorted types) as H.
    induction H as [|a l Hs IH Ha]; constructor.
    + intro Hin. rewrite Forall_forall in Ha. specialize (Ha a Hin). lia.
    + exact IH.
  - apply prioritize_sorted.
  - intros types' H. unfold updateFlags, updateFlags_updater.
    now rewrite (prioritize_ext types types' H).
Qed.

Lemma updateFlags_priority_order_witness :
  updateFlags [multiple_faces_detected; face_near_frame_edge] 10 mounted
  = updateFlags
      [face_near_frame_edge; multiple_faces_detected; face_near_frame_edge]
      10 mounted.
Proof.
  apply (proj2 (proj2 (proj2
           (updateFlags_priority_order
              [face_near_frame_edge; multiple_faces_detected;
               face_near_frame_edge] 10 mounted)))).
  intro t. simpl. tauto.
Defined.

(** ** The shapes a tick can take *)

Lemma sessionCleanup_status (s : State) :
  isMonitoring (sessionCleanup s) = false
  /\ detectorSource (sessionCleanup s) = None.
Proof. unfold sessionCleanup. fields. split; reflexivity. Qed.

Lemma resetFlags_kept (s : State) :
  items (flags s) = [] -> resetFlags s
                          = with_edgeSinceRef None (with_noFaceSinceRef None s).
Proof.
  intro H. unfold resetFlags, resetFlags_updater. rewrite H. simpl.
  destruct s. reflexivity.
Qed.

Lemma tryDetect_cancelled (i : TickInput) (s c : State) :
  afterAwait i s = c ->
  items (flags c) = [] -> noFaceSinceRef c = None ->
  edgeSinceRef c = None -> isCancelled c = true -> videoRef c = None ->
  exists x,
    tryDetect i s = scheduleNext x
    /\ same_but_timers c x
    /\ noFaceSinceRef x = None /\ edgeSinceRef x = None.
Proof.
  intros Ea Ci Cn Ce Cc Cv.
  destruct (detectOutcome i) as [faces | err] eqn:Eo.
  - rewrite (tryDetect_ok i faces s Eo). unfold tickEvaluation. rewrite Ea.
    destruct (orderedFaces faces) as [|primary rest] eqn:Eord.
    + rewrite evaluateFaces_absent. rewrite Cn.
      cbn [ev_thrown nextFlags ev_state publish].
      rewrite resetFlags_kept by exact Ci.
      eexists. split; [reflexivity | ]. repeat split.
    + pose proof (evaluateFaces_thrown (primary :: rest) (now i)
                    (videoWidth i) (videoHeight i) c) as Hth.
      destruct (ev_thrown (evaluateFaces (primary :: rest) (now i)
                             (videoWidth i) (videoHeight i) c))
        as [err|] eqn:Et.
      * destruct (Hth err eq_refl) as (_ & _ & Hs). rewrite Hs.
        rewrite catchBlock_cancelled by exact Cc.
        eexists. split; [reflexivity | ]. repeat split. exact Ce.
      * exfalso. unfold evaluateFaces in Et.
        change (videoRef (with_noFaceSinceRef None c)) with (videoRef c)
          in Et.
        rewrite Cv in Et. discriminate.
  - rewrite (tryDetect_throws i err s Eo), Ea.
    rewrite catchBlock_cancelled by exact Cc.
    exists c. repeat split; assumption.
Qed.

(** A tick during which the session is torn down ends in the state the
    cleanup left, with one more timeout scheduled. *)
Lemma tryDetect_torn (i : TickInput) (s : State) :
  teardownInFlight i = true ->
  exists x,
    tryDetect i s = scheduleNext x
    /\ same_but_timers (sessionCleanup (emit EffDetect s)) x
    /\ noFaceSinceRef x = None /\ edgeSinceRef x = None.
Proof.
  intro Ht.
  pose proof (sessionCleanup_cleared (emit EffDetect s))
    as (Ci & Cn & Ce & Cc & Cv & _).
  apply tryDetect_cancelled; try assumption.
  unfold afterAwait. now rewrite Ht.
Qed.

Lemma runDetection_shape (i : TickInput) (s : State) :
  (runDetection i s = s /\ (~ live s \/ videoRef s = None))
  \/ (live s /\ unbound s /\ runDetection i s = scheduleNext (resetFlags s))
  \/ (live s /\ bound s /\ runDetection i s = scheduleNext s)
  \/ (live s /\ bound s /\ teardownInFlight i = true
      /\ runDetection i s = tryDetect i s)
  \/ (live s /\ bound s /\ teardownInFlight i = false
      /\ exists err, detectOutcome i = DetectThrows err
                     /\ runDetection i s = catchBlock err (emit EffDetect s))
  \/ (live s /\ bound s /\ teardownInFlight i = false
      /\ exists faces,
           detectOutcome i = DetectOk faces
           /\ runDetection i s
              = scheduleNext
                  (publish
                     (nextFlags
                        (evaluateFaces (orderedFaces faces) (now i)
                           (videoWidth i) (videoHeight i)
                           (emit EffDetect s)))
                     (now i)
                     (ev_state
                        (evaluateFaces (orderedFaces faces) (now i)
                           (videoWidth i) (videoHeight i)
                           (emit EffDetect s))))).
Proof.
  unfold runDetection.
  destruct (isCancelled s) eqn:Hc.
  { left. split; [reflexivity | ]. left. intros [H _]. congruence. }
  destruct (detectorRef s) as [a|] eqn:Hd.
  2:{ left. split; [reflexivity | ]. left. intros [_ H]. congruence. }
  simpl.
  destruct (videoRef s) as [[src]|] eqn:Hv; [ | left; auto].
  assert (Hl : live s).
  { split; [exact Hc | congruence]. }
  destruct src as [m|]; simpl.
  2:{ right. left. repeat split; auto; try congruence.
      exists (mkVideo None). split; [exact Hv | reflexivity]. }
  assert (Hb : bound s).
  { exists (mkVideo (Some m)), m. split; [exact Hv | reflexivity]. }
  destruct ((readyState i <? 2) || (videoWidth i =? 0)).
  { right. right. left. auto. }
  destruct (teardownInFlight i) eqn:Ht.
  { right. right. right. left. auto. }
  assert (Ea : afterAwait i s = emit EffDetect s).
  { unfold afterAwait. now rewrite Ht. }
  destruct (detectOutcome i) as [faces | err] eqn:Eo.
  - right. right. right. right. right.
    split; [exact Hl | ]. split; [exact Hb | ]. split; [reflexivity | ].
    exists faces. split; [reflexivity | ].
    rewrite (tryDetect_ok i faces s Eo). unfold tickEvaluation. rewrite Ea.
    rewrite evaluateFaces_not_thrown; [reflexivity | ].
    change (videoRef (emit EffDetect s)) with (videoRef s). congruence.
  - right. right. right. right. left.
    split; [exact Hl | ]. split; [exact Hb | ]. split; [reflexivity | ].
    exists err. split; [reflexivity | ].
    now rewrite (tryDetect_throws i err s Eo), Ea.
Qed.

(** ** The identity of the published array *)

Lemma kept_or_emptied_trans (a b c : State) :
  kept_or_emptied a b -> kept_or_emptied b c -> kept_or_emptied a c.
Proof.
  unfold kept_or_emptied. intros [H1 | [H1 H1']] [H2 | [H2 H2']].
  - left. congruence.
  - right. rewrite <- H1. auto.
  - right. rewrite H2. auto.
  - contradiction.
Qed.

Lemma kept_or_emptied_same (a b : State) :
  flags b = flags a -> kept_or_emptied a b.
Proof. intro H. now left. Qed.

Lemma kept_or_emptied_reset (s : State) : kept_or_emptied s (resetFlags s).
Proof.
  destruct (items (flags s)) as [|f r] eqn:E.
  - left. rewrite resetFlags_kept by exact E. reflexivity.
  - right. split; [apply resetFlags_items | congruence].
Qed.

Lemma kept_or_emptied_types (a b : State) :
  kept_or_emptied a b -> flag_types b = flag_types a -> flags b = flags a.
Proof.
  intros [H | [H1 H2]] Ht; [exact H | ].
  unfold flag_types in Ht. rewrite H1 in Ht. simpl in Ht.
  symmetry in Ht. apply map_eq_nil in Ht. contradiction.
Qed.

Lemma kept_or_emptied_cleanup (s : State) :
  kept_or_emptied s (sessionCleanup s).
Proof.
  unfold sessionCleanup.
  apply kept_or_emptied_trans
    with (resetFlags (stopLoop (with_isCancelled true s))).
  - apply kept_or_emptied_trans with (stopLoop (with_isCancelled true s)).
    + left. apply (stopLoop_fields (with_isCancelled true s)).
    + apply kept_or_emptied_reset.
  - left. fields. reflexivity.
Qed.

Lemma kept_or_emptied_unmount (s : State) :
  kept_or_emptied s (unmountCleanup s).
Proof.
  unfold unmountCleanup.
  apply kept_or_emptied_trans
    with (resetFlags (with_isMonitoring false (stopLoop s))).
  - apply kept_or_emptied_trans with (with_isMonitoring false (stopLoop s)).
    + left. fields. apply (stopLoop_fields s).
    + apply kept_or_emptied_reset.
  - left. fields. reflexivity.
Qed.

Lemma kept_or_emptied_catch (err : Thrown) (s : State) :
  kept_or_emptied s (catchBlock err s).
Proof.
  unfold catchBlock. destruct (isCancelled s).
  - now left.
  - set (t := with_isMonitoring false
                (with_error (Some (error_message err))
                   (emit EffLogError s))).
    set (u := with_detectorSource None
                (with_detectorAvailable false (stopLoop t))).
    apply kept_or_emptied_trans with u; [ | apply kept_or_emptied_reset].
    left. unfold u. fields. apply (stopLoop_fields t).
Qed.

Lemma kept_or_emptied_torn (i : TickInput) (s : State) :
  teardownInFlight i = true -> kept_or_emptied s (tryDetect i s).
Proof.
  intro Ht. destruct (tryDetect_torn i s Ht) as (x & -> & Hx & _).
  destruct Hx as (Hf & _).
  apply kept_or_emptied_trans with (sessionCleanup (emit EffDetect s)).
  - apply kept_or_emptied_trans with (emit EffDetect s).
    + now left.
    + apply kept_or_emptied_cleanup.
  - left. exact Hf.
Qed.

Lemma publish_same (next : list MalpracticeFlagType) (t : Z) (s : State) :
  flag_types (publish next t s) = flag_types s ->
  flags (publish next t s) = flags s.
Proof.
  destruct next as [|c cs]; unfold publish.
  - apply kept_or_emptied_types, kept_or_emptied_reset.
  - rewrite updateFlags_types. intro H. apply updateFlags_same.
    symmetry. exact H.
Qed.

Lemma runDetection_identity (i : TickInput) (s : State) :
  flag_types (runDetection i s) = flag_types s ->
  flags (runDetection i s) = flags s.
Proof.
  destruct (runDetection_shape i s)
    as [[E _] | [(_ & _ & E) | [(_ & _ & E) | [(_ & _ & Ht & E)
       | [(_ & _ & _ & err & _ & E) | (_ & _ & _ & faces & _ & E)]]]]];
    rewrite E.
  - reflexivity.
  - apply kept_or_emptied_types.
    apply kept_or_emptied_trans with (resetFlags s).
    + apply kept_or_emptied_reset.
    + now left.
  - reflexivity.
  - apply kept_or_emptied_types. now apply kept_or_emptied_torn.
  - apply kept_or_emptied_types.
    apply kept_or_emptied_trans with (emit EffDetect s).
    + now left.
    + apply kept_or_emptied_catch.
  - pose proof (evaluateFaces_frame (orderedFaces faces) (now i)
                  (videoWidth i) (videoHeight i) (emit EffDetect s))
      as (Hf & _).
    set (e := evaluateFaces (orderedFaces faces) (now i) (videoWidth i)
                (videoHeight i) (emit EffDetect s)) in *.
    assert (Hfs : flags (ev_state e) = flags s) by exact Hf.
    unfold flag_types.
    change (flags (scheduleNext ?X)) with (flags X).
    rewrite <- Hfs. apply publish_same.
Qed.

(** X6.  An event changes the stored array of flags only when it changes
    the list of published types: whenever the types after an event are the
    types before it, the array is the same array, with the same flag
    objects and [since] values, so the consumers of [flags] are not
    notified. *)
Theorem flags_change_only_with_types (e : Event) (s : State) :
  flag_types (step e s) = flag_types s ->
  flags (step e s) = flags s /\ ~ flags_notified s (step e s).
Proof.
  intro H.
  assert (Hf : flags (step e s) = flags s).
  { revert H. destruct e as [i | stream | | ]; unfold step.
    - destruct (pendingTimeouts s) as [|h rest]; [reflexivity | ].
      apply (runDetection_identity i (with_pendingTimeouts rest s)).
    - intros _. destruct (mediaStreamSubRef s); [ | reflexivity].
      unfold attachStream. destruct (videoRef s) as [v|]; [ | reflexivity].
      destruct stream as [m|]; [ | reflexivity].
      destruct (stream_eqb (srcObject v) m); reflexivity.
    - apply kept_or_emptied_types, kept_or_emptied_cleanup.
    - apply kept_or_emptied_types.
      apply kept_or_emptied_trans with (sessionCleanup s).
      + apply kept_or_emptied_cleanup.
      + apply kept_or_emptied_unmount. }
  split; [exact Hf | ]. unfold flags_notified. now rewrite Hf.
Qed.

Lemma flags_change_only_with_types_witness :
  flags (step (EvTick (tickAt 750 [edgeFace; middleFace])) flaggedSession)
  = flags flaggedSession.
Proof.
  apply (flags_change_only_with_types
           (EvTick (tickAt 750 [edgeFace; middleFace])) flaggedSession).
  reflexivity.
Defined.

(** ** At most one flag *)

Lemma nextFlags_short (o : list DetectionResult) (t w h : Z) (s : State) :
  (List.length (nextFlags (evaluateFaces o t w h s)) <= 1)%nat.
Proof.
  destruct o as [|primary rest].
  - rewrite evaluateFaces_absent. cbn [nextFlags].
    destruct (noFaceSinceRef s) as [u|]; [ | simpl; lia].
    destruct (NO_FACE_THRESHOLD_MS <=? t - u); simpl; lia.
  - unfold evaluateFaces.
    change (videoRef (with_noFaceSinceRef None s)) with (videoRef s).
    change (edgeSinceRef (with_noFaceSinceRef None s)) with (edgeSinceRef s).
    assert (Hm : forall b : bool,
              (List.length (if b then [multiple_faces_detected] else [])
               <= 1)%nat)
      by (intros [|]; simpl; lia).
    destruct (videoRef s); [ | cbn [nextFlags]; apply Hm].
    destruct (negb (w =? 0) && negb (h =? 0)); [ | cbn [nextFlags]; apply Hm].
    destruct (touchesEdge (boundingBox primary) w h);
      [ | cbn [nextFlags]; apply Hm].
    destruct (Nat.ltb 1 (List.length (primary :: rest))).
    + change (includes [multiple_faces_detected] multiple_faces_detected)
        with true.
      rewrite andb_false_r. cbn [nextFlags]. simpl. lia.
    + destruct (edgeSinceRef s);
        match goal with
        | |- context [if ?c then _ else _] => destruct c
        end; cbn [nextFlags]; simpl; lia.
Qed.

Lemma prioritize_short (next : list MalpracticeFlagType) :
  (List.length next <= 1)%nat -> (List.length (prioritize next) <= 1)%nat.
Proof.
  destruct next as [|c [|d r]]; intro H.
  - vm_compute. lia.
  - destruct c; vm_compute; lia.
  - simpl in H. lia.
Qed.

Lemma flags_wf_kept (s s' : State) :
  kept_or_emptied s s' -> flags_wf s -> flags_wf s'.
Proof.
  unfold flags_wf. intros [H | [H _]] Hw; rewrite H.
  - exact Hw.
  - simpl. split; [lia | tauto].
Qed.

Lemma flags_wf_publish (next : list MalpracticeFlagType) (t : Z)
  (s : State) :
  (List.length next <= 1)%nat -> flags_wf s -> flags_wf (publish next t s).
Proof.
  intros Hn Hw. destruct next as [|c cs]; unfold publish.
  - apply (flags_wf_kept s); [apply kept_or_emptied_reset | exact Hw].
  - split.
    + pose proof (updateFlags_types (c :: cs) t s) as Ht.
      unfold flag_types in Ht.
      rewrite <- (length_map type), Ht. now apply prioritize_short.
    + intros f Hf.
      destruct (list_eq_dec type_eq_dec (map type (items (flags s)))
                  (prioritize (c :: cs))) as [E | NE].
      * rewrite (updateFlags_same (c :: cs) t s E) in Hf. now apply Hw.
      * destruct (updateFlags_rebuilt (c :: cs) t s f NE Hf) as [Hold Hnew].
        destruct (in_dec type_eq_dec (type f) (map type (items (flags s))))
          as [Hin | Hout].
        -- apply Hw. now apply Hold.
        -- now apply Hnew.
Qed.

Lemma flags_wf_runDetection (i : TickInput) (s : State) :
  flags_wf s -> flags_wf (runDetection i s).
Proof.
  intro Hw.
  destruct (runDetection_shape i s)
    as [[E _] | [(_ & _ & E) | [(_ & _ & E) | [(_ & _ & Ht & E)
       | [(_ & _ & _ & err & _ & E) | (_ & _ & _ & faces & _ & E)]]]]];
    rewrite E.
  - exact Hw.
  - apply (flags_wf_kept (resetFlags s)); [now left | ].
    apply (flags_wf_kept s); [apply kept_or_emptied_reset | exact Hw].
  - exact Hw.
  - apply (flags_wf_kept s); [now apply kept_or_emptied_torn | exact Hw].
  - apply (flags_wf_kept (emit EffDetect s));
      [apply kept_or_emptied_catch | exact Hw].
  - pose proof (evaluateFaces_frame (orderedFaces faces) (now i)
                  (videoWidth i) (videoHeight i) (emit EffDetect s))
      as (Hf & _).
    pose proof (nextFlags_short (orderedFaces faces) (now i)
                  (videoWidth i) (videoHeight i) (emit EffDetect s)) as Hs.
    set (e := evaluateFaces (orderedFaces faces) (now i) (videoWidth i)
                (videoHeight i) (emit EffDetect s)) in *.
    apply (flags_wf_kept (publish (nextFlags e) (now i) (ev_state e)));
      [now left | ].
    apply flags_wf_publish; [exact Hs | ].
    apply (flags_wf_kept s); [left; exact Hf | exact Hw].
Qed.

Lemma flags_wf_step (e : Event) (s : State) :
  flags_wf s -> flags_wf (step e s).
Proof.
  intro Hw. destruct e as [i | stream | | ]; unfold step.
  - destruct (pendingTimeouts s) as [|h rest]; [exact Hw | ].
    apply flags_wf_runDetection. exact Hw.
  - destruct (mediaStreamSubRef s); [ | exact Hw].
    unfold attachStream. destruct (videoRef s) as [v|]; [ | exact Hw].
    destruct stream as [m|]; [ | exact Hw].
    destruct (stream_eqb (srcObject v) m); exact Hw.
  - apply (flags_wf_kept s); [apply kept_or_emptied_cleanup | exact Hw].
  - apply (flags_wf_kept (sessionCleanup s));
      [apply kept_or_emptied_unmount | ].
    apply (flags_wf_kept s); [apply kept_or_emptied_cleanup | exact Hw].
Qed.

Lemma session_flags_empty (r : ResolveOutcome) (stream : option nat)
  (hasFeed : bool) :
  items (flags (session r stream hasFeed)) = [].
Proof.
  unfold session, initialize.
  change (isCancelled (startEffect mounted)) with false. cbv iota.
  destruct r as [adapter | err].
  - destruct hasFeed; destruct stream; reflexivity.
  - apply resetFlags_items.
Qed.

Lemma session_flags_wf (r : ResolveOutcome) (stream : option nat)
  (hasFeed : bool) (evs : list Event) :
  flags_wf (run evs (session r stream hasFeed)).
Proof.
  assert (H0 : flags_wf (session r stream hasFeed)).
  { unfold flags_wf. rewrite session_flags_empty. simpl.
    split; [lia | tauto]. }
  revert H0. generalize (session r stream hasFeed).
  induction evs as [|e evs IH]; intros s Hw; simpl.
  - exact Hw.
  - apply IH. now apply flags_wf_step.
Qed.

(** X7.  At any moment of a session, started or failed to start, at most
    one flag is published, and a published flag carries the message of
    its type. *)
Theorem at_most_one_flag (r : ResolveOutcome) (stream : option nat)
  (hasFeed : bool) (evs : list Event) :
  (List.length (items (flags (run evs (session r stream hasFeed)))) <= 1)%nat
  /\ forall f, In f (items (flags (run evs (session r stream hasFeed)))) ->
               message f = FLAG_MESSAGES (type f).
Proof. exact (session_flags_wf r stream hasFeed evs). Qed.

(** ** The published status and the refs *)

Lemma status_inv_frame (s s' : State) :
  isCancelled s' = isCancelled s -> detectorRef s' = detectorRef s ->
  isMonitoring s' = isMonitoring s ->
  detectorAvailable s' = detectorAvailable s ->
  detectorSource s' = detectorSource s -> error s' = error s ->
  (items (flags s') <> [] -> live s) ->
  status_inv s -> status_inv s'.
Proof.
  unfold status_inv, live. intros -> -> -> -> -> -> Hf (H1 & H2 & _ & H4).
  repeat split; try tauto.
Qed.

Lemma status_inv_stopped (s : State) :
  ~ live s -> isMonitoring s = false -> items (flags s) = [] ->
  (error s <> None -> detectorAvailable s = false) ->
  status_inv s.
Proof.
  unfold status_inv. intros Hl Hm Hf He.
  split; [ | split; [ | split]].
  - split; intro H; [tauto | congruence].
  - tauto.
  - intro H. congruence.
  - exact He.
Qed.

Lemma publish_status (next : list MalpracticeFlagType) (t : Z) (s : State) :
  error (publish next t s) = error s
  /\ isMonitoring (publish next t s) = isMonitoring s
  /\ detectorAvailable (publish next t s) = detectorAvailable s
  /\ detectorSource (publish next t s) = detectorSource s.
Proof.
  destruct next as [|c cs]; unfold publish.
  - pose proof (resetFlags_frame s) as H. intuition.
  - unfold updateFlags.
    destruct (updateFlags_updater (c :: cs) t (flags s) (nextObject s)).
    repeat split.
Qed.

Lemma status_inv_runDetection (i : TickInput) (s : State) :
  status_inv s -> status_inv (runDetection i s).
Proof.
  intro Hs.
  destruct (runDetection_shape i s)
    as [[E _] | [(_ & _ & E) | [(_ & _ & E) | [(_ & _ & Ht & E)
       | [(Hl & _ & _ & err & _ & E) | (Hl & _ & _ & faces & _ & E)]]]]];
    rewrite E.
  - exact Hs.
  - pose proof (resetFlags_frame s)
      as (Rc & _ & _ & _ & _ & Rd & _ & _ & Re & Rm & Ra & Rs).
    apply (status_inv_frame s); try assumption.
    change (items (flags (scheduleNext ?X))) with (items (flags X)).
    rewrite resetFlags_items. congruence.
  - apply (status_inv_frame s); try reflexivity; [ | exact Hs].
    intro H. apply Hs. exact H.
  - destruct (tryDetect_torn i s Ht) as (x & -> & Hx & _).
    destruct Hx as (Xf & Xe & Xm & Xa & _ & _ & _ & _ & _ & Xc & _).
    pose proof (sessionCleanup_cleared (emit EffDetect s))
      as (Ci & _ & _ & Cc & _).
    pose proof (sessionCleanup_status (emit EffDetect s)) as [Cm _].
    pose proof (sessionCleanup_keeps (emit EffDetect s))
      as (_ & Ka & Ke & _).
    apply status_inv_stopped.
    + intros [H _].
      change (isCancelled (scheduleNext x)) with (isCancelled x) in H.
      congruence.
    + change (isMonitoring (scheduleNext x)) with (isMonitoring x).
      congruence.
    + change (items (flags (scheduleNext x))) with (items (flags x)).
      congruence.
    + change (error (scheduleNext x)) with (error x).
      change (detectorAvailable (scheduleNext x))
        with (detectorAvailable x).
      rewrite Xe, Xa, Ke, Ka. apply Hs.
  - assert (Hc : isCancelled (emit EffDetect s) = false) by apply Hl.
    pose proof (catchBlock_live err _ Hc) as K. cbv zeta in K.
    destruct K as (K1 & _ & _ & _ & K5 & K6 & _ & K8 & _).
    apply status_inv_stopped; auto.
    intros [_ H]. congruence.
  - set (e := evaluateFaces (orderedFaces faces) (now i) (videoWidth i)
                (videoHeight i) (emit EffDetect s)).
    pose proof (evaluateFaces_frame (orderedFaces faces) (now i)
                  (videoWidth i) (videoHeight i) (emit EffDetect s))
      as (_ & Ee & Em & Ea & Es & Ed & _ & _ & _ & Ec & _).
    fold e in Ee, Em, Ea, Es, Ed, Ec.
    pose proof (publish_status (nextFlags e) (now i) (ev_state e))
      as (Pe & Pm & Pa & Ps).
    pose proof (publish_frame (nextFlags e) (now i) (ev_state e))
      as (_ & _ & Pc & _ & _ & Pd & _).
    apply (status_inv_frame s); try (intros _; exact Hl); try assumption.
    + change (isCancelled (scheduleNext ?X)) with (isCancelled X).
      now rewrite Pc, Ec.
    + change (detectorRef (scheduleNext ?X)) with (detectorRef X).
      now rewrite Pd, Ed.
    + change (isMonitoring (scheduleNext ?X)) with (isMonitoring X).
      now rewrite Pm, Em.
    + change (detectorAvailable (scheduleNext ?X))
        with (detectorAvailable X).
      now rewrite Pa, Ea.
    + change (detectorSource (scheduleNext ?X)) with (detectorSource X).
      now rewrite Ps, Es.
    + change (error (scheduleNext ?X)) with (error X).
      now rewrite Pe, Ee.
Qed.

Lemma status_inv_cleanup (s : State) :
  status_inv s -> status_inv (sessionCleanup s).
Proof.
  intro Hs.
  pose proof (sessionCleanup_cleared s) as (Ci & _ & _ & Cc & _).
  pose proof (sessionCleanup_status s) as [Cm _].
  pose proof (sessionCleanup_keeps s) as (_ & Ka & Ke & _).
  apply status_inv_stopped; auto.
  - intros [H _]. congruence.
  - rewrite Ka, Ke. apply Hs.
Qed.

Lemma unmountCleanup_monitoring (s : State) :
  isMonitoring (unmountCleanup s) = false
  /\ items (flags (unmountCleanup s)) = [].
Proof.
  unfold unmountCleanup. fields.
  pose proof (resetFlags_frame (with_isMonitoring false (stopLoop s)))
    as (_ & _ & _ & _ & _ & _ & _ & _ & _ & Rm & _).
  rewrite Rm. split; [reflexivity | apply resetFlags_items].
Qed.

Lemma status_inv_step (e : Event) (s : State) :
  status_inv s -> status_inv (step e s).
Proof.
  intro Hs. destruct e as [i | stream | | ]; unfold step.
  - destruct (pendingTimeouts s) as [|h rest]; [exact Hs | ].
    apply status_inv_runDetection.
    apply (status_inv_frame s); try reflexivity; [ | exact Hs].
    intro H. apply Hs. exact H.
  - destruct (mediaStreamSubRef s); [ | exact Hs].
    revert Hs. unfold attachStream.
    destruct (videoRef s) as [v|]; [ | tauto].
    destruct stream as [m|].
    + destruct (stream_eqb (srcObject v) m); [tauto | ].
      intro Hs. apply (status_inv_frame s); try reflexivity; [ | exact Hs].
      intro H. apply Hs. exact H.
    + intro Hs. apply (status_inv_frame s); try reflexivity; [ | exact Hs].
      intro H. apply Hs. exact H.
  - now apply status_inv_cleanup.
  - pose proof (status_inv_cleanup s Hs) as Hc.
    pose proof (unmountCleanup_keeps (sessionCleanup s))
      as (_ & Ud & Ua & Ue & _).
    pose proof (unmountCleanup_monitoring (sessionCleanup s)) as [Um Uf].
    apply status_inv_stopped; auto.
    + intros [_ H]. congruence.
    + rewrite Ua, Ue. apply Hc.
Qed.

Lemma status_inv_session (r : ResolveOutcome) (stream : option nat)
  (hasFeed : bool) :
  status_inv (session r stream hasFeed).
Proof.
  unfold session, initialize.
  change (isCancelled (startEffect mounted)) with false. cbv iota.
  destruct r as [adapter | err].
  - unfold status_inv, live.
    destruct hasFeed; destruct stream; simpl; repeat split;
      try discriminate; try tauto; eauto.
  - match goal with
    | |- status_inv (resetFlags ?X) =>
        pose proof (resetFlags_frame X)
          as (_ & _ & _ & _ & _ & Rd & _ & _ & _ & Rm & Ra & _)
    end.
    apply status_inv_stopped.
    + intros [_ H]. rewrite Rd in H. apply H. reflexivity.
    + rewrite Rm. reflexivity.
    + apply resetFlags_items.
    + intros _. rewrite Ra. reflexivity.
Qed.

Lemma session_status_inv (r : ResolveOutcome) (stream : option nat)
  (hasFeed : bool) (evs : list Event) :
  status_inv (run evs (session r stream hasFeed)).
Proof.
  pose proof (status_inv_session r stream hasFeed) as H0.
  revert H0. generalize (session r stream hasFeed).
  induction evs as [|e evs IH]; intros s Hs; simpl.
  - exact Hs.
  - apply IH. now apply status_inv_step.
Qed.



(** ** What the sensor shows *)


(** ** The scheduling of the loop *)




(** ** A lone face at the edge *)

Lemma evaluateFaces_multiple_inv (o : list DetectionResult) (t w h : Z)
  (s : State) :
  In multiple_faces_detected (nextFlags (evaluateFaces o t w h s)) ->
  (2 <= List.length o)%nat.
Proof.
  destruct o as [|primary rest].
  - rewrite evaluateFaces_absent. cbn [nextFlags].
    destruct (noFaceSinceRef s) as [u|]; [ | cbn [In]; tauto].
    destruct (NO_FACE_THRESHOLD_MS <=? t - u); cbn [In];
      intuition discriminate.
  - unfold evaluateFaces.
    change (videoRef (with_noFaceSinceRef None s)) with (videoRef s).
    change (edgeSinceRef (with_noFaceSinceRef None s)) with (edgeSinceRef s).
    destruct (Nat.ltb 1 (List.length (primary :: rest))) eqn:El.
    + intros _. apply Nat.ltb_lt in El. exact El.
    + destruct (videoRef s); [ | cbn [nextFlags In]; tauto].
      destruct (negb (w =? 0) && negb (h =? 0));
        [ | cbn [nextFlags In]; tauto].
      destruct (touchesEdge (boundingBox primary) w h);
        [ | cbn [nextFlags In]; tauto].
      destruct (edgeSinceRef s);
        match goal with
        | |- context [if ?c then _ else _] => destruct c
        end; cbn [nextFlags app In]; intuition discriminate.
Qed.

Lemma orderedFaces_lone (faces : list DetectionResult) :
  (List.length faces <= 1)%nat -> orderedFaces faces = faces.
Proof.
  intro H. unfold orderedFaces.
  destruct (Nat.ltb 1 (List.length faces)) eqn:E; [ | reflexivity].
  apply Nat.ltb_lt in E. lia.
Qed.

(** With at most one face and the edge timer unset, the edge flag is no
    candidate, and the timer is unset again unless some flag is. *)
Lemma evaluateFaces_lone (o : list DetectionResult) (t w h : Z) (s : State) :
  (List.length o <= 1)%nat -> edgeSinceRef s = None ->
  ~ In face_near_frame_edge (nextFlags (evaluateFaces o t w h s))
  /\ (nextFlags (evaluateFaces o t w h s) <> [] ->
      edgeSinceRef (ev_state (evaluateFaces o t w h s)) = None).
Proof.
  intros Hl He.
  assert (Hn : ~ In face_near_frame_edge
                   (nextFlags (evaluateFaces o t w h s))).
  { intro H.
    destruct (evaluateFaces_edge_candidate o t w h s H)
      as (p & since & _ & _ & Hs & _).
    congruence. }
  split; [exact Hn | ]. intro Hne.
  assert (Hc : forall c, In c (nextFlags (evaluateFaces o t w h s)) ->
                         c = no_face_detected).
  { intros c Hc. destruct c; [ | reflexivity | contradiction].
    apply evaluateFaces_multiple_inv in Hc. lia. }
  destruct o as [|p r].
  - rewrite evaluateFaces_edgeSince. reflexivity.
  - exfalso.
    destruct (nextFlags (evaluateFaces (p :: r) t w h s)) as [|c l] eqn:En;
      [congruence | ].
    assert (Hin : In no_face_detected
                    (nextFlags (evaluateFaces (p :: r) t w h s))).
    { rewrite En. left. apply Hc. now left. }
    revert Hin. apply evaluateFaces_present. discriminate.
Qed.

Lemma edge_idle_ext (s s' : State) :
  flags s' = flags s -> edgeSinceRef s' = edgeSinceRef s ->
  edge_idle s -> edge_idle s'.
Proof.
  unfold edge_idle, flag_types. intros -> ->. tauto.
Qed.

Lemma edge_idle_empty (s : State) :
  items (flags s) = [] -> edgeSinceRef s = None -> edge_idle s.
Proof.
  unfold edge_idle, flag_types. intros -> ->.
  split; [reflexivity | cbn [map In]; tauto].
Qed.

Lemma edge_idle_scheduleNext (s : State) :
  edge_idle s -> edge_idle (scheduleNext s).
Proof. apply edge_idle_ext; reflexivity. Qed.

Lemma edge_idle_publish (e : Evaluation) (t : Z) :
  ~ In face_near_frame_edge (nextFlags e) ->
  (nextFlags e <> [] -> edgeSinceRef (ev_state e) = None) ->
  edge_idle (publish (nextFlags e) t (ev_state e)).
Proof.
  intros Hn Hne. split.
  - rewrite publish_edgeSince.
    destruct (nextFlags e) as [|c l]; [reflexivity | ].
    apply Hne. discriminate.
  - rewrite publish_types. intro H. exact (Hn (proj1 (prioritize_In _ _) H)).
Qed.

Lemma edge_idle_runDetection (i : TickInput) (s : State) :
  lone (EvTick i) -> edge_idle s -> edge_idle (runDetection i s).
Proof.
  intros Hlone Hs.
  destruct (runDetection_shape i s)
    as [[E _] | [(_ & _ & E) | [(_ & _ & E) | [(_ & _ & Ht & E)
       | [(Hl & _ & _ & err & _ & E) | (_ & _ & _ & faces & Eo & E)]]]]];
    rewrite E.
  - exact Hs.
  - apply edge_idle_scheduleNext, edge_idle_empty.
    + apply resetFlags_items.
    + apply resetFlags_timers.
  - now apply edge_idle_scheduleNext.
  - destruct (tryDetect_torn i s Ht) as (x & -> & Hx & _ & Xe).
    destruct Hx as (Xf & _).
    apply edge_idle_scheduleNext, edge_idle_empty; [ | exact Xe].
    rewrite Xf. apply sessionCleanup_cleared.
  - assert (Hc : isCancelled (emit EffDetect s) = false) by apply Hl.
    pose proof (catchBlock_live err _ Hc) as K. cbv zeta in K.
    destruct K as (K1 & _ & K3 & _).
    now apply edge_idle_empty.
  - unfold lone in Hlone. rewrite Eo in Hlone.
    rewrite (orderedFaces_lone faces Hlone).
    assert (He : edgeSinceRef (emit EffDetect s) = None) by apply Hs.
    pose proof (evaluateFaces_lone faces (now i) (videoWidth i)
                  (videoHeight i) (emit EffDetect s) Hlone He) as [Hn Hne].
    apply edge_idle_scheduleNext. now apply edge_idle_publish.
Qed.

Lemma edge_idle_step (e : Event) (s : State) :
  lone e -> edge_idle s -> edge_idle (step e s).
Proof.
  intros Hlone H. destruct e as [i | stream | | ]; unfold step.
  - destruct (pendingTimeouts s) as [|h rest]; [exact H | ].
    apply edge_idle_runDetection; [exact Hlone | ].
    revert H. apply edge_idle_ext; reflexivity.
  - destruct (mediaStreamSubRef s); [ | exact H].
    unfold attachStream.
    destruct (videoRef s) as [v|]; [ | exact H].
    destruct stream as [m|].
    + destruct (stream_eqb (srcObject v) m); [exact H | ].
      revert H. apply edge_idle_ext; reflexivity.
    + revert H. apply edge_idle_ext; reflexivity.
  - apply edge_idle_empty; apply sessionCleanup_cleared.
  - apply edge_idle_empty.
    + apply unmountCleanup_monitoring.
    + unfold unmountCleanup. fields. apply resetFlags_timers.
Qed.

Lemma edge_idle_session (r : ResolveOutcome) (stream : option nat)
  (hasFeed : bool) :
  edge_idle (session r stream hasFeed).
Proof.
  apply edge_idle_empty; [apply session_flags_empty | ].
  unfold session, initialize.
  change (isCancelled (startEffect mounted)) with false. cbv iota.
  destruct r as [adapter | err].
  - destruct hasFeed; destruct stream; reflexivity.
  - apply resetFlags_timers.
Qed.

(** X11.  In a session whose ticks all report at most one face, the flag
    [face-near-frame-edge] is never published, however long the face
    stays at the edge: every cycle without a candidate resets the edge
    timer it has just started. *)
Theorem lone_face_edge_unflagged (r : ResolveOutcome) (stream : option nat)
  (hasFeed : bool) (evs : list Event) :
  Forall lone evs ->
  ~ In face_near_frame_edge (flag_types (run evs (session r stream hasFeed)))
  /\ edgeSinceRef (run evs (session r stream hasFeed)) = None.
Proof.
  intro Hl.
  pose proof (edge_idle_session r stream hasFeed) as H0.
  revert H0. generalize (session r stream hasFeed).
  induction Hl as [|e evs He _ IH]; intros s Hs; simpl.
  - destruct Hs. now split.
  - apply IH. now apply edge_idle_step.
Qed.

Lemma lone_face_edge_unflagged_witness :
  touchesEdge (boundingBox edgeFace) 640 480 = true
  /\ ~ In face_near_frame_edge
         (flag_types (run loneEdgeTicks
                        (session (Resolved sampleAdapter) (Some 7%nat) true))).
Proof.
  split; [reflexivity | ].
  apply (lone_face_edge_unflagged (Resolved sampleAdapter) (Some 7%nat) true
           loneEdgeTicks).
  repeat constructor.
Defined.

(** ** After the teardown *)

Lemma disposeCalls_ext (s s' : State) :
  effects s' = effects s -> disposeCalls s' = disposeCalls s.
Proof. unfold disposeCalls. now intros ->. Qed.

Lemma stopLoop_disposeCalls (s : State) :
  detectorRef s = None -> disposeCalls (stopLoop s) = disposeCalls s.
Proof.
  destruct s.
  unfold stopLoop, unsubscribeFeed, releaseVideo, disposeAdapter,
    clearDetectionTimer, clearTimeout, disposeCalls.
  simpl. intros ->. repeat break_match; try reflexivity;
    simpl in *; congruence.
Qed.

Lemma sessionCleanup_disposeCalls (s : State) :
  detectorRef s = None -> disposeCalls (sessionCleanup s) = disposeCalls s.
Proof.
  intro H. unfold sessionCleanup.
  pose proof (resetFlags_frame (stopLoop (with_isCancelled true s)))
    as (_ & _ & _ & _ & Hre & _).
  rewrite (disposeCalls_ext (resetFlags (stopLoop (with_isCancelled true s))))
    by (fields; reflexivity).
  rewrite (disposeCalls_ext (stopLoop (with_isCancelled true s)) _ Hre).
  now rewrite stopLoop_disposeCalls.
Qed.

Lemma unmountCleanup_disposeCalls (s : State) :
  detectorRef s = None -> disposeCalls (unmountCleanup s) = disposeCalls s.
Proof.
  intro H. unfold unmountCleanup.
  pose proof (resetFlags_frame (with_isMonitoring false (stopLoop s)))
    as (_ & _ & _ & _ & Hre & _).
  rewrite (disposeCalls_ext (resetFlags (with_isMonitoring false (stopLoop s))))
    by (fields; reflexivity).
  rewrite (disposeCalls_ext (with_isMonitoring false (stopLoop s)) _ Hre).
  rewrite (disposeCalls_ext (stopLoop s)) by (fields; reflexivity).
  now apply stopLoop_disposeCalls.
Qed.


Lemma at_rest_cleanup (s0 s : State) :
  at_rest s0 s -> at_rest s0 (sessionCleanup s).
Proof.
  intros (Hp & Hd & Hm & Hi & Hf & Hc & Hx).
  pose proof (sessionCleanup_cleared s) as (Ci & _ & _ & _ & _ & Cd).
  pose proof (sessionCleanup_keeps s) as (Km & _ & _ & Kc).
  pose proof (sessionCleanup_status s) as [Sm _].
  unfold at_rest.
  rewrite (sessionCleanup_idle s Hp), (sessionCleanup_disposeCalls s Hd), Kc.
  tauto.
Qed.

Lemma at_rest_unmount (s0 s : State) :
  at_rest s0 s -> at_rest s0 (unmountCleanup s).
Proof.
  intros (Hp & Hd & Hm & Hi & Hf & Hc & Hx).
  pose proof (unmountCleanup_keeps s) as (Km & Kd & _ & _ & Kc).
  pose proof (unmountCleanup_monitoring s) as [Sm Sf].
  pose proof (unmountCleanup_idle s Hp) as [Up _].
  unfold at_rest.
  rewrite (unmountCleanup_disposeCalls s Hd), Kc.
  tauto.
Qed.

Lemma at_rest_step (s0 : State) (e : Event) (s : State) :
  at_rest s0 s -> at_rest s0 (step e s).
Proof.
  intro H. destruct e as [i | stream | | ]; unfold step.
  - pose proof H as (Hp & _). rewrite Hp. exact H.
  - pose proof H as (_ & _ & Hm & _). rewrite Hm. exact H.
  - now apply at_rest_cleanup.
  - now apply at_rest_unmount, at_rest_cleanup.
Qed.

Lemma at_rest_run (s0 : State) (evs : list Event) (s : State) :
  at_rest s0 s -> at_rest s0 (run evs s).
Proof.
  revert s. induction evs as [|e evs IH]; intros s H; simpl.
  - exact H.
  - apply IH. now apply at_rest_step.
Qed.

(** X13.  A detector that resolves after the effect was cleaned up starts
    nothing: the adapter is disposed at once when it has a [dispose], no
    state is published, no timeout is scheduled, and the session stays at
    rest whatever events follow. *)
Theorem late_resolution_starts_nothing (r : ResolveOutcome)
  (stream : option nat) (hasFeed : bool) (later : list Event) :
  disposeCalls
    (initialize r stream hasFeed (step EvCleanup (startEffect mounted)))
  = match r with
    | Resolved adapter => if has_dispose adapter then 1%nat else 0%nat
    | ResolveFailed _ => 0%nat
    end
  /\ detectCalls
       (run later
          (initialize r stream hasFeed (step EvCleanup (startEffect mounted))))
     = 0%nat
  /\ at_rest
       (initialize r stream hasFeed (step EvCleanup (startEffect mounted)))
       (run later
          (initialize r stream hasFeed
             (step EvCleanup (startEffect mounted)))).
Proof.
  assert (H : at_rest
                (initialize r stream hasFeed
                   (step EvCleanup (startEffect mounted)))
                (initialize r stream hasFeed
                   (step EvCleanup (startEffect mounted)))
              /\ disposeCalls
                   (initialize r stream hasFeed
                      (step EvCleanup (startEffect mounted)))
                 = match r with
                   | Resolved adapter =>
                       if has_dispose adapter then 1%nat else 0%nat
                   | ResolveFailed _ => 0%nat
                   end
              /\ detectCalls
                   (initialize r stream hasFeed
                      (step EvCleanup (startEffect mounted))) = 0%nat).
  { destruct r as [[src [|]] | err]; vm_compute; tauto. }
  destruct H as (Hr & Hd & Hc).
  pose proof (at_rest_run _ later _ Hr) as Hl.
  split; [exact Hd | ]. split; [ | exact Hl].
  destruct Hl as (_ & _ & _ & _ & _ & Hl & _). now rewrite Hl.
Qed.



(** ** A resolution that fails *)

(** X15.  When no detector can be resolved, the session reports the
    detector unavailable with the fixed message about the libraries, and
    stays so whatever events follow: it never monitors, schedules no
    cycle, never calls [detect], publishes no flag, and the sensor shows
    the panel of an unavailable sensor with that message. *)
Theorem failed_resolution_disables (err : Thrown) (stream : option nat)
  (hasFeed : bool) (evs : list Event) (t : Z) :
  detectorAvailable (run evs (session (ResolveFailed err) stream hasFeed))
  = false
  /\ error (run evs (session (ResolveFailed err) stream hasFeed))
     = Some "Face detection libraries failed to load. Malpractice monitoring is unavailable."%string
  /\ isMonitoring (run evs (session (ResolveFailed err) stream hasFeed))
     = false
  /\ items (flags (run evs (session (ResolveFailed err) stream hasFeed))) = []
  /\ pendingTimeouts (run evs (session (ResolveFailed err) stream hasFeed))
     = []
  /\ detectCalls (run evs (session (ResolveFailed err) stream hasFeed))
     = 0%nat
  /\ renderSensor t (run evs (session (ResolveFailed err) stream hasFeed))
     = UnavailablePanel
         "Face detection libraries failed to load. Malpractice monitoring is unavailable."%string.
Proof.
  assert (H0 : halted (session (ResolveFailed err) stream hasFeed)
                 (session (ResolveFailed err) stream hasFeed))
    by (vm_compute; tauto).
  pose proof (halted_run _ evs _ H0) as (Hp & Hd & _ & Ha & He & Hc).
  pose proof (session_status_inv (ResolveFailed err) stream hasFeed evs)
    as (H1 & _ & H3 & _).
  change (error (session (ResolveFailed err) stream hasFeed))
    with (Some "Face detection libraries failed to load. Malpractice monitoring is unavailable."%string)
    in He.
  change (detectCalls (session (ResolveFailed err) stream hasFeed))
    with 0%nat in Hc.
  clear H0.
  remember (run evs (session (ResolveFailed err) stream hasFeed)) as s
    eqn:Es.
  clear Es.
  assert (Hn : ~ live s) by (intros [_ Hn]; exact (Hn Hd)).
  assert (Hm : isMonitoring s = false).
  { destruct (isMonitoring s); [ | reflexivity].
    exfalso. apply Hn. now apply H1. }
  assert (Hf : items (flags s) = []).
  { destruct (items (flags s)); [reflexivity | ].
    exfalso. apply Hn, H3. discriminate. }
  repeat (split; [assumption | ]).
  unfold renderSensor. rewrite Ha, He. reflexivity.
Qed.

(** X16.  When [detect] throws in a running session, the sensor shows the
    panel of an unavailable sensor with the message of the error as its
    text, and a toast with that message, unless the message is the empty
    string: then no toast is shown and the text of the panel is empty. *)
Theorem detect_failure_shown (i : TickInput) (err : Thrown) (s : State)
  (t : Z) :
  firing s -> live s -> bound s -> frame_ready i ->
  detectOutcome i = DetectThrows err -> teardownInFlight i = false ->
  renderSensor t (runDetection i s) = UnavailablePanel (error_message err)
  /\ errorToastEffect (error (runDetection i s))
     = match error_message err with
       | EmptyString => []
       | String _ _ =>
           [mkToast "Malpractice sensor disabled" (error_message err)]
       end.
Proof.
  intros Hf Hl Hb Hr Ho Ht.
  pose proof (failing_tick i err s Hf Hl Hb Hr Ho Ht)
    as (_ & _ & Ha & _ & He & _).
  unfold renderSensor. rewrite Ha, He. split; [reflexivity | ].
  unfold errorToastEffect, truthy.
  destruct (error_message err); reflexivity.
Qed.

Lemma detect_failure_shown_witness :
  renderSensor 2000
    (runDetection failingTick (with_pendingTimeouts [] sampleSession))
  = UnavailablePanel "detector crashed".
Proof.
  apply (detect_failure_shown failingTick (ErrorObject "detector crashed")
           (with_pendingTimeouts [] sampleSession) 2000).
  - split; [vm_compute; lia | ]. split; [reflexivity | ].
    exists 1%nat. split; [reflexivity | discriminate].
  - split; [reflexivity | discriminate].
  - exists (mkVideo (Some 7%nat)), 7%nat. split; reflexivity.
  - split; [vm_compute; discriminate | discriminate].
  - reflexivity.
  - reflexivity.
Defined.

(** ** Loading the modules *)

(** X17.  The body of the memoised promise succeeds exactly when the three
    import steps load and [setBackend] and [ready] go through on webgl or
    on cpu.  No backend is touched before the core and the backend
    packages are imported; the face detection package is imported only
    once a backend is ready; and a warning is logged only for a backend
    that failed. *)
Theorem loadTfModules_imports (env : TfEnv) :
  ((exists b, snd (loadTfModules env) = Some b) <->
   import_core_ok env = true /\ import_backends_ok env = true
   /\ (backend_ok env webgl = true \/ backend_ok env cpu = true)
   /\ import_faceDetection_ok env = true)
  /\ (In ImportFaceDetection (fst (loadTfModules env)) <->
      import_core_ok env = true /\ import_backends_ok env = true
      /\ (backend_ok env webgl = true \/ backend_ok env cpu = true))
  /\ ((exists b, In (SetBackend b) (fst (loadTfModules env))) <->
      import_core_ok env = true /\ import_backends_ok env = true)
  /\ (forall b, In (WarnBackend b) (fst (loadTfModules env)) ->
                backend_ok env b = false).
Proof.
  unfold loadTfModules, candidateBackends, backend_ok. simpl.
  destruct (import_core_ok env), (import_backends_ok env),
    (setBackend_ok env webgl) eqn:Sw, (ready_ok env webgl) eqn:Rw,
    (setBackend_ok env cpu) eqn:Sc, (ready_ok env cpu) eqn:Rc,
    (import_faceDetection_ok env); simpl;
    (split; [ | split; [ | split]]);
    try (intros [ | ] Hin; rewrite ?Sw, ?Rw, ?Sc, ?Rc;
         try reflexivity;
         repeat destruct Hin as [Hin | Hin]; try discriminate;
         contradiction);
    (split;
     [ try (intros [b H]; try discriminate;
            repeat destruct H as [H | H]; try discriminate;
            try contradiction);
       try (intro H; repeat destruct H as [H | H]; try discriminate;
            try contradiction);
       auto
     | try (intros (H1 & H2 & [H3 | H3] & H4); discriminate);
       try (intros (H1 & H2 & [H3 | H3]); discriminate);
       try (intros (H1 & H2 & H3); discriminate);
       try (intros (H1 & H2); discriminate);
       try (intros _; eexists; reflexivity);
       try (intros _; exists webgl; left; reflexivity; fail);
       try (intros _; exists webgl; right; right; left; reflexivity);
       try (intros _; simpl; tauto) ]).
Qed.

(** ** The sensor component *)

Lemma Math_round_ratio_spec (a b : Z) :
  0 < b ->
  2 * b * Math_round_ratio a b <= 2 * a + b
  < 2 * b * Math_round_ratio a b + 2 * b.
Proof.
  intro Hb. unfold Math_round_ratio.
  pose proof (Z.mul_div_le (2 * a + b) (2 * b)).
  pose proof (Z.mul_succ_div_gt (2 * a + b) (2 * b)).
  lia.
Qed.

(** X18.  [formatDuration] shows [just now] below one second (also for a
    [since] in the future), then whole seconds rounded to the nearest,
    from 1 to 60, then whole minutes rounded to the nearest, from 1 on:
    the last half second before the minute reads [60s ago]. *)
Theorem formatDuration_cases (now since : Z) :
  (now - since < 1000 -> formatDuration now since = "just now"%string)
  /\ (1000 <= now - since < 60000 ->
      exists k,
        formatDuration now since = (decimal k ++ "s ago")%string
        /\ 1 <= k <= 60
        /\ -500 <= now - since - 1000 * k < 500)
  /\ (60000 <= now - since ->
      exists k,
        formatDuration now since = (decimal k ++ "m ago")%string
        /\ 1 <= k
        /\ -30000 <= now - since - 60000 * k < 30000).
Proof.
  unfold formatDuration. cbv zeta. split; [ | split].
  - intro H. apply Z.ltb_lt in H. now rewrite H.
  - intros [H1 H2].
    apply Z.ltb_ge in H1. apply Z.ltb_lt in H2. rewrite H1, H2.
    apply Z.ltb_ge in H1. apply Z.ltb_lt in H2.
    exists (Math_round_ratio (now - since) 1000).
    split; [reflexivity | ].
    pose proof (Math_round_ratio_spec (now - since) 1000). lia.
  - intro H.
    assert (H1 : (now - since <? 1000) = false) by (apply Z.ltb_ge; lia).
    assert (H2 : (now - since <? 60000) = false) by (apply Z.ltb_ge; lia).
    rewrite H1, H2.
    exists (Math_round_ratio (now - since) 60000).
    split; [reflexivity | ].
    pose proof (Math_round_ratio_spec (now - since) 60000). lia.
Qed.

Lemma formatDuration_cases_witness :
  formatDuration 59600 0 = "60s ago"%string
  /\ exists k, formatDuration 61000 0 = (decimal k ++ "m ago")%string
               /\ 1 <= k.
Proof.
  split; [reflexivity | ].
  destruct (proj2 (proj2 (formatDuration_cases 61000 0))) as (k & Hk & H1 & _).
  - lia.
  - exists k. split; assumption.
Defined.

Lemma toastEffect_none (previous : list MalpracticeFlagType)
  (fl : list MalpracticeFlag) :
  (forall flag, In flag fl -> In (type flag) previous) ->
  fst (toastEffect previous fl) = [].
Proof.
  intro H. unfold toastEffect. cbn [fst].
  induction fl as [|f fl IH]; [reflexivity | ].
  cbn [filter].
  assert (E : includes previous (type f) = true)
    by (apply includes_In, H; now left).
  rewrite E. cbn [negb]. apply IH. intros flag Hin. apply H. now right.
Qed.

(** X19.  The toast effect of the sensor shows one toast per published
    flag whose type was not published at its previous run, with the
    message of the flag; run again on the same flags, or on any flags
    whose types were all published already, it shows nothing. *)
Theorem toastEffect_new_types (previous : list MalpracticeFlagType)
  (fl : list MalpracticeFlag) :
  (forall toast,
     In toast (fst (toastEffect previous fl)) <->
     exists flag, In flag fl /\ ~ In (type flag) previous
                  /\ toast = mkToast "Malpractice warning" (message flag))
  /\ fst (toastEffect (snd (toastEffect previous fl)) fl) = []
  /\ (forall fl',
        (forall flag, In flag fl' -> In (type flag) (map type fl)) ->
        fst (toastEffect (snd (toastEffect previous fl)) fl') = []).
Proof.
  split; [ | split].
  - intro toast. unfold toastEffect. cbn [fst]. rewrite in_map_iff. split.
    + intros (flag & <- & Hin). apply filter_In in Hin.
      destruct Hin as [Hin Hb]. exists flag. split; [exact Hin | ].
      split; [ | reflexivity].
      intro Hp. apply includes_In in Hp. rewrite Hp in Hb. discriminate.
    + intros (flag & Hin & Hn & ->). exists flag. split; [reflexivity | ].
      apply filter_In. split; [exact Hin | ].
      destruct (includes previous (type flag)) eqn:E; [ | reflexivity].
      apply includes_In in E. contradiction.
  - apply toastEffect_none. intros flag Hin. cbn [toastEffect snd].
    now apply in_map.
  - intros fl' H. now apply toastEffect_none.
Qed.

(** X20.  At any moment of a session the toast effect shows at most one
    toast, and that toast carries the fixed message of the type of the one
    published flag. *)
Theorem session_toasts (r : ResolveOutcome) (stream : option nat)
  (hasFeed : bool) (evs : list Event) (previous : list MalpracticeFlagType) :
  fst (toastEffect previous
         (items (flags (run evs (session r stream hasFeed))))) = []
  \/ exists f,
       items (flags (run evs (session r stream hasFeed))) = [f]
       /\ ~ In (type f) previous
       /\ fst (toastEffect previous
                 (items (flags (run evs (session r stream hasFeed)))))
          = [mkToast "Malpractice warning" (FLAG_MESSAGES (type f))].
Proof.
  pose proof (session_flags_wf r stream hasFeed evs) as [Hlen Hmsg].
  revert Hlen Hmsg.
  generalize (items (flags (run evs (session r stream hasFeed)))).
  intros [|f [|g l]] Hlen Hmsg.
  - left. reflexivity.
  - unfold toastEffect. cbn [fst filter].
    destruct (includes previous (type f)) eqn:E; [left; reflexivity | right].
    exists f. split; [reflexivity | ]. split.
    + intro Hin. apply includes_In in Hin. congruence.
    + cbn [negb map]. now rewrite (Hmsg f (or_introl eq_refl)).
  - simpl in Hlen. lia.
Qed.

(** * The loop at its suspension points *)

(** ** The two halves of a tick *)

(** A tick taken as a whole is its first half followed, when [detect] was
    called, by its second half, with the cleanup in between when the tick
    says so. *)
Lemma runDetection_fire_resume (i : TickInput) (s : State) :
  runDetection i s
  = (let (s', called) := fire i s in
     if called
     then resume i (if teardownInFlight i then sessionCleanup s' else s')
     else s').
Proof.
  unfold runDetection, fire.
  destruct (isCancelled s || negb (isSome (detectorRef s))); [reflexivity | ].
  destruct (videoRef s) as [video|]; [ | reflexivity].
  destruct (negb (isSome (srcObject video))); [reflexivity | ].
  destruct ((readyState i <? 2) || (videoWidth i =? 0)); [reflexivity | ].
  unfold tryDetect, afterAwait, resume.
  destruct (teardownInFlight i); reflexivity.
Qed.






(** ** What the teardown leaves *)











(** ** The invariant of the loop *)











(** ** After the teardown, at any point of the loop *)






(** ** A tick as two steps of the loop *)

(** A tick of [step] is the firing of the timeout followed by the
    settlement of [detect], with the cleanup in between when the tick says
    that it ran meanwhile. *)
Lemma tick_as_loop_events (i : TickInput) (s : State) :
  (teardownInFlight i = false ->
   loop_run [LFire i; LSettle i] (mkLoop s 0)
   = mkLoop (step (EvTick i) s) 0)
  /\ (teardownInFlight i = true ->
      awaited (loop_step (LFire i) (mkLoop s 0)) = 1%nat ->
      loop_run [LFire i; LCleanup; LSettle i] (mkLoop s 0)
      = mkLoop (step (EvTick i) s) 0).
Proof.
  unfold loop_run, loop_step, step. cbn [fold_left hook awaited].
  destruct (pendingTimeouts s) as [|h rest].
  - split; [reflexivity | ]. intros _ H. discriminate.
  - rewrite (runDetection_fire_resume i (with_pendingTimeouts rest s)).
    destruct (fire i (with_pendingTimeouts rest s)) as [s' [|]];
      cbn [hook awaited].
    + split; intros Ht; rewrite Ht; reflexivity.
    + split; [reflexivity | ]. intros _ H. discriminate.
Qed.
